(** * CapacityTester: the volume tester (src/volumetester.cpp)

    A shallow embedding of [VolumeTester]: the planner of files and blocks,
    the test pattern, the block data, the three test phases
    (initialization, full write, full verification), cancellation and the
    cleanup of the test files, over an explicit model of the file system
    the class talks to.

    Numbers are [Z]; where the source stores one in an [int] or a [qint64]
    the value is reduced to that type's range. A [QByteArray] is the list
    of its bytes. A failed [assert] ends the program, so a function that
    asserts returns an [option]. The class's header is not among the
    sources: what the source file takes from it (the macro [MB], the
    [Error] flags, the types of the fields) is either a field of the
    environment or stated where it is used. *)

From Stdlib Require Import ZArith String Ascii List Bool Lia Arith.
From Stdlib Require Import DecimalString.
Import ListNotations.
Open Scope Z_scope.

(** ** Machine integers

    [int] is 32 bits wide and [qint64] 64 bits wide; a value stored in one
    of them is reduced to its two's complement range. *)

Module Int.

Definition wrap (bits : Z) (x : Z) : Z :=
  (x + 2 ^ (bits - 1)) mod 2 ^ bits - 2 ^ (bits - 1).

Definition to_int (x : Z) : Z := wrap 32 x.
Definition to_qint64 (x : Z) : Z := wrap 64 x.
Definition to_uchar (x : Z) : Z := x mod 256.

Definition INT_MAX : Z := 2 ^ 31 - 1.
Definition INT64_MAX : Z := 2 ^ 63 - 1.

End Int.

Import Int.

(** Modelled from the spec: one megabyte as the spec counts it (1 MiB).
    The macro [MB] itself comes from volumetester.hpp, which is not among
    the sources; the tester below takes it from its build, see [Env]. *)
Definition MiB : Z := 1048576.

(** ** Byte arrays and strings *)

(** A [QByteArray] is the list of its bytes, each an unsigned value. *)
Definition QByteArray : Type := list Z.

Definition toUtf8 (s : string) : QByteArray :=
  map (fun c => Z.of_N (N_of_ascii c)) (list_ascii_of_string s).

(** [QString::number(i)] for an integer: its decimal digits. *)
Definition number (i : Z) : string := NilZero.string_of_int (Z.to_int i).

(** [QByteArray::size()]. *)
Definition bsize (b : QByteArray) : Z := Z.of_nat (length b).

(** [QByteArray::replace(pos, len, after)] for a position inside the array. *)
Definition replace (pos len : Z) (after b : QByteArray) : QByteArray :=
  firstn (Z.to_nat pos) b ++ after ++ skipn (Z.to_nat (pos + len)) b.

(** [QByteArray::resize(n)] when it shrinks the array. *)
Definition shrink (n : Z) (b : QByteArray) : QByteArray := firstn (Z.to_nat n) b.

Fixpoint bytes_eqb (a b : QByteArray) : bool :=
  match a, b with
  | [], [] => true
  | x :: a', y :: b' => (x =? y) && bytes_eqb a' b'
  | _, _ => false
  end.

(** [QString::startsWith]. *)
Definition startsWith (s p : string) : bool := String.prefix p s.

(** ** Assertions

    [assert] aborts the program; a computation that may abort returns an
    [option], [None] being the abort. *)

Definition assert (b : bool) : option unit := if b then Some tt else None.

Notation "x <-? c ; k" :=
  (match c with Some x => k | None => None end)
    (at level 61, c at next level, right associativity).

(** ** The plan *)

Module BlockInfo.
Record t : Type := mk {
  rel_offset : Z;
  abs_offset : Z;
  size : Z;
  abs_end : Z;
  id : QByteArray
}.
End BlockInfo.

Module FileInfo.
Record t : Type := mk {
  path : string;
  offset : Z;
  size : Z;
  end_ : Z;
  id : QByteArray;
  blocks : list BlockInfo.t
}.
End FileInfo.

(** A [for] loop that appends one element per round, [n] rounds from
    index [j]. *)
Fixpoint collect {A : Type} (n : nat) (j : Z) (body : Z -> option A)
  : option (list A) :=
  match n with
  | O => Some []
  | S n' =>
      x <-? body j;
      rest <-? collect n' (j + 1) body;
      Some (x :: rest)
  end.

(** [QDir::absoluteFilePath] for a directory given by an absolute path. *)
Definition absoluteFilePath (dir name : string) : string :=
  if String.eqb dir "/" then ("/" ++ name)%string
  else (dir ++ "/" ++ name)%string.

(** The planner of [start]. The two maximal sizes are 64 bits wide (the
    source says so where it multiplies by them: "*size_max are long (long)
    (not just int) to prevent overflows"); the counts and the sizes of
    files and blocks are [int]s, the positions [qint64]s. *)

Section Planner.

Variables file_size_max block_size_max : Z.
Variables file_prefix mountpoint : string.

Definition file_id (i : Z) : QByteArray := toUtf8 (number i) ++ [1].

Definition block_id (i j : Z) : QByteArray :=
  toUtf8 (number i ++ ":" ++ number j) ++ [1].

(** One round of the loop over the blocks of file [i]. *)
Definition plan_block (i file_offset block_count last_block_size j : Z)
  : option BlockInfo.t :=
  let block_size := to_int block_size_max in
  let block_size :=
    if (j =? to_int (block_count - 1)) && negb (last_block_size =? 0)
    then last_block_size else block_size in
  _ <-? assert (0 <? block_size);
  let pos := to_qint64 (j * block_size_max) in
  _ <-? assert (0 <=? pos);
  let end_ := to_qint64 (pos + block_size) in
  Some {| BlockInfo.rel_offset := pos;
          BlockInfo.abs_offset := to_qint64 (file_offset + pos);
          BlockInfo.size := block_size;
          BlockInfo.abs_end := to_qint64 (file_offset + end_);
          BlockInfo.id := block_id i j |}.

(** One round of the loop over the files. *)
Definition plan_file (file_count last_file_size i : Z) : option FileInfo.t :=
  let size := to_int file_size_max in
  let size :=
    if (i =? to_int (file_count - 1)) && negb (last_file_size =? 0)
    then last_file_size else size in
  _ <-? assert (0 <? size);
  let pos := to_qint64 (i * file_size_max) in
  _ <-? assert (0 <=? pos);
  let end_ := to_qint64 (pos + size) in
  let name := (file_prefix ++ number i)%string in
  let path := absoluteFilePath mountpoint name in
  let block_count := to_int (Z.quot size block_size_max) in
  let last_block_size := to_int (Z.rem size block_size_max) in
  let block_count :=
    if negb (last_block_size =? 0) then to_int (block_count + 1)
    else block_count in
  blocks <-? collect (Z.to_nat block_count) 0
               (plan_block i pos block_count last_block_size);
  _ <-? assert (Z.of_nat (length blocks) =? block_count);
  Some {| FileInfo.path := path;
          FileInfo.offset := pos;
          FileInfo.size := size;
          FileInfo.end_ := end_;
          FileInfo.id := file_id i;
          FileInfo.blocks := blocks |}.

(** "Calculate file and block sizes" in [start]. *)
Definition plan_files (bytes_total : Z) : option (list FileInfo.t) :=
  let file_count := to_int (Z.quot bytes_total file_size_max) in
  let last_file_size := to_int (Z.rem bytes_total file_size_max) in
  let file_count :=
    if negb (last_file_size =? 0) then to_int (file_count + 1)
    else file_count in
  collect (Z.to_nat file_count) 0 (plan_file file_count last_file_size).

End Planner.

(** *** What a plan should be *)

Fixpoint zseq (j : Z) (n : nat) : list Z :=
  match n with
  | O => []
  | S n' => j :: zseq (j + 1) n'
  end.

Definition sum (l : list Z) : Z := fold_right Z.add 0 l.

(** Every element of [l] but possibly the last is [m]. *)
Definition all_but_last (m : Z) (l : list Z) : Prop :=
  forall k, (S k < length l)%nat -> nth k l 0 = m.

(** The number of parts of at most [m] that [total] is cut into, and the
    size of part [i]. *)
Definition part_count (total m : Z) : Z :=
  total / m + (if total mod m =? 0 then 0 else 1).

Definition part_size (total m i : Z) : Z :=
  if (i =? part_count total m - 1) && negb (total mod m =? 0)
  then total mod m else m.

(** The blocks of a file cover it: sizes, offsets by index, contiguity. *)
Definition blocks_ok (bsm : Z) (f : FileInfo.t) : Prop :=
  let bs := FileInfo.blocks f in
  sum (map BlockInfo.size bs) = FileInfo.size f /\
  all_but_last bsm (map BlockInfo.size bs) /\
  (forall j b, nth_error bs j = Some b ->
     BlockInfo.rel_offset b = Z.of_nat j * bsm /\
     0 < BlockInfo.size b <= bsm /\
     BlockInfo.abs_offset b = FileInfo.offset f + BlockInfo.rel_offset b /\
     BlockInfo.abs_end b = BlockInfo.abs_offset b + BlockInfo.size b) /\
  (forall j b b', nth_error bs j = Some b -> nth_error bs (S j) = Some b' ->
     BlockInfo.rel_offset b' = BlockInfo.rel_offset b + BlockInfo.size b) /\
  (forall j j' b b', (j < j')%nat ->
     nth_error bs j = Some b -> nth_error bs j' = Some b' ->
     BlockInfo.rel_offset b < BlockInfo.rel_offset b' /\
     BlockInfo.rel_offset b + BlockInfo.size b <= BlockInfo.rel_offset b').

(** The files of a plan cover [bytes]. *)
Definition plan_ok (bytes fsm bsm : Z) (fs : list FileInfo.t) : Prop :=
  sum (map FileInfo.size fs) = bytes /\
  all_but_last fsm (map FileInfo.size fs) /\
  (forall i f, nth_error fs i = Some f ->
     FileInfo.offset f = Z.of_nat i * fsm /\
     0 < FileInfo.size f <= fsm /\
     FileInfo.end_ f = FileInfo.offset f + FileInfo.size f /\
     blocks_ok bsm f) /\
  (forall i f f', nth_error fs i = Some f -> nth_error fs (S i) = Some f' ->
     FileInfo.offset f' = FileInfo.offset f + FileInfo.size f) /\
  (forall i i' f f', (i < i')%nat ->
     nth_error fs i = Some f -> nth_error fs i' = Some f' ->
     FileInfo.offset f < FileInfo.offset f' /\
     FileInfo.offset f + FileInfo.size f <= FileInfo.offset f').


(** ** Error classification *)

(** Modelled from the spec: the enumeration [Error] of volumetester.hpp,
    which is not among the sources. The spec gives its members and says
    they combine as a bitmask, [Unknown] being the default; the bit each
    flag gets here is a choice of this file, and no proof looks at it. *)
Module Error.
Definition Unknown : Z := 0.
Definition Aborted : Z := 1.
Definition Full : Z := 2.
Definition Create : Z := 4.
Definition Permissions : Z := 8.
Definition Resize : Z := 16.
Definition Write : Z := 32.
Definition Verify : Z := 64.
End Error.

(** [has_flag e f]: the bits of [f] are all set in [e]. *)
Definition has_flag (e f : Z) : bool := Z.land e f =? f.

(** [QFileDevice::PermissionsError] of Qt. *)
Definition PermissionsError : Z := 13.

(** ** Signals and file operations

    The signals of the class, without the average speed that
    [initialized], [written] and [verified] also carry (a quotient of
    elapsed times). [failed None] is [failed()] called with no argument. *)

Inductive Signal : Type :=
| failed (e : option Z)
| finished
| succeeded
| initializationStarted (bytes : Z)
| initialized (pos : Z)
| createFailed (i : Z) (offset : Z)
| writeFailed (offset size : Z)
| verifyFailed (offset size : Z)
| writeStarted
| written (pos : Z)
| verifyStarted
| verified (pos : Z).

(** What the tester did to the outside, in order: the signals it emitted
    and the calls it made on its files, each with the answer it got. *)
Inductive Event : Type :=
| Emit (s : Signal)
| Open (path : string) (ok : bool) (err : Z)
| Seek (path : string) (pos : Z) (ok : bool)
| Write (path : string) (data : QByteArray) (n : Z)
| Resize (path : string) (size : Z) (ok : bool)
| PutChar (path : string) (c : Z) (ok : bool)
| GetChar (path : string) (c : option Z)
| Read (path : string) (n : Z) (data : QByteArray)
| Remove (path : string) (ok : bool)
| Fsync (path : string).

(** The environment of a tester: the storage information and directory
    listing of Qt, the files ([QFile] by path), the C random number
    generator, the listeners of the signals, and whether [cancel()] has
    been called on the tester from outside; and the two macros the source
    file takes from its header and from the build, [MB] and [USE_FSYNC]. *)
Class Env (D : Type) : Type := {
  storage_isValid : D -> string -> bool;
  storage_isReady : D -> string -> bool;
  storage_rootPath : D -> string -> string;
  storage_bytesAvailable : D -> string -> Z;
  dir_entryInfoList : D -> string -> list (string * bool);
  file_open : string -> D -> D * (bool * Z);
  file_seek : string -> Z -> D -> D * bool;
  file_write : string -> QByteArray -> D -> D * Z;
  file_resize : string -> Z -> D -> D * bool;
  file_putChar : string -> Z -> D -> D * bool;
  file_getChar : string -> D -> D * option Z;
  file_read : string -> Z -> D -> D * QByteArray;
  file_remove : string -> D -> D * bool;
  file_fsync : string -> D -> D;
  c_srand : D -> D;
  c_rand : D -> D * Z;
  listener : Signal -> D -> D;
  cancel_requested : D -> bool;
  MB : Z;
  USE_FSYNC : bool
}.

(** ** The tester *)

Record VolumeTester : Type := mkVolumeTester {
  block_size_max : Z;
  file_size_max : Z;
  file_prefix : string;
  bytes_total : Z;
  bytes_written : Z;
  bytes_remaining : Z;
  _canceled : bool;
  error_type : Z;
  _mountpoint : string;
  pattern : QByteArray;
  file_infos : list FileInfo.t
}.

Definition set_bytes (total written remaining : Z) (t : VolumeTester) :=
  mkVolumeTester (block_size_max t) (file_size_max t) (file_prefix t)
    total written remaining
    (_canceled t) (error_type t) (_mountpoint t) (pattern t) (file_infos t).

Definition set_canceled (c : bool) (t : VolumeTester) :=
  mkVolumeTester (block_size_max t) (file_size_max t) (file_prefix t)
    (bytes_total t) (bytes_written t) (bytes_remaining t)
    c (error_type t) (_mountpoint t) (pattern t) (file_infos t).

Definition set_error_type (e : Z) (t : VolumeTester) :=
  mkVolumeTester (block_size_max t) (file_size_max t) (file_prefix t)
    (bytes_total t) (bytes_written t) (bytes_remaining t)
    (_canceled t) e (_mountpoint t) (pattern t) (file_infos t).

Definition set_pattern (p : QByteArray) (t : VolumeTester) :=
  mkVolumeTester (block_size_max t) (file_size_max t) (file_prefix t)
    (bytes_total t) (bytes_written t) (bytes_remaining t)
    (_canceled t) (error_type t) (_mountpoint t) p (file_infos t).

Definition set_file_infos (l : list FileInfo.t) (t : VolumeTester) :=
  mkVolumeTester (block_size_max t) (file_size_max t) (file_prefix t)
    (bytes_total t) (bytes_written t) (bytes_remaining t)
    (_canceled t) (error_type t) (_mountpoint t) (pattern t) l.

(** [error_type |= f]. *)
Definition or_error (f : Z) (t : VolumeTester) : VolumeTester :=
  set_error_type (Z.lor (error_type t) f) t.

(** [VolumeTester::cancel]. *)
Definition cancel (t : VolumeTester) : VolumeTester :=
  set_canceled true (or_error Error.Aborted t).

(** [VolumeTester::abortRequested]. *)
Definition abortRequested (t : VolumeTester) : bool := _canceled t.

(** [VolumeTester::blockData]. *)
Definition blockData (t : VolumeTester) (file_index block_index : nat)
  : option QByteArray :=
  file_info <-? nth_error (file_infos t) file_index;
  block_info <-? nth_error (FileInfo.blocks file_info) block_index;
  let block := pattern t in
  _ <-? assert (negb (bsize block =? 0));
  let block :=
    if bsize block >? BlockInfo.size block_info
    then shrink (BlockInfo.size block_info) block else block in
  _ <-? assert (bsize block =? BlockInfo.size block_info);
  _ <-? assert (negb (bsize block =? 0));
  let block :=
    if BlockInfo.size block_info >=? bsize (BlockInfo.id block_info)
    then replace 0 (bsize (BlockInfo.id block_info))
           (BlockInfo.id block_info) block
    else block in
  _ <-? assert (bsize block =? BlockInfo.size block_info);
  Some block.

(** [QList::removeAt]. *)
Definition removeAt {A : Type} (i : nat) (l : list A) : list A :=
  firstn i l ++ skipn (S i) l.

(** ** Runs of the tester in an environment *)

Section Run.

Context {D : Type} {E : Env D}.

(** The state of the environment, what happened so far, and the
    tester's own fields. A [QFile] is known by its path: [files[i]] of
    the source is the file at the path of [file_infos[i]], which is how
    [start] makes the list, so the assertions that the two lists are of
    one length hold by construction. *)
Record World : Type := mkWorld {
  dev : D;
  trace : list Event;
  self : VolumeTester
}.

(** A step of the program: it aborts on a failed assertion ([None]) or
    yields a value and the next world. *)
Definition M (A : Type) : Type := World -> option (A * World).

Definition ret {A : Type} (a : A) : M A := fun w => Some (a, w).

Definition bind {A B : Type} (c : M A) (k : A -> M B) : M B :=
  fun w => match c w with
           | Some (a, w') => k a w'
           | None => None
           end.

Notation "x <- c ;; k" := (bind c (fun x => k))
  (at level 61, c at next level, right associativity).
Notation "c ;; k" := (bind c (fun _ => k))
  (at level 61, right associativity).

Definition gets {A : Type} (f : VolumeTester -> A) : M A :=
  fun w => Some (f (self w), w).

Definition modify (f : VolumeTester -> VolumeTester) : M unit :=
  fun w => Some (tt, mkWorld (dev w) (trace w) (f (self w))).

Definition check (b : bool) : M unit :=
  fun w => match assert b with Some _ => Some (tt, w) | None => None end.

Definition lift {A : Type} (o : option A) : M A :=
  fun w => match o with Some a => Some (a, w) | None => None end.

(** A question to the environment that changes nothing. *)
Definition query {A : Type} (f : D -> VolumeTester -> A) : M A :=
  fun w => Some (f (dev w) (self w), w).

(** A call of [cancel()] from outside reaches the tester while it is
    busy with the environment: in a file operation, or in the
    listeners of a signal. *)
Definition absorb (w : World) : World :=
  if cancel_requested (dev w)
  then mkWorld (dev w) (trace w) (cancel (self w))
  else w.

(** A call on a file. *)
Definition io {A : Type} (op : D -> D * A) (ev : A -> Event) : M A :=
  fun w => let (d, r) := op (dev w) in
           Some (r, absorb (mkWorld d (trace w ++ [ev r]) (self w))).

Definition emit (s : Signal) : M unit :=
  fun w => Some (tt, absorb (mkWorld (listener s (dev w))
                                     (trace w ++ [Emit s]) (self w))).

(** [fsync(file->handle())], compiled in under [USE_FSYNC]. *)
Definition fsync (path : string) : M unit :=
  if USE_FSYNC
  then io (fun d => (file_fsync path d, tt)) (fun _ => Fsync path)
  else ret tt.

Definition open (path : string) : M (bool * Z) :=
  io (file_open path) (fun r => Open path (fst r) (snd r)).
Definition seek (path : string) (pos : Z) : M bool :=
  io (file_seek path pos) (Seek path pos).
Definition write (path : string) (data : QByteArray) : M Z :=
  io (file_write path data) (Write path data).
Definition resize (path : string) (size : Z) : M bool :=
  io (file_resize path size) (Resize path size).
Definition putChar (path : string) (c : Z) : M bool :=
  io (file_putChar path c) (PutChar path c).
Definition getChar (path : string) : M (option Z) :=
  io (file_getChar path) (GetChar path).
Definition read (path : string) (n : Z) : M QByteArray :=
  io (file_read path n) (Read path n).
Definition remove (path : string) : M bool :=
  io (file_remove path) (Remove path).

(** [for (int i = ..., ii = n; i < ii; i++)] around a body that may
    [return false] out of the enclosing function: [n] rounds from [i],
    [true] when every round went through. *)
Fixpoint for_loop (n : nat) (i : nat) (body : nat -> M bool) : M bool :=
  match n with
  | O => ret true
  | S n' => b <- body i ;;
            if b then for_loop n' (S i) body else ret false
  end.

(** [if (!c) { onfail; return false; } k]. *)
Definition guard (c : M bool) (onfail : M unit) (k : M bool) : M bool :=
  b <- c ;; if b then k else (onfail ;; ret false).

(** *** Queries *)

(** [VolumeTester::isValid(mountpoint)]. *)
Definition isValid_at (d : D) (mountpoint : string) : bool :=
  if String.eqb mountpoint "" then false
  else if negb (storage_isValid d mountpoint)
          || negb (String.eqb (storage_rootPath d mountpoint) mountpoint)
  then false
  else if negb (storage_isReady d mountpoint) then false
  else true.

(** [VolumeTester::VolumeTester]. *)
Definition VolumeTester_new (d : D) (mountpoint : string) : VolumeTester :=
  mkVolumeTester (16 * MB) (512 * MB) "CAPACITYTESTER" 0 0 0 false
    Error.Unknown
    (if isValid_at d mountpoint then mountpoint else "")
    [] [].

Definition mountpoint (t : VolumeTester) : string := _mountpoint t.

Definition isValid (d : D) (t : VolumeTester) : bool :=
  isValid_at d (mountpoint t).

(** [VolumeTester::bytesAvailable]. *)
Definition bytesAvailable (d : D) (t : VolumeTester) : Z :=
  if storage_isValid d (mountpoint t) && storage_isReady d (mountpoint t)
  then storage_bytesAvailable d (mountpoint t)
  else 0.

(** [VolumeTester::entryInfoList]. *)
Definition entryInfoList (d : D) (t : VolumeTester) : list (string * bool) :=
  if negb (isValid d t) then []
  else dir_entryInfoList d (mountpoint t).

(** [VolumeTester::rootFiles]. *)
Definition rootFiles (d : D) (t : VolumeTester) : list string :=
  map (fun fi : string * bool =>
         if snd fi then (fst fi ++ "/")%string else fst fi)
      (entryInfoList d t).

(** [VolumeTester::conflictFiles]. *)
Definition conflictFiles (d : D) (t : VolumeTester) : option (list string) :=
  _ <-? assert (negb (String.eqb (file_prefix t) ""));
  Some (filter (fun name => startsWith name (file_prefix t)) (rootFiles d t)).

(** *** The test pattern *)

(** The loop of [generateTestPattern]: [n] random bytes. *)
Fixpoint rand_bytes (n : nat) (d : D) : D * QByteArray :=
  match n with
  | O => (d, [])
  | S n' =>
      let (d1, r) := c_rand d in
      let byte := to_uchar (to_int (Z.rem r 254 + 1)) in
      let (d2, rest) := rand_bytes n' d1 in
      (d2, byte :: rest)
  end.

(** [srand(time(0))] and [n] random bytes. *)
Definition random (n : nat) : M QByteArray :=
  fun w => let (d, bytes) := rand_bytes n (c_srand (dev w)) in
           Some (bytes, mkWorld d (trace w) (self w)).

(** [VolumeTester::generateTestPattern]. *)
Definition generateTestPattern : M unit :=
  bsm <- gets block_size_max ;;
  let pattern_size := to_int bsm in
  check (0 <? pattern_size) ;;
  new_pattern <- random (Z.to_nat pattern_size) ;;
  modify (set_pattern new_pattern) ;;
  p <- gets pattern ;;
  check (bsize p =? pattern_size).

(** *** Initialization *)

Definition byte_fe : Z := 254.

Definition file_at (i : nat) : M FileInfo.t :=
  l <- gets file_infos ;; lift (nth_error l i).

Definition create_failed (i : nat) (fi : FileInfo.t) (err : Z) : M unit :=
  modify (or_error Error.Create) ;;
  (if negb (Z.land err PermissionsError =? 0)
   then modify (or_error Error.Permissions) else ret tt) ;;
  emit (createFailed (Z.of_nat i) (FileInfo.offset fi)).

Definition write_failed (offset size : Z) : M unit :=
  modify (or_error Error.Write) ;;
  emit (writeFailed offset size).

Definition resize_failed (offset size : Z) : M unit :=
  modify (or_error Error.Write) ;;
  modify (or_error Error.Resize) ;;
  emit (writeFailed offset size).

Definition verify_failed (offset size : Z) : M unit :=
  modify (or_error Error.Verify) ;;
  emit (verifyFailed offset size).

(** [file->write(data) == n]. *)
Definition write_all (path : string) (data : QByteArray) (n : Z) : M bool :=
  r <- write path data ;; ret (r =? n).

(** [file->getChar(&c) && (uchar)c == byte]. *)
Definition getChar_is (path : string) (byte : Z) : M bool :=
  c <- getChar path ;;
  ret (match c with Some c => to_uchar c =? byte | None => false end).

(** [file->read(n) == data]. *)
Definition read_is (path : string) (n : Z) (data : QByteArray) : M bool :=
  r <- read path n ;; ret (bytes_eqb r data).

(** The quick test of one file: its last byte and its id. *)
Definition quick_test (fi : FileInfo.t) : M bool :=
  let path := FileInfo.path fi in
  let vfail := verify_failed (FileInfo.offset fi) (FileInfo.size fi) in
  guard (seek path (FileInfo.size fi - 1)) vfail (
  guard (getChar_is path byte_fe) vfail (
  guard (seek path 0) vfail (
  guard (read_is path (bsize (FileInfo.id fi)) (FileInfo.id fi)) vfail (
  c <- gets abortRequested ;; ret (negb c))))).

(** One round of the first loop of [initialize]. *)
Definition initFile (i : nat) : M bool :=
  fi <- file_at i ;;
  let path := FileInfo.path fi in
  let wfail := write_failed (FileInfo.offset fi) (FileInfo.size fi) in
  r <- open path ;;
  if negb (fst r) then create_failed i fi (snd r) ;; ret false
  else
  guard (seek path 0) wfail (
  guard (write_all path (FileInfo.id fi) (bsize (FileInfo.id fi))) wfail (
  guard (resize path (FileInfo.size fi))
        (resize_failed (FileInfo.offset fi) (FileInfo.size fi)) (
  guard (seek path (FileInfo.size fi - 1)) wfail (
  guard (putChar path byte_fe) wfail (
  emit (initialized (FileInfo.end_ fi)) ;;
  quick_test fi))))).

(** One round of the second loop of [initialize]. *)
Definition recheckFile (i : nat) : M bool :=
  fi <- file_at i ;; quick_test fi.

(** [VolumeTester::initialize]. *)
Definition initialize : M bool :=
  total <- gets bytes_total ;;
  emit (initializationStarted total) ;;
  ii <- gets (fun t => length (file_infos t)) ;;
  ok <- for_loop ii 0 initFile ;;
  if ok then for_loop ii 0 recheckFile else ret false.

(** *** Full write *)

(** [blockData(i, j)] on the tester as it is now. *)
Definition block_data (i j : nat) : M QByteArray :=
  o <- gets (fun t => blockData t i j) ;; lift o.

(** One round of the loop over the blocks in [writeFull]; [fi] is the
    copy of [file_infos[i]] taken when the file's turn began. *)
Definition writeBlock (i : nat) (fi : FileInfo.t) (j : nat) : M bool :=
  block_info <- lift (nth_error (FileInfo.blocks fi) j) ;;
  block <- block_data i j ;;
  let path := FileInfo.path fi in
  let wfail := write_failed (BlockInfo.abs_offset block_info)
                            (BlockInfo.size block_info) in
  guard (seek path (BlockInfo.rel_offset block_info)) wfail (
  guard (write_all path block (BlockInfo.size block_info)) wfail (
  fsync path ;;
  emit (written (BlockInfo.abs_end block_info)) ;;
  c <- gets abortRequested ;; ret (negb c))).

(** One round of the loop over the files in [writeFull]. *)
Definition writeFile (i : nat) : M bool :=
  fi <- file_at i ;;
  fsync (FileInfo.path fi) ;;
  for_loop (length (FileInfo.blocks fi)) 0 (writeBlock i fi).

(** [VolumeTester::writeFull]. *)
Definition writeFull : M bool :=
  emit writeStarted ;;
  ii <- gets (fun t => length (file_infos t)) ;;
  for_loop ii 0 writeFile.

(** *** Full verification *)

Definition verifyBlock (i : nat) (fi : FileInfo.t) (j : nat) : M bool :=
  block_info <- lift (nth_error (FileInfo.blocks fi) j) ;;
  block <- block_data i j ;;
  let path := FileInfo.path fi in
  let vfail := verify_failed (BlockInfo.abs_offset block_info)
                             (BlockInfo.size block_info) in
  guard (seek path (BlockInfo.rel_offset block_info)) vfail (
  guard (read_is path (BlockInfo.size block_info) block) vfail (
  emit (verified (BlockInfo.abs_end block_info)) ;;
  c <- gets abortRequested ;; ret (negb c))).

Definition verifyFile (i : nat) : M bool :=
  fi <- file_at i ;;
  fsync (FileInfo.path fi) ;;
  for_loop (length (FileInfo.blocks fi)) 0 (verifyBlock i fi).

(** [VolumeTester::verifyFull]. *)
Definition verifyFull : M bool :=
  emit verifyStarted ;;
  ii <- gets (fun t => length (file_infos t)) ;;
  for_loop ii 0 verifyFile.

(** *** Cleanup *)

(** The loop of [deleteFiles], from index [i - 1] down to 0. *)
Fixpoint deleteFiles_from (i : nat) : M unit :=
  match i with
  | O => ret tt
  | S i' =>
      fi <- file_at i' ;;
      remove (FileInfo.path fi) ;;
      modify (fun t => set_file_infos (removeAt i' (file_infos t)) t) ;;
      deleteFiles_from i'
  end.

(** [VolumeTester::deleteFiles]. *)
Definition deleteFiles : M unit :=
  n <- gets (fun t => length (file_infos t)) ;;
  deleteFiles_from n ;;
  l <- gets file_infos ;;
  check (match l with [] => true | _ => false end).

(** *** A test *)

(** "Calculate file and block sizes" in [start], on the tester's fields. *)
Definition make_plan : M unit :=
  fsm <- gets file_size_max ;;
  bsm <- gets block_size_max ;;
  total <- gets bytes_total ;;
  prefix <- gets file_prefix ;;
  dir <- gets mountpoint ;;
  modify (set_file_infos []) ;;
  plan <- lift (plan_files fsm bsm prefix dir total) ;;
  modify (set_file_infos plan).

(** [start] up to the files' objects: [false] when it has returned
    early, [true] when the tests are to run. *)
Definition start_setup : M bool :=
  valid <- query isValid ;;
  if negb valid then emit (failed None) ;; emit finished ;; ret false
  else
  bsm <- gets block_size_max ;;
  fsm <- gets file_size_max ;;
  check ((0 <? bsm) && (Z.rem bsm MB =? 0)) ;;
  check ((0 <? fsm) && (Z.rem fsm MB =? 0)) ;;
  check (bsm <? fsm) ;;
  avail <- query bytesAvailable ;;
  modify (set_bytes avail 0 avail) ;;
  if avail <=? 0
  then emit (failed (Some Error.Full)) ;; emit finished ;; ret false
  else
  generateTestPattern ;;
  p <- gets pattern ;;
  check (bsize p =? bsm) ;;
  make_plan ;;
  ret true.

(** [initialize(files) && writeFull(files) && verifyFull(files)]. *)
Definition run_tests : M bool :=
  i <- initialize ;;
  if i then (wr <- writeFull ;; if wr then verifyFull else ret false)
  else ret false.

(** The signals at the end of [start]. *)
Definition report (ok : bool) : M unit :=
  if ok then emit succeeded ;; emit finished
  else e <- gets error_type ;; emit (failed (Some e)) ;; emit finished.

(** "Run tests" in [start], and [deleteFiles], which runs when
    [files_parent] goes out of scope at the end of the function. *)
Definition run_and_cleanup : M unit :=
  ok <- run_tests ;; report ok ;; deleteFiles.

(** [VolumeTester::start]. *)
Definition start : M unit :=
  go <- start_setup ;;
  if go then run_and_cleanup else ret tt.

(** *** Where the writer stands

    The writer's run up to block [k] of file [f], that block not
    included: [true] when it got there. *)
Definition writer_until (f k : nat) : M bool :=
  emit writeStarted ;;
  ok <- for_loop f 0 writeFile ;;
  if ok then
    fi <- file_at f ;;
    fsync (FileInfo.path fi) ;;
    for_loop k 0 (writeBlock f fi)
  else ret false.

End Run.

Arguments World D : clear implicits.
Arguments M D A : clear implicits.

(** ** A volume in memory

    An environment to run the tester in: one mounted volume whose root
    directory holds files, each file a list of bytes. The volume may hold
    less than it claims: it takes [room] bytes more, and the write that
    runs out of room is cut short. A listener counts the
    [written] signals and calls [cancel()] once it has seen
    [cancel_after] of them. The build that runs on it has an [MB] of four
    bytes, which keeps its runs short. *)

Module Mem.

Record t : Type := mk {
  mount : string;
  ready : bool;
  avail : Z;
  files : list (string * QByteArray);
  pos : list (string * Z);
  room : Z;
  removable : bool;
  seed : Z;
  seen : nat;
  cancel_after : option nat
}.

Fixpoint lookup {A : Type} (k : string) (l : list (string * A)) : option A :=
  match l with
  | [] => None
  | (k', v) :: l' => if String.eqb k k' then Some v else lookup k l'
  end.

Fixpoint update {A : Type} (k : string) (v : A) (l : list (string * A))
  : list (string * A) :=
  match l with
  | [] => [(k, v)]
  | (k', v') :: l' =>
      if String.eqb k k' then (k, v) :: l' else (k', v') :: update k v l'
  end.

Fixpoint delete {A : Type} (k : string) (l : list (string * A))
  : list (string * A) :=
  match l with
  | [] => []
  | (k', v') :: l' =>
      if String.eqb k k' then l' else (k', v') :: delete k l'
  end.

Definition with_files (fs : list (string * QByteArray)) (d : t) : t :=
  mk (mount d) (ready d) (avail d) fs (pos d) (room d) (removable d)
     (seed d) (seen d) (cancel_after d).

Definition with_pos (p : list (string * Z)) (d : t) : t :=
  mk (mount d) (ready d) (avail d) (files d) p (room d) (removable d)
     (seed d) (seen d) (cancel_after d).

Definition with_seed (s : Z) (d : t) : t :=
  mk (mount d) (ready d) (avail d) (files d) (pos d) (room d)
     (removable d) s (seen d) (cancel_after d).

Definition with_seen (n : nat) (d : t) : t :=
  mk (mount d) (ready d) (avail d) (files d) (pos d) (room d)
     (removable d) (seed d) n (cancel_after d).

Definition with_room (r : Z) (d : t) : t :=
  mk (mount d) (ready d) (avail d) (files d) (pos d) r
     (removable d) (seed d) (seen d) (cancel_after d).

(** The name of [path] in the directory [dir], when it lies there. *)
Fixpoint strip (dir path : string) : option string :=
  match dir, path with
  | EmptyString, String "/" name => Some name
  | String a dir', String b path' =>
      if Ascii.eqb a b then strip dir' path' else None
  | _, _ => None
  end.

Definition entries (d : t) (m : string) : list (string * bool) :=
  flat_map (fun f : string * QByteArray =>
              match strip (if String.eqb m "/" then "" else m) (fst f) with
              | Some name => [(name, false)]
              | None => []
              end) (files d).

Definition open (path : string) (d : t) : t * (bool * Z) :=
  let fs := match lookup path (files d) with
            | Some _ => files d
            | None => files d ++ [(path, [])]
            end in
  (with_pos (update path 0 (pos d)) (with_files fs d), (true, 0)).

Definition seek (path : string) (p : Z) (d : t) : t * bool :=
  match lookup path (pos d) with
  | Some _ => if 0 <=? p then (with_pos (update path p (pos d)) d, true)
              else (d, false)
  | None => (d, false)
  end.

(** [data] laid over [content] from position [p] on. *)
Definition overlay (p : nat) (data content : QByteArray) : QByteArray :=
  firstn p content ++ repeat 0 (p - length content) ++ data
    ++ skipn (p + length data) content.

Definition write (path : string) (data : QByteArray) (d : t) : t * Z :=
  match lookup path (pos d), lookup path (files d) with
  | Some p, Some content =>
      let n := Z.min (bsize data) (Z.max 0 (room d)) in
      let stored := firstn (Z.to_nat n) data in
      (with_room (room d - n)
         (with_pos (update path (p + n) (pos d))
            (with_files (update path (overlay (Z.to_nat p) stored content)
                           (files d)) d)), n)
  | _, _ => (d, -1)
  end.

Definition resize (path : string) (size : Z) (d : t) : t * bool :=
  match lookup path (files d) with
  | Some content =>
      let n := Z.to_nat size in
      (with_files (update path (firstn n content
                                  ++ repeat 0 (n - length content))
                     (files d)) d, 0 <=? size)
  | None => (d, false)
  end.

Definition putChar (path : string) (c : Z) (d : t) : t * bool :=
  let (d', n) := write path [c] d in (d', n =? 1).

Definition getChar (path : string) (d : t) : t * option Z :=
  match lookup path (pos d), lookup path (files d) with
  | Some p, Some content =>
      match nth_error content (Z.to_nat p) with
      | Some c => (with_pos (update path (p + 1) (pos d)) d, Some c)
      | None => (d, None)
      end
  | _, _ => (d, None)
  end.

Definition read (path : string) (n : Z) (d : t) : t * QByteArray :=
  match lookup path (pos d), lookup path (files d) with
  | Some p, Some content =>
      let data := firstn (Z.to_nat n) (skipn (Z.to_nat p) content) in
      (with_pos (update path (p + bsize data) (pos d)) d, data)
  | _, _ => (d, [])
  end.

Definition remove (path : string) (d : t) : t * bool :=
  match lookup path (files d) with
  | Some _ =>
      if removable d then (with_files (delete path (files d)) d, true)
      else (d, false)
  | None => (d, false)
  end.

Definition rand (d : t) : t * Z :=
  let s := (seed d * 1103515245 + 12345) mod 2147483648 in
  (with_seed s d, s).

Definition listener (s : Signal) (d : t) : t :=
  match s with
  | written _ => with_seen (S (seen d)) d
  | _ => d
  end.

Definition cancel_requested (d : t) : bool :=
  match cancel_after d with
  | Some n => (n <=? seen d)%nat
  | None => false
  end.

End Mem.

#[export] Instance MemEnv : Env Mem.t := {
  storage_isValid d m := String.eqb m (Mem.mount d);
  storage_isReady d m := Mem.ready d;
  storage_rootPath d m := Mem.mount d;
  storage_bytesAvailable d m := Mem.avail d;
  dir_entryInfoList := Mem.entries;
  file_open := Mem.open;
  file_seek := Mem.seek;
  file_write := Mem.write;
  file_resize := Mem.resize;
  file_putChar := Mem.putChar;
  file_getChar := Mem.getChar;
  file_read := Mem.read;
  file_remove := Mem.remove;
  file_fsync path d := d;
  c_srand d := d;
  c_rand := Mem.rand;
  listener := Mem.listener;
  cancel_requested := Mem.cancel_requested;
  MB := 4;
  USE_FSYNC := true
}.

(** A tester with blocks and files of the given sizes, to run on a volume
    in memory. *)
Definition small_tester (bsm fsm : Z) (mountpoint : string) : VolumeTester :=
  mkVolumeTester bsm fsm "CAPACITYTESTER" 0 0 0 false Error.Unknown
    mountpoint [] [].

Definition volume (avail room : Z) (fs : list (string * QByteArray))
  (cancel_after : option nat) : Mem.t :=
  Mem.mk "/mnt" true avail fs [] room true 42 0 cancel_after.

Definition world0 (d : Mem.t) (t : VolumeTester) : World Mem.t :=
  mkWorld d [] t.


(** The events of a run, when it did not abort. *)
Definition events {D : Type} {A : Type} (r : option (A * World D))
  : option (list Event) :=
  match r with Some (_, w) => Some (trace w) | None => None end.

(** The world a run ends in; the world it began in when it aborted. *)
Definition after {D : Type} {A : Type} (c : M D A) (w : World D) : World D :=
  match c w with Some (_, w') => w' | None => w end.

(** *** Sample runs

    A volume of 21 bytes for a tester with blocks of 4 and files of 8
    bytes: three files, the last of 5 bytes with a last block of 1 byte. *)

Definition sample_tester : VolumeTester := small_tester 4 8 "/mnt".

Definition sample_start : World Mem.t :=
  world0 (volume 21 1000 [] None) sample_tester.

(** The sample after [start] has made its plan. *)
Definition sample_planned : World Mem.t := after start_setup sample_start.

Definition sample_file (i : nat) : FileInfo.t :=
  nth i (file_infos (self sample_planned)) (FileInfo.mk "" 0 0 0 [] []).

Definition sample_file0 : FileInfo.t := Eval vm_compute in sample_file 0.

Definition sample_file2 : FileInfo.t := Eval vm_compute in sample_file 2.

(** A world in which the first file of the sample is open and ends in
    the byte 255. *)
Definition sample_255 : World Mem.t :=
  mkWorld
    (Mem.mk "/mnt" true 21
       [("/mnt/CAPACITYTESTER0"%string, [48; 1; 0; 0; 0; 0; 0; 255])]
       [("/mnt/CAPACITYTESTER0"%string, 0)] 1000 true 42 0 None)
    [] (self sample_planned).

Definition sample_block01 : BlockInfo.t :=
  Eval vm_compute in nth 1 (FileInfo.blocks sample_file0)
                         (BlockInfo.mk 0 0 0 0 []).

Definition sample_block21 : BlockInfo.t :=
  Eval vm_compute in nth 1 (FileInfo.blocks sample_file2)
                         (BlockInfo.mk 0 0 0 0 []).

(** The sample after its initialization, and after its write phase. *)
Definition sample_inited : World Mem.t := after initialize sample_planned.

Definition sample_written : World Mem.t := after writeFull sample_inited.

(** The same volume when it takes 15 bytes only: the initialization of
    the three files takes 9 of them, the first block 4, and the write of
    the second block is cut short. [short_inited] is the world after the
    initialization, [short_at_block] the world before the second block. *)
Definition short_inited : World Mem.t :=
  after initialize
    (after start_setup (world0 (volume 21 15 [] None) sample_tester)).

Definition short_at_block : World Mem.t :=
  after (writer_until 0 1) short_inited.

(** The same volume with a listener that cancels at the second
    [written] signal. *)
Definition cancel_start : World Mem.t :=
  world0 (volume 21 1000 [] (Some 2%nat)) sample_tester.

Definition cancel_planned : World Mem.t := after start_setup cancel_start.

Definition cancel_inited : World Mem.t := after initialize cancel_planned.

Definition cancel_at_block : World Mem.t :=
  after (writer_until 0 1) cancel_inited.

Definition cancel_after_block : World Mem.t :=
  after (writeBlock 0 sample_file0 1) cancel_at_block.

(** A full volume, and a tester whose volume is mounted elsewhere. *)
Definition full_start : World Mem.t :=
  world0 (volume 0 1000 [] None) sample_tester.

Definition unmounted_start : World Mem.t :=
  world0 (volume 21 1000 [] None) (small_tester 4 8 "/media/stick").

(** The sample volume with a file left by an earlier test, and the
    sample volume when it refuses to remove files. *)
Definition leftover_start : World Mem.t :=
  world0 (volume 21 1000 [("/mnt/CAPACITYTESTER.bak"%string, [1; 2; 3])] None)
         sample_tester.

Definition clash_start : World Mem.t :=
  world0 (volume 21 1000 [("/mnt/CAPACITYTESTER0"%string, [1; 2; 3])] None)
         sample_tester.

Definition sticky_start : World Mem.t :=
  world0 (Mem.mk "/mnt" true 21 [] [] 1000 false 42 0 None) sample_tester.

(** The volume that refuses removals, with the listener that cancels at
    the second [written] signal; and the test on it when the writer has
    come to the second block of the first file. *)
Definition sticky_cancel_start : World Mem.t :=
  world0 (Mem.mk "/mnt" true 21 [] [] 1000 false 42 0 (Some 2%nat))
         sample_tester.

Definition sticky_cancel_at_block : World Mem.t :=
  after (writer_until 0 1)
        (after initialize (after start_setup sticky_cancel_start)).

(** ** What a run leaves alone *)

(** The configuration, the pattern and the plan are the same in [t']
    as in [t]. *)
Definition stable (t t' : VolumeTester) : Prop :=
  block_size_max t' = block_size_max t /\
  file_size_max t' = file_size_max t /\
  file_prefix t' = file_prefix t /\
  _mountpoint t' = _mountpoint t /\
  bytes_total t' = bytes_total t /\
  pattern t' = pattern t /\
  file_infos t' = file_infos t.

(** A canceled tester carries the [Aborted] flag. *)
Definition cinv (t : VolumeTester) : Prop :=
  _canceled t = true -> has_flag (error_type t) Error.Aborted = true.

(** The paths of the files a stretch of events created. *)
Definition created (l : list Event) : list string :=
  flat_map (fun e => match e with
                     | Open p true _ => [p]
                     | _ => []
                     end) l.

(** The blocks a stretch of events wrote or tried to write. *)
Definition writes (l : list Event) : list (string * QByteArray) :=
  flat_map (fun e => match e with
                     | Write p data _ => [(p, data)]
                     | _ => []
                     end) l.

Definition paths (l : list FileInfo.t) : list string := map FileInfo.path l.

Section Steps.

Context {D : Type} {E : Env D}.

(** [w'] comes after [w] in a run that touched neither the plan nor the
    pattern, and whose events satisfy [P]. *)
Definition ext (P : list Event -> Prop) (w w' : World D) : Prop :=
  stable (self w) (self w') /\
  (cinv (self w) -> cinv (self w')) /\
  exists delta, trace w' = trace w ++ delta /\ P delta.

(** Such a run that created no file. *)
Definition quiet (w w' : World D) : Prop :=
  ext (fun delta => created delta = []) w w'.

(** Every run of [c] that does not abort relates its ends by [R]. *)
Definition pc {A : Type} (c : M D A) (R : World D -> World D -> Prop) : Prop :=
  forall w a w', c w = Some (a, w') -> R w w'.

End Steps.

(** * Facts *)

(** ** Machine integers *)

Lemma to_int_small x : - 2147483648 <= x <= 2147483647 -> to_int x = x.
Proof.
  unfold to_int, wrap. intros H.
  change (2 ^ (32 - 1)) with 2147483648.
  change (2 ^ 32) with 4294967296.
  rewrite Z.mod_small; lia.
Qed.

Lemma to_qint64_small x :
  - 9223372036854775808 <= x <= 9223372036854775807 -> to_qint64 x = x.
Proof.
  unfold to_qint64, wrap. intros H.
  change (2 ^ (64 - 1)) with 9223372036854775808.
  change (2 ^ 64) with 18446744073709551616.
  rewrite Z.mod_small; lia.
Qed.

Lemma INT_MAX_eq : INT_MAX = 2147483647.
Proof. reflexivity. Qed.

Lemma INT64_MAX_eq : INT64_MAX = 9223372036854775807.
Proof. reflexivity. Qed.

Lemma bytes_eqb_eq a : forall b, bytes_eqb a b = true <-> a = b.
Proof.
  induction a as [|x a IH]; intros [|y b]; simpl; split; intros H;
    try discriminate; try reflexivity.
  - apply andb_true_iff in H. destruct H as [H1 H2].
    apply Z.eqb_eq in H1. apply IH in H2. congruence.
  - inversion H; subst. rewrite Z.eqb_refl. simpl. now apply IH.
Qed.

(** ** Loops that collect *)

Lemma zseq_length j n : length (zseq j n) = n.
Proof. revert j. induction n; intros; simpl; auto. Qed.

Lemma zseq_snoc n : forall j, zseq j (S n) = zseq j n ++ [j + Z.of_nat n].
Proof.
  induction n as [|n IH]; intros j.
  - simpl. f_equal. lia.
  - change (zseq j (S (S n))) with (j :: zseq (j + 1) (S n)).
    rewrite IH. simpl. do 3 f_equal. lia.
Qed.

Lemma zseq_nth_error n : forall j k,
  (k < n)%nat -> nth_error (zseq j n) k = Some (j + Z.of_nat k).
Proof.
  induction n as [|n IH]; intros j k Hk; [lia|].
  destruct k as [|k]; simpl.
  - f_equal. lia.
  - rewrite IH by lia. f_equal. lia.
Qed.

Lemma collect_map {A : Type} (g : Z -> A) (body : Z -> option A) n :
  forall j,
    (forall k, j <= k < j + Z.of_nat n -> body k = Some (g k)) ->
    collect n j body = Some (map g (zseq j n)).
Proof.
  induction n as [|n IH]; intros j H; simpl; [reflexivity|].
  rewrite H by lia. rewrite IH; [reflexivity|].
  intros k Hk. apply H. lia.
Qed.

Lemma nth_error_map_zseq {A : Type} (g : Z -> A) n j k x :
  nth_error (map g (zseq j n)) k = Some x ->
  (k < n)%nat /\ x = g (j + Z.of_nat k).
Proof.
  intros H.
  assert (Hk : (k < n)%nat).
  { rewrite <- (zseq_length j n), <- (length_map g).
    apply nth_error_Some. congruence. }
  split; [exact Hk|].
  rewrite nth_error_map, zseq_nth_error in H by exact Hk.
  simpl in H. congruence.
Qed.

(** ** Cutting a size into parts *)

Lemma sum_app l1 l2 : sum (l1 ++ l2) = sum l1 + sum l2.
Proof. induction l1; simpl; lia. Qed.

Lemma sum_map_const (f : Z -> Z) c n : forall j,
  (forall k, j <= k < j + Z.of_nat n -> f k = c) ->
  sum (map f (zseq j n)) = Z.of_nat n * c.
Proof.
  induction n as [|n IH]; intros j H; [reflexivity|].
  cbn [zseq map sum fold_right]. fold (sum (map f (zseq (j + 1) n))).
  rewrite H by lia. rewrite IH by (intros; apply H; lia). lia.
Qed.

Section Parts.

Variables total m : Z.
Hypothesis m_pos : 0 < m.
Hypothesis total_pos : 0 < total.

Let q := total / m.
Let r := total mod m.

Lemma parts_div : total = m * q + r /\ 0 <= r < m /\ 0 <= q.
Proof.
  unfold q, r. split; [apply Z.div_mod; lia|].
  split; [apply Z.mod_pos_bound; lia|].
  apply Z.div_pos; lia.
Qed.

Lemma part_count_pos : 0 < part_count total m.
Proof.
  pose proof parts_div as (H1 & H2 & H3).
  unfold part_count. fold q r.
  destruct (r =? 0) eqn:Er; [apply Z.eqb_eq in Er | apply Z.eqb_neq in Er].
  - assert (q <> 0) by (intros ->; lia). lia.
  - lia.
Qed.

Lemma part_size_range i : 0 < part_size total m i <= m.
Proof.
  pose proof parts_div as (H1 & H2 & H3).
  unfold part_size. fold r.
  destruct (r =? 0) eqn:Er; [apply Z.eqb_eq in Er | apply Z.eqb_neq in Er];
    rewrite ?andb_false_r, ?andb_true_r; simpl; [lia|].
  destruct (i =? part_count total m - 1); lia.
Qed.

Lemma part_size_inner i :
  0 <= i < part_count total m - 1 -> part_size total m i = m.
Proof.
  intros H. unfold part_size.
  replace (i =? part_count total m - 1) with false
    by (symmetry; apply Z.eqb_neq; lia).
  reflexivity.
Qed.

Lemma part_end i :
  0 <= i < part_count total m -> i * m + part_size total m i <= total.
Proof.
  pose proof parts_div as (H1 & H2 & H3).
  intros Hi. unfold part_size, part_count in *. fold q r in Hi |- *.
  destruct (r =? 0) eqn:Er; [apply Z.eqb_eq in Er | apply Z.eqb_neq in Er];
    rewrite ?andb_false_r, ?andb_true_r; simpl.
  - nia.
  - destruct (i =? q + 1 - 1) eqn:Ei;
      [apply Z.eqb_eq in Ei | apply Z.eqb_neq in Ei]; nia.
Qed.

Lemma parts_sum :
  sum (map (part_size total m) (zseq 0 (Z.to_nat (part_count total m))))
  = total.
Proof.
  pose proof parts_div as (H1 & H2 & H3).
  pose proof part_count_pos as Hc.
  destruct (r =? 0) eqn:Er.
  - apply Z.eqb_eq in Er.
    rewrite (sum_map_const _ m).
    + unfold part_count. fold q r. rewrite Er. simpl. nia.
    + intros k Hk. unfold part_size. fold r. rewrite Er.
      simpl. now rewrite andb_false_r.
  - assert (Hq : Z.to_nat (part_count total m) = S (Z.to_nat q)).
    { unfold part_count. fold q r. rewrite Er. lia. }
    rewrite Hq, zseq_snoc, map_app, sum_app.
    rewrite (sum_map_const _ m).
    + cbn [map sum fold_right]. unfold part_size, part_count.
      fold q r. rewrite Er.
      replace (0 + Z.of_nat (Z.to_nat q) =? q + 1 - 1) with true
        by (symmetry; apply Z.eqb_eq; lia).
      simpl. nia.
    + intros k Hk. apply part_size_inner.
      unfold part_count. fold q r. rewrite Er. lia.
Qed.

End Parts.


(** ** The planner *)

Section PlanFacts.

Variables fsm bsm : Z.
Variables prefix dir : string.
Hypothesis bsm_pos : 0 < bsm.
Hypothesis bsm_lt : bsm < fsm.
Hypothesis fsm_int : fsm <= INT_MAX.

(** Block [j] of a file of [size] bytes at [foff], and file [i] of a
    volume of [bytes] bytes, as the plan should have them. *)
Definition the_block (i foff size j : Z) : BlockInfo.t :=
  BlockInfo.mk (j * bsm) (foff + j * bsm) (part_size size bsm j)
    (foff + (j * bsm + part_size size bsm j)) (block_id i j).

Definition the_file (bytes i : Z) : FileInfo.t :=
  let size := part_size bytes fsm i in
  FileInfo.mk (absoluteFilePath dir (prefix ++ number i)) (i * fsm) size
    (i * fsm + size) (file_id i)
    (map (the_block i (i * fsm) size)
         (zseq 0 (Z.to_nat (part_count size bsm)))).

Lemma part_count_int total m :
  0 < m -> 0 < total -> total <= INT_MAX * m -> m <= INT_MAX ->
  to_int (total / m) = total / m /\
  to_int (total mod m) = total mod m.
Proof.
  intros Hm Ht Hle Hi.
  pose proof INT_MAX_eq as HM.
  pose proof (parts_div total m Hm Ht) as (H1 & H2 & H3).
  split; apply to_int_small; split; try lia.
  assert (total / m < 2147483647 + 1); [|lia].
  apply Z.div_lt_upper_bound; lia.
Qed.

(** The count the code computes, in [int]s, is the number of parts. *)
Lemma count_code total m :
  0 < m -> m <= INT_MAX -> 0 < total -> total <= INT_MAX * m ->
  to_int (Z.rem total m) = total mod m /\
  (if negb (to_int (Z.rem total m) =? 0)
   then to_int (to_int (Z.quot total m) + 1)
   else to_int (Z.quot total m)) = part_count total m /\
  0 < part_count total m <= INT_MAX.
Proof.
  intros Hm Hmi Ht Hle.
  pose proof INT_MAX_eq as HM.
  rewrite Z.rem_mod_nonneg, Z.quot_div_nonneg by lia.
  pose proof (parts_div total m Hm Ht) as (H1 & H2 & H3).
  pose proof (part_count_pos total m Hm Ht) as Hc.
  destruct (part_count_int total m Hm Ht Hle Hmi) as [Hq Hr].
  rewrite Hq, Hr. split; [reflexivity|].
  unfold part_count in *.
  destruct (total mod m =? 0) eqn:Er; simpl;
    [apply Z.eqb_eq in Er | apply Z.eqb_neq in Er].
  - split; [lia|].
    assert (total / m < 2147483647 + 1); [|lia].
    apply Z.div_lt_upper_bound; lia.
  - assert (Hlt : total / m < 2147483647).
    { apply Z.div_lt_upper_bound; [lia|].
      assert (total <> 2147483647 * m); [|lia].
      intros Heq. apply Er. rewrite Heq. apply Z.mod_mul. lia. }
    rewrite to_int_small by lia. lia.
Qed.

Lemma plan_block_eq i foff size j :
  0 < size -> size <= INT_MAX * bsm ->
  0 <= foff -> foff + size <= INT64_MAX ->
  0 <= j < part_count size bsm ->
  plan_block bsm i foff (part_count size bsm) (size mod bsm) j
  = Some (the_block i foff size j).
Proof.
  intros Hs Hsi Hf Hfe Hj.
  pose proof INT_MAX_eq as HM. pose proof INT64_MAX_eq as HM64.
  assert (Hb : bsm <= INT_MAX) by lia.
  pose proof (count_code size bsm bsm_pos Hb Hs Hsi) as (_ & _ & Hc).
  pose proof (part_size_range size bsm bsm_pos Hs j) as Hp.
  pose proof (part_end size bsm bsm_pos Hs j Hj) as He.
  unfold plan_block, the_block.
  rewrite (to_int_small bsm) by lia.
  rewrite (to_int_small (part_count size bsm - 1)) by lia.
  fold (part_size size bsm j).
  replace (0 <? part_size size bsm j) with true
    by (symmetry; apply Z.ltb_lt; lia).
  cbn [assert].
  assert (Hjb : 0 <= j * bsm) by nia.
  rewrite (to_qint64_small (j * bsm)) by lia.
  replace (0 <=? j * bsm) with true by (symmetry; apply Z.leb_le; lia).
  cbn [assert].
  rewrite (to_qint64_small (j * bsm + _)) by lia.
  rewrite !to_qint64_small by lia.
  reflexivity.
Qed.

Lemma plan_file_eq bytes i :
  0 < bytes -> bytes <= INT_MAX * fsm ->
  0 <= i < part_count bytes fsm ->
  plan_file fsm bsm prefix dir (part_count bytes fsm) (bytes mod fsm) i
  = Some (the_file bytes i).
Proof.
  intros Hb Hbi Hi.
  pose proof INT_MAX_eq as HM. pose proof INT64_MAX_eq as HM64.
  assert (Hf : 0 < fsm) by lia.
  pose proof (count_code bytes fsm Hf fsm_int Hb Hbi) as (_ & _ & Hc).
  pose proof (part_size_range bytes fsm Hf Hb i) as Hp.
  pose proof (part_end bytes fsm Hf Hb i Hi) as He.
  set (size := part_size bytes fsm i) in *.
  assert (Hsz : size <= INT_MAX * bsm) by nia.
  assert (Hbm : bsm <= INT_MAX) by lia.
  pose proof (count_code size bsm bsm_pos Hbm (proj1 Hp) Hsz)
    as (Hr & Hcount & Hcb).
  unfold plan_file, the_file.
  rewrite (to_int_small fsm) by lia.
  rewrite (to_int_small (part_count bytes fsm - 1)) by lia.
  fold (part_size bytes fsm i). fold size.
  replace (0 <? size) with true by (symmetry; apply Z.ltb_lt; lia).
  cbn [assert].
  assert (Hib : 0 <= i * fsm) by nia.
  assert (Hbig : bytes <= 9223372036854775807) by nia.
  rewrite (to_qint64_small (i * fsm)) by lia.
  replace (0 <=? i * fsm) with true by (symmetry; apply Z.leb_le; lia).
  cbn [assert].
  rewrite Hcount, Hr.
  rewrite (collect_map (the_block i (i * fsm) size)).
  - rewrite length_map, zseq_length.
    replace (Z.of_nat (Z.to_nat (part_count size bsm)) =? part_count size bsm)
      with true by (symmetry; apply Z.eqb_eq; lia).
    cbn [assert].
    rewrite to_qint64_small by lia.
    reflexivity.
  - intros k Hk. apply plan_block_eq; lia.
Qed.

Lemma plan_files_eq bytes :
  0 < bytes -> bytes <= INT_MAX * fsm ->
  plan_files fsm bsm prefix dir bytes
  = Some (map (the_file bytes) (zseq 0 (Z.to_nat (part_count bytes fsm)))).
Proof.
  intros Hb Hbi.
  assert (Hf : 0 < fsm) by lia.
  pose proof (count_code bytes fsm Hf fsm_int Hb Hbi) as (Hr & Hcount & Hc).
  unfold plan_files. rewrite Hcount, Hr.
  apply collect_map. intros k Hk. apply plan_file_eq; lia.
Qed.

Lemma parts_all_but_last total m :
  0 < m -> 0 < total ->
  all_but_last m (map (part_size total m)
                      (zseq 0 (Z.to_nat (part_count total m)))).
Proof.
  intros Hm Ht k Hk.
  rewrite length_map, zseq_length in Hk.
  assert (Hn : nth_error (map (part_size total m)
                 (zseq 0 (Z.to_nat (part_count total m)))) k
               = Some (part_size total m (0 + Z.of_nat k))).
  { rewrite nth_error_map, zseq_nth_error by lia. reflexivity. }
  apply (nth_error_nth _ _ 0) in Hn. rewrite Hn.
  apply part_size_inner. lia.
Qed.

Lemma the_file_blocks_ok bytes i :
  0 < bytes -> 0 <= i -> blocks_ok bsm (the_file bytes i).
Proof.
  intros Hb Hi.
  assert (Hf : 0 < fsm) by lia.
  pose proof (part_size_range bytes fsm Hf Hb i) as Hp.
  unfold blocks_ok, the_file. cbn [FileInfo.blocks FileInfo.size FileInfo.offset].
  set (size := part_size bytes fsm i) in *.
  set (c := Z.to_nat (part_count size bsm)).
  assert (Hmap : map BlockInfo.size (map (the_block i (i * fsm) size) (zseq 0 c))
                 = map (part_size size bsm) (zseq 0 c)).
  { rewrite map_map. reflexivity. }
  rewrite Hmap.
  split; [apply parts_sum; lia|].
  split; [apply parts_all_but_last; lia|].
  split; [|split].
  - intros j b H. apply nth_error_map_zseq in H. destruct H as [Hj ->].
    cbn [the_block BlockInfo.rel_offset BlockInfo.size BlockInfo.abs_offset
         BlockInfo.abs_end].
    pose proof (part_size_range size bsm bsm_pos (proj1 Hp) (0 + Z.of_nat j)).
    repeat split; lia.
  - intros j b b' H H'.
    apply nth_error_map_zseq in H. destruct H as [Hj ->].
    apply nth_error_map_zseq in H'. destruct H' as [Hj' ->].
    cbn [the_block BlockInfo.rel_offset BlockInfo.size].
    rewrite part_size_inner by (subst c; lia). lia.
  - intros j j' b b' Hlt H H'.
    apply nth_error_map_zseq in H. destruct H as [Hj ->].
    apply nth_error_map_zseq in H'. destruct H' as [Hj' ->].
    cbn [the_block BlockInfo.rel_offset BlockInfo.size].
    pose proof (part_size_range size bsm bsm_pos (proj1 Hp) (0 + Z.of_nat j)).
    split; nia.
Qed.

Lemma the_files_plan_ok bytes :
  0 < bytes ->
  plan_ok bytes fsm bsm
    (map (the_file bytes) (zseq 0 (Z.to_nat (part_count bytes fsm)))).
Proof.
  intros Hb.
  assert (Hf : 0 < fsm) by lia.
  unfold plan_ok.
  set (c := Z.to_nat (part_count bytes fsm)).
  assert (Hmap : map FileInfo.size (map (the_file bytes) (zseq 0 c))
                 = map (part_size bytes fsm) (zseq 0 c)).
  { rewrite map_map. reflexivity. }
  rewrite Hmap.
  split; [apply parts_sum; lia|].
  split; [apply parts_all_but_last; lia|].
  split; [|split].
  - intros i f H. apply nth_error_map_zseq in H. destruct H as [Hi ->].
    pose proof (part_size_range bytes fsm Hf Hb (0 + Z.of_nat i)).
    split; [cbn; lia|]. split; [exact H|]. split; [reflexivity|].
    apply the_file_blocks_ok; lia.
  - intros i f f' H H'.
    apply nth_error_map_zseq in H. destruct H as [Hi ->].
    apply nth_error_map_zseq in H'. destruct H' as [Hi' ->].
    cbn [the_file FileInfo.offset FileInfo.size].
    rewrite part_size_inner by (subst c; lia). lia.
  - intros i i' f f' Hlt H H'.
    apply nth_error_map_zseq in H. destruct H as [Hi ->].
    apply nth_error_map_zseq in H'. destruct H' as [Hi' ->].
    cbn [the_file FileInfo.offset FileInfo.size].
    pose proof (part_size_range bytes fsm Hf Hb (0 + Z.of_nat i)).
    split; nia.
Qed.

End PlanFacts.

(** While the file size and the number of files fit the [int] variables
    the planner keeps them in ([fsm <= INT_MAX] and
    [bytes <= INT_MAX * fsm]), the plan is what it is meant to be: for
    every [bytes] > 0 and sizes with 0 < [bsm] < [fsm], both whole
    multiples of a megabyte, the planner returns a plan and the plan
    satisfies [plan_ok]: the file sizes
    sum to [bytes]; every file but possibly the last has size [fsm]; in
    every file the block sizes sum to the file's size and every block but
    possibly the last has size [bsm]; file [i] starts at [i * fsm] and
    block [j] at [j * bsm] in its file; files and blocks are contiguous,
    do not overlap and have strictly increasing offsets. *)
Theorem plan_files_covers (fsm bsm bytes : Z) (prefix dir : string) :
  0 < bsm -> bsm < fsm ->
  Z.rem bsm MiB = 0 -> Z.rem fsm MiB = 0 ->
  fsm <= INT_MAX -> 0 < bytes -> bytes <= INT_MAX * fsm ->
  exists fs,
    plan_files fsm bsm prefix dir bytes = Some fs /\ plan_ok bytes fsm bsm fs.
Proof.
  intros Hb Hlt _ _ Hf Hpos Hmax.
  eexists. split.
  - apply plan_files_eq; assumption.
  - apply the_files_plan_ok; assumption.
Qed.

Lemma plan_files_covers_witness :
  exists fs,
    plan_files (512 * MiB) (16 * MiB) "CAPACITYTESTER" "/mnt" (1000 * MiB + 5)
    = Some fs /\
    plan_ok (1000 * MiB + 5) (512 * MiB) (16 * MiB) fs.
Proof.
  apply (plan_files_covers (512 * MiB) (16 * MiB) (1000 * MiB + 5));
    vm_compute; congruence.
Defined.

(** C1: the planner on a volume of 2^60 bytes, with the sizes the
    constructor sets (blocks of 16 and files of 512 megabytes). The input
    is as the claim wants it, but the number of files, 2^31, does not fit
    the [int] that [file_count] is: it wraps to -2^31, the loop over the
    files runs no round, and the plan is empty. The sizes of its files sum
    to 0, not to the bytes of the volume, and the plan is not [plan_ok]:
    the space that was to be filled with test files is not touched. *)
Lemma plan_files_overflow :
  0 < 2 ^ 60 /\ 0 < 16 * MiB < 512 * MiB /\
  Z.rem (16 * MiB) MiB = 0 /\ Z.rem (512 * MiB) MiB = 0 /\
  2 ^ 60 / (512 * MiB) = 2 ^ 31 /\
  to_int (2 ^ 60 / (512 * MiB)) = - 2 ^ 31 /\
  plan_files (512 * MiB) (16 * MiB) "CAPACITYTESTER" "/mnt" (2 ^ 60)
  = Some [] /\
  sum (map FileInfo.size []) <> 2 ^ 60 /\
  ~ plan_ok (2 ^ 60) (512 * MiB) (16 * MiB) [].
Proof.
  split; [reflexivity|]. split; [split; reflexivity|].
  split; [reflexivity|]. split; [reflexivity|].
  split; [reflexivity|]. split; [vm_compute; reflexivity|].
  split; [vm_compute; reflexivity|].
  split; [discriminate|].
  intros (H & _). discriminate H.
Qed.

(** ** Flags *)

Lemma has_flag_lor_r e f : has_flag (Z.lor e f) f = true.
Proof.
  unfold has_flag. apply Z.eqb_eq. apply Z.bits_inj'. intros n Hn.
  rewrite Z.land_spec, Z.lor_spec.
  destruct (Z.testbit e n), (Z.testbit f n); reflexivity.
Qed.

Lemma has_flag_lor_l e f g :
  has_flag e g = true -> has_flag (Z.lor e f) g = true.
Proof.
  unfold has_flag. rewrite !Z.eqb_eq. intros H.
  apply Z.bits_inj'. intros n Hn.
  assert (Hb : Z.testbit (Z.land e g) n = Z.testbit g n) by now rewrite H.
  rewrite Z.land_spec in Hb. rewrite Z.land_spec, Z.lor_spec.
  destruct (Z.testbit e n), (Z.testbit f n), (Z.testbit g n);
    simpl in *; congruence.
Qed.

Lemma stable_refl t : stable t t.
Proof. repeat split. Qed.

Lemma stable_trans t1 t2 t3 : stable t1 t2 -> stable t2 t3 -> stable t1 t3.
Proof. unfold stable. intuition congruence. Qed.

Lemma stable_or_error f t : stable t (or_error f t).
Proof. repeat split. Qed.

Lemma cinv_or_error f t : cinv t -> cinv (or_error f t).
Proof.
  unfold cinv, or_error. cbn. intros H Hc. apply has_flag_lor_l. auto.
Qed.

Lemma stable_cancel t : stable t (cancel t).
Proof. repeat split. Qed.

Lemma cinv_cancel t : cinv (cancel t).
Proof. intros _. cbn. apply has_flag_lor_r. Qed.

Lemma created_app l1 l2 : created (l1 ++ l2) = created l1 ++ created l2.
Proof. apply flat_map_app. Qed.

Lemma writes_app l1 l2 : writes (l1 ++ l2) = writes l1 ++ writes l2.
Proof. apply flat_map_app. Qed.

(** ** Steps of a run *)

Section StepFacts.

Context {D : Type} {E : Env D}.

Lemma ext_refl (P : list Event -> Prop) (w : World D) : P [] -> ext P w w.
Proof.
  intros H. split; [apply stable_refl|]. split; [auto|].
  exists []. now rewrite app_nil_r.
Qed.

Lemma ext_trans (P Q R : list Event -> Prop) (w1 w2 w3 : World D) :
  ext P w1 w2 -> ext Q w2 w3 ->
  (forall d1 d2, P d1 -> Q d2 -> R (d1 ++ d2)) ->
  ext R w1 w3.
Proof.
  intros (S1 & C1 & d1 & T1 & P1) (S2 & C2 & d2 & T2 & P2) H.
  split; [eapply stable_trans; eauto|]. split; [auto|].
  exists (d1 ++ d2). split; [|auto].
  rewrite T2, T1. now rewrite app_assoc.
Qed.

Lemma ext_weaken (P Q : list Event -> Prop) (w w' : World D) :
  ext P w w' -> (forall d, P d -> Q d) -> ext Q w w'.
Proof.
  intros (S1 & C1 & d1 & T1 & P1) H.
  split; [exact S1|]. split; [exact C1|]. exists d1. auto.
Qed.

Lemma quiet_refl (w : World D) : quiet w w.
Proof. apply ext_refl. reflexivity. Qed.

Lemma quiet_trans (w1 w2 w3 : World D) :
  quiet w1 w2 -> quiet w2 w3 -> quiet w1 w3.
Proof.
  intros H1 H2. eapply ext_trans; eauto.
  intros d1 d2 E1 E2. simpl. now rewrite created_app, E1, E2.
Qed.

Lemma absorb_trace (w : World D) : trace (absorb w) = trace w.
Proof. unfold absorb. now destruct (cancel_requested (dev w)). Qed.

Lemma absorb_dev (w : World D) : dev (absorb w) = dev w.
Proof. unfold absorb. now destruct (cancel_requested (dev w)). Qed.

Lemma absorb_stable (w : World D) : stable (self w) (self (absorb w)).
Proof.
  unfold absorb. destruct (cancel_requested (dev w)); cbn.
  - apply stable_cancel.
  - apply stable_refl.
Qed.

Lemma absorb_cinv (w : World D) : cinv (self w) -> cinv (self (absorb w)).
Proof.
  unfold absorb. destruct (cancel_requested (dev w)); cbn; auto.
  intros _. apply cinv_cancel.
Qed.

(** The flags a tester carries are never taken back. *)
Lemma absorb_flags (w : World D) f :
  has_flag (error_type (self w)) f = true ->
  has_flag (error_type (self (absorb w))) f = true.
Proof.
  unfold absorb. destruct (cancel_requested (dev w)); cbn; auto.
  apply has_flag_lor_l.
Qed.

Lemma pc_ret {A : Type} (a : A) : pc (ret a) (@quiet D).
Proof. intros w a' w' H. inversion H; subst. apply quiet_refl. Qed.

Lemma pc_gets {A : Type} (f : VolumeTester -> A) : pc (gets f) (@quiet D).
Proof. intros w a' w' H. inversion H; subst. apply quiet_refl. Qed.

Lemma pc_query {A : Type} (f : D -> VolumeTester -> A) : pc (query f) (@quiet D).
Proof. intros w a' w' H. inversion H; subst. apply quiet_refl. Qed.

Lemma pc_check (b : bool) : pc (check b) (@quiet D).
Proof.
  intros w a' w' H. unfold check in H. destruct (assert b); inversion H; subst.
  apply quiet_refl.
Qed.

Lemma pc_lift {A : Type} (o : option A) : pc (lift o) (@quiet D).
Proof.
  intros w a' w' H. unfold lift in H. destruct o; inversion H; subst.
  apply quiet_refl.
Qed.

Lemma pc_or_error (f : Z) : pc (modify (or_error f)) (@quiet D).
Proof.
  intros w a' w' H. inversion H; subst.
  split; [apply stable_or_error|]. split; [apply cinv_or_error|].
  exists []. cbn. now rewrite app_nil_r.
Qed.

Lemma pc_io {A : Type} (op : D -> D * A) (ev : A -> Event) :
  (forall r, created [ev r] = []) -> pc (io op ev) (@quiet D).
Proof.
  intros Hev w a' w' H. unfold io in H.
  destruct (op (dev w)) as [d r]. inversion H; subst.
  split; [apply (absorb_stable (mkWorld d _ _))|].
  split; [apply (absorb_cinv (mkWorld d _ _))|].
  exists [ev a']. rewrite absorb_trace. cbn [trace].
  split; [reflexivity | apply Hev].
Qed.

Lemma pc_emit (s : Signal) : pc (emit s) (@quiet D).
Proof.
  intros w a' w' H. unfold emit in H. inversion H; subst.
  split; [apply (absorb_stable (mkWorld _ _ _))|].
  split; [apply (absorb_cinv (mkWorld _ _ _))|].
  exists [Emit s]. rewrite absorb_trace. cbn [trace].
  split; reflexivity.
Qed.

Lemma pc_fsync (p : string) : pc (fsync p) (@quiet D).
Proof.
  unfold fsync. destruct USE_FSYNC; [|apply pc_ret].
  apply pc_io. reflexivity.
Qed.

Lemma pc_bind {A B : Type} (c : M D A) (k : A -> M D B) :
  pc c (@quiet D) -> (forall a, pc (k a) (@quiet D)) -> pc (bind c k) (@quiet D).
Proof.
  intros Hc Hk w b w' H. unfold bind in H.
  destruct (c w) as [[a w1]|] eqn:Ec; [|discriminate].
  eapply quiet_trans; [eapply Hc; eauto | eapply Hk; eauto].
Qed.

Lemma pc_guard (c : M D bool) (onfail : M D unit) (k : M D bool) :
  pc c (@quiet D) -> pc onfail (@quiet D) -> pc k (@quiet D) -> pc (guard c onfail k) (@quiet D).
Proof.
  intros Hc Hf Hk. unfold guard. apply pc_bind; [assumption|].
  intros [|]; [assumption|].
  apply pc_bind; [assumption|]. intros _. apply pc_ret.
Qed.

Lemma pc_for_loop (body : nat -> M D bool) n :
  (forall i, pc (body i) (@quiet D)) -> forall i, pc (for_loop n i body) (@quiet D).
Proof.
  intros Hb. induction n as [|n IH]; intros i; cbn [for_loop].
  - apply pc_ret.
  - apply pc_bind; [apply Hb|]. intros [|]; [apply IH | apply pc_ret].
Qed.

End StepFacts.

Create HintDb quiet.

#[export] Hint Resolve pc_ret pc_gets pc_query pc_check pc_lift pc_or_error
  pc_emit pc_fsync pc_bind pc_guard pc_for_loop : quiet.

(** Takes a step built from the combinators apart, down to its calls. *)
Ltac quiet_step :=
  match goal with
  | |- pc (if ?b then _ else _) _ => destruct b
  | |- pc (io _ _) _ => apply pc_io; intros; reflexivity
  | |- pc (bind _ _) _ => apply pc_bind; [|intros]
  | |- pc (guard _ _ _) _ => apply pc_guard
  | |- pc (for_loop _ _ _) _ => apply pc_for_loop; intros
  | |- pc _ _ => solve [auto with quiet]
  end.

Ltac quiet_tac := repeat quiet_step.

Section PhaseFacts.

Context {D : Type} {E : Env D}.

Lemma pc_seek p pos : pc (seek p pos) (@quiet D).
Proof. unfold seek. quiet_tac. Qed.

Lemma pc_write p data : pc (write p data) (@quiet D).
Proof. unfold write. quiet_tac. Qed.

Lemma pc_resize p n : pc (resize p n) (@quiet D).
Proof. unfold resize. quiet_tac. Qed.

Lemma pc_putChar p c : pc (putChar p c) (@quiet D).
Proof. unfold putChar. quiet_tac. Qed.

Lemma pc_getChar p : pc (getChar p) (@quiet D).
Proof. unfold getChar. quiet_tac. Qed.

Lemma pc_read p n : pc (read p n) (@quiet D).
Proof. unfold read. quiet_tac. Qed.

Lemma pc_remove p : pc (remove p) (@quiet D).
Proof. unfold remove. quiet_tac. Qed.

Lemma pc_file_at i : pc (file_at i) (@quiet D).
Proof. unfold file_at. quiet_tac. Qed.

Lemma pc_block_data i j : pc (block_data i j) (@quiet D).
Proof. unfold block_data. quiet_tac. Qed.

Lemma pc_write_failed o s : pc (write_failed o s) (@quiet D).
Proof. unfold write_failed. quiet_tac. Qed.

Lemma pc_resize_failed o s : pc (resize_failed o s) (@quiet D).
Proof. unfold resize_failed. quiet_tac. Qed.

Lemma pc_verify_failed o s : pc (verify_failed o s) (@quiet D).
Proof. unfold verify_failed. quiet_tac. Qed.

Lemma pc_create_failed i fi err : pc (create_failed i fi err) (@quiet D).
Proof. unfold create_failed. quiet_tac. Qed.

Lemma pc_write_all p data n : pc (write_all p data n) (@quiet D).
Proof. unfold write_all, write. quiet_tac. Qed.

Lemma pc_getChar_is p b : pc (getChar_is p b) (@quiet D).
Proof. unfold getChar_is, getChar. quiet_tac. Qed.

Lemma pc_read_is p n data : pc (read_is p n data) (@quiet D).
Proof. unfold read_is, read. quiet_tac. Qed.

Lemma pc_quick_test fi : pc (quick_test fi) (@quiet D).
Proof.
  unfold quick_test.
  pose proof pc_seek. pose proof pc_getChar_is. pose proof pc_read_is.
  pose proof pc_verify_failed. quiet_tac.
Qed.

Lemma pc_recheckFile i : pc (recheckFile i) (@quiet D).
Proof.
  unfold recheckFile. pose proof pc_file_at. pose proof pc_quick_test.
  quiet_tac.
Qed.

Lemma pc_writeBlock i fi j : pc (writeBlock i fi j) (@quiet D).
Proof.
  unfold writeBlock.
  pose proof pc_seek. pose proof pc_write_all. pose proof pc_block_data.
  pose proof pc_write_failed. quiet_tac.
Qed.

Lemma pc_writeFile i : pc (writeFile i) (@quiet D).
Proof.
  unfold writeFile. pose proof pc_file_at. pose proof pc_writeBlock.
  quiet_tac.
Qed.

Lemma pc_writeFull : pc writeFull (@quiet D).
Proof. unfold writeFull. pose proof pc_writeFile. quiet_tac. Qed.

Lemma pc_verifyBlock i fi j : pc (verifyBlock i fi j) (@quiet D).
Proof.
  unfold verifyBlock.
  pose proof pc_seek. pose proof pc_read_is. pose proof pc_block_data.
  pose proof pc_verify_failed. quiet_tac.
Qed.

Lemma pc_verifyFile i : pc (verifyFile i) (@quiet D).
Proof.
  unfold verifyFile. pose proof pc_file_at. pose proof pc_verifyBlock.
  quiet_tac.
Qed.

Lemma pc_verifyFull : pc verifyFull (@quiet D).
Proof. unfold verifyFull. pose proof pc_verifyFile. quiet_tac. Qed.

Lemma pc_writer_until f k : pc (writer_until f k) (@quiet D).
Proof.
  unfold writer_until.
  pose proof pc_file_at. pose proof pc_writeFile. pose proof pc_writeBlock.
  quiet_tac.
Qed.

End PhaseFacts.

#[export] Hint Resolve pc_seek pc_write pc_resize pc_putChar pc_getChar
  pc_read pc_remove pc_file_at pc_block_data pc_write_failed
  pc_resize_failed pc_verify_failed pc_create_failed pc_write_all
  pc_getChar_is pc_read_is pc_quick_test : quiet.

(** ** Equations of the steps *)

Section RunEquations.

Context {D : Type} {E : Env D}.

Lemma bind_inv {A B : Type} (c : M D A) (k : A -> M D B) w b w' :
  bind c k w = Some (b, w') ->
  exists a w1, c w = Some (a, w1) /\ k a w1 = Some (b, w').
Proof.
  unfold bind. destruct (c w) as [[a w1]|]; [|discriminate]. eauto.
Qed.

Lemma ret_inv {A : Type} (a b : A) (w w' : World D) :
  ret a w = Some (b, w') -> a = b /\ w' = w.
Proof. unfold ret. intros H. inversion H. auto. Qed.

Lemma gets_inv {A : Type} (f : VolumeTester -> A) a (w w' : World D) :
  gets f w = Some (a, w') -> a = f (self w) /\ w' = w.
Proof. unfold gets. intros H. inversion H. auto. Qed.

Lemma bind_eq {A B : Type} (c : M D A) (k : A -> M D B) w a w1 :
  c w = Some (a, w1) -> bind c k w = k a w1.
Proof. unfold bind. now intros ->. Qed.

Lemma guard_true (c : M D bool) (f : M D unit) (k : M D bool) w w' :
  guard c f k w = Some (true, w') ->
  exists w1, c w = Some (true, w1) /\ k w1 = Some (true, w').
Proof.
  unfold guard. intros H. apply bind_inv in H as ([|] & w1 & Hc & Hk); eauto.
  apply bind_inv in Hk as (u & w2 & _ & Hr). discriminate.
Qed.

Lemma guard_pass (c : M D bool) (f : M D unit) (k : M D bool) w w1 :
  c w = Some (true, w1) -> guard c f k w = k w1.
Proof. intros H. unfold guard. now rewrite (bind_eq _ _ _ _ _ H). Qed.

Lemma guard_fail (c : M D bool) (f : M D unit) (k : M D bool) w w1 w2 :
  c w = Some (false, w1) -> f w1 = Some (tt, w2) ->
  guard c f k w = Some (false, w2).
Proof.
  intros H Hf. unfold guard. rewrite (bind_eq _ _ _ _ _ H).
  now rewrite (bind_eq _ _ _ _ _ Hf).
Qed.

Lemma io_inv {A : Type} (op : D -> D * A) (ev : A -> Event) w r w1 :
  io op ev w = Some (r, w1) ->
  r = snd (op (dev w)) /\ dev w1 = fst (op (dev w)) /\
  trace w1 = trace w ++ [ev r].
Proof.
  unfold io. destruct (op (dev w)) as [d x]. intros H. inversion H; subst.
  rewrite absorb_trace, absorb_dev. auto.
Qed.

Lemma emit_inv (s : Signal) w u w1 :
  emit s w = Some (u, w1) ->
  trace w1 = trace w ++ [Emit s] /\ dev w1 = listener s (dev w).
Proof.
  unfold emit. intros H. inversion H; subst.
  now rewrite absorb_trace, absorb_dev.
Qed.

Lemma emit_total (s : Signal) w : exists w1, emit s w = Some (tt, w1).
Proof. unfold emit. eauto. Qed.

Lemma seek_inv p pos w b w1 :
  seek p pos w = Some (b, w1) -> trace w1 = trace w ++ [Seek p pos b].
Proof. intros H. now apply io_inv in H. Qed.

Lemma resize_inv p n w b w1 :
  resize p n w = Some (b, w1) -> trace w1 = trace w ++ [Resize p n b].
Proof. intros H. now apply io_inv in H. Qed.

Lemma putChar_inv p c w b w1 :
  putChar p c w = Some (b, w1) -> trace w1 = trace w ++ [PutChar p c b].
Proof. intros H. now apply io_inv in H. Qed.

Lemma write_all_inv p data n w w1 :
  write_all p data n w = Some (true, w1) ->
  trace w1 = trace w ++ [Write p data n].
Proof.
  unfold write_all. intros H. apply bind_inv in H as (r & w2 & Hw & Hr).
  apply ret_inv in Hr as [Hr ->]. apply io_inv in Hw as (_ & _ & Ht).
  rewrite Ht. repeat f_equal. now apply Z.eqb_eq.
Qed.

Lemma getChar_is_inv p b w w1 :
  getChar_is p b w = Some (true, w1) ->
  exists c, to_uchar c = b /\ trace w1 = trace w ++ [GetChar p (Some c)].
Proof.
  unfold getChar_is. intros H. apply bind_inv in H as (r & w2 & Hw & Hr).
  apply ret_inv in Hr as [Hr ->]. apply io_inv in Hw as (_ & _ & Ht).
  destruct r as [c|]; [|discriminate].
  exists c. split; [now apply Z.eqb_eq | exact Ht].
Qed.

Lemma read_is_inv p n data w w1 :
  read_is p n data w = Some (true, w1) ->
  trace w1 = trace w ++ [Read p n data].
Proof.
  unfold read_is. intros H. apply bind_inv in H as (r & w2 & Hw & Hr).
  apply ret_inv in Hr as [Hr ->]. apply io_inv in Hw as (_ & _ & Ht).
  rewrite Ht. repeat f_equal. now apply bytes_eqb_eq.
Qed.

Lemma file_at_inv i (w : World D) fi w1 :
  file_at i w = Some (fi, w1) ->
  w1 = w /\ nth_error (file_infos (self w)) i = Some fi.
Proof.
  unfold file_at, bind, gets, lift.
  destruct (nth_error (file_infos (self w)) i); intros H; inversion H; auto.
Qed.

Lemma file_at_eq i (w : World D) fi :
  nth_error (file_infos (self w)) i = Some fi -> file_at i w = Some (fi, w).
Proof. unfold file_at, bind, gets, lift. now intros ->. Qed.

(** What the handlers of a failure leave behind. *)
Lemma or_error_emit (f : Z) (s : Signal) w :
  exists w1,
    bind (modify (or_error f)) (fun _ => emit s) w = Some (tt, w1) /\
    trace w1 = trace w ++ [Emit s] /\
    has_flag (error_type (self w1)) f = true.
Proof.
  unfold bind, modify, emit. eexists. split; [reflexivity|].
  rewrite absorb_trace. split; [reflexivity|].
  apply absorb_flags. cbn. apply has_flag_lor_r.
Qed.

Lemma write_failed_eq o s w :
  exists w1,
    write_failed o s w = Some (tt, w1) /\
    trace w1 = trace w ++ [Emit (writeFailed o s)] /\
    has_flag (error_type (self w1)) Error.Write = true.
Proof. apply or_error_emit. Qed.

Lemma verify_failed_eq o s w :
  exists w1,
    verify_failed o s w = Some (tt, w1) /\
    trace w1 = trace w ++ [Emit (verifyFailed o s)] /\
    has_flag (error_type (self w1)) Error.Verify = true.
Proof. apply or_error_emit. Qed.

(** A loop whose round [i + a] returns [false] after [a] good rounds. *)
Lemma for_loop_stop (body : nat -> M D bool) a : forall b i w w1 w2,
  for_loop a i body w = Some (true, w1) ->
  body (i + a)%nat w1 = Some (false, w2) ->
  for_loop (a + S b) i body w = Some (false, w2).
Proof.
  induction a as [|a IH]; intros b i w w1 w2 Ha Hb.
  - cbn in Ha. inversion Ha; subst. cbn [for_loop Nat.add].
    rewrite Nat.add_0_r in Hb. now rewrite (bind_eq _ _ _ _ _ Hb).
  - cbn [for_loop Nat.add] in *.
    apply bind_inv in Ha as ([|] & w3 & H1 & H2); [|discriminate].
    rewrite (bind_eq _ _ _ _ _ H1).
    eapply IH; eauto. now rewrite Nat.add_succ_r in Hb.
Qed.

End RunEquations.

(** ** The initializer *)

(** The events of the initialization of one file when it goes through:
    [err] is what [QFile::error] held, [c] the byte read back. *)
Definition init_events (fi : FileInfo.t) (err c : Z) : list Event :=
  let p := FileInfo.path fi in
  let id := FileInfo.id fi in
  let size := FileInfo.size fi in
  [Open p true err; Seek p 0 true; Write p id (bsize id);
   Resize p size true;
   Seek p (size - 1) true; PutChar p byte_fe true;
   Emit (initialized (FileInfo.end_ fi));
   Seek p (size - 1) true; GetChar p (Some c);
   Seek p 0 true; Read p (bsize id) id].

(** The bytes a stretch of events put with [putChar]. *)
Definition put_chars (l : list Event) : list (string * Z) :=
  flat_map (fun e => match e with
                     | PutChar p c _ => [(p, c)]
                     | _ => []
                     end) l.

Section Initializer.

Context {D : Type} {E : Env D}.

Lemma io_eq {A : Type} (op : D -> D * A) (ev : A -> Event) (w : World D) :
  io op ev w
  = Some (snd (op (dev w)),
          absorb (mkWorld (fst (op (dev w)))
                          (trace w ++ [ev (snd (op (dev w)))]) (self w))).
Proof. unfold io. now destruct (op (dev w)). Qed.

Lemma quick_test_true fi (w w' : World D) :
  quick_test fi w = Some (true, w') ->
  exists c, to_uchar c = byte_fe /\
    trace w' = trace w ++
      [Seek (FileInfo.path fi) (FileInfo.size fi - 1) true;
       GetChar (FileInfo.path fi) (Some c);
       Seek (FileInfo.path fi) 0 true;
       Read (FileInfo.path fi) (bsize (FileInfo.id fi)) (FileInfo.id fi)].
Proof.
  unfold quick_test. intros H.
  apply guard_true in H as (w1 & H1 & H). apply seek_inv in H1.
  apply guard_true in H as (w2 & H2 & H).
  apply getChar_is_inv in H2 as (c & Hc & H2).
  apply guard_true in H as (w3 & H3 & H). apply seek_inv in H3.
  apply guard_true in H as (w4 & H4 & H). apply read_is_inv in H4.
  apply bind_inv in H as (b & w5 & H5 & H).
  apply gets_inv in H5 as [_ ->]. apply ret_inv in H as [_ ->].
  exists c. split; [exact Hc|].
  rewrite H4, H3, H2, H1, <- !app_assoc. reflexivity.
Qed.

Lemma quick_test_mismatch fi (w : World D) r :
  snd (file_seek (FileInfo.path fi) (FileInfo.size fi - 1) (dev w)) = true ->
  snd (file_getChar (FileInfo.path fi)
         (fst (file_seek (FileInfo.path fi) (FileInfo.size fi - 1) (dev w))))
  = r ->
  (forall c, r = Some c -> to_uchar c <> byte_fe) ->
  exists w1,
    quick_test fi w = Some (false, w1) /\
    trace w1 = trace w ++
      [Seek (FileInfo.path fi) (FileInfo.size fi - 1) true;
       GetChar (FileInfo.path fi) r;
       Emit (verifyFailed (FileInfo.offset fi) (FileInfo.size fi))] /\
    has_flag (error_type (self w1)) Error.Verify = true.
Proof.
  intros Hs Hg Hr. unfold quick_test.
  set (p := FileInfo.path fi) in *. set (n := FileInfo.size fi - 1) in *.
  assert (H1 : seek p n w
               = Some (true, absorb (mkWorld (fst (file_seek p n (dev w)))
                                       (trace w ++ [Seek p n true]) (self w)))).
  { unfold seek. rewrite io_eq, Hs. reflexivity. }
  rewrite (guard_pass _ _ _ _ _ H1).
  set (w1 := absorb _) in *.
  assert (Hg1 : snd (file_getChar p (dev w1)) = r).
  { unfold w1. rewrite absorb_dev. exact Hg. }
  assert (H2 : getChar_is p byte_fe w1
               = Some (false, absorb (mkWorld (fst (file_getChar p (dev w1)))
                                        (trace w1 ++ [GetChar p r]) (self w1)))).
  { unfold getChar_is, getChar. erewrite bind_eq by apply io_eq.
    rewrite Hg1. unfold ret. do 2 f_equal.
    destruct r as [c|]; [|reflexivity].
    apply Z.eqb_neq. now apply Hr. }
  set (w2 := absorb _) in H2.
  destruct (verify_failed_eq (FileInfo.offset fi) (FileInfo.size fi) w2)
    as (w3 & Hv & Ht & Hf).
  exists w3. split; [eapply guard_fail; eauto|]. split; [|exact Hf].
  rewrite Ht. unfold w2. rewrite absorb_trace. cbn [trace].
  unfold w1. rewrite absorb_trace. cbn [trace].
  rewrite <- !app_assoc. reflexivity.
Qed.

Lemma initFile_true i fi (w w' : World D) :
  nth_error (file_infos (self w)) i = Some fi ->
  initFile i w = Some (true, w') ->
  exists err c, to_uchar c = byte_fe /\
    trace w' = trace w ++ init_events fi err c.
Proof.
  intros Hfi H. unfold initFile in H.
  rewrite (bind_eq _ _ _ _ _ (file_at_eq _ _ _ Hfi)) in H.
  apply bind_inv in H as ([ok err] & w0 & H0 & H).
  apply io_inv in H0 as (_ & _ & H0). cbn [fst snd] in *.
  destruct ok; cbn [negb] in H.
  2:{ apply bind_inv in H as (u & w1 & _ & H). discriminate. }
  apply guard_true in H as (w1 & H1 & H). apply seek_inv in H1.
  apply guard_true in H as (w2 & H2 & H). apply write_all_inv in H2.
  apply guard_true in H as (w3 & H3 & H). apply resize_inv in H3.
  apply guard_true in H as (w4 & H4 & H). apply seek_inv in H4.
  apply guard_true in H as (w5 & H5 & H). apply putChar_inv in H5.
  apply bind_inv in H as (u & w6 & H6 & H). apply emit_inv in H6 as [H6 _].
  apply quick_test_true in H as (c & Hc & H).
  exists err, c. split; [exact Hc|].
  rewrite H, H6, H5, H4, H3, H2, H1, H0, <- !app_assoc. reflexivity.
Qed.

End Initializer.

(** What C4 says of file [i] of the plan, [fi], in the world [w]. *)
Definition trailer_spec {D : Type} {E : Env D}
  (w : World D) (i : nat) (fi : FileInfo.t) : Prop :=
  byte_fe = 254 /\
  (forall w', initFile i w = Some (true, w') ->
     exists err c, to_uchar c = byte_fe /\
       trace w' = trace w ++ init_events fi err c) /\
  (forall w0 r,
     snd (file_seek (FileInfo.path fi) (FileInfo.size fi - 1) (dev w0)) = true ->
     snd (file_getChar (FileInfo.path fi)
            (fst (file_seek (FileInfo.path fi) (FileInfo.size fi - 1) (dev w0))))
     = r ->
     (forall c, r = Some c -> to_uchar c <> byte_fe) ->
     exists w1,
       quick_test fi w0 = Some (false, w1) /\
       trace w1 = trace w0 ++
         [Seek (FileInfo.path fi) (FileInfo.size fi - 1) true;
          GetChar (FileInfo.path fi) r;
          Emit (verifyFailed (FileInfo.offset fi) (FileInfo.size fi))] /\
       has_flag (error_type (self w1)) Error.Verify = true).

(** C4, as amended: in the initialization of a file that goes through,
    after the file was grown to its planned size the initializer seeks to
    the file's last byte and writes the trailer byte, whose value is 254,
    and the quick test that follows seeks to the same byte, reads it back
    and finds 254; a quick test that reads any other byte there, or none,
    fails with the [Verify] flag and [verifyFailed]. *)
Theorem initFile_trailer {D : Type} {E : Env D}
  (w : World D) (i : nat) (fi : FileInfo.t) :
  nth_error (file_infos (self w)) i = Some fi ->
  trailer_spec w i fi.
Proof.
  intros Hfi. split; [reflexivity|]. split.
  - intros w'. now apply initFile_true.
  - intros w0 r. apply quick_test_mismatch.
Qed.

Lemma initFile_trailer_witness :
  nth_error (file_infos (self sample_planned)) 0 = Some sample_file0 /\
  option_map fst (initFile 0 sample_planned) = Some true /\
  trailer_spec sample_planned 0 sample_file0.
Proof.
  split; [vm_compute; reflexivity|].
  split; [vm_compute; reflexivity|].
  apply (initFile_trailer sample_planned 0 sample_file0).
  vm_compute. reflexivity.
Defined.

(** C4 as the claim has it fails on the sample: the one byte the
    initializer puts at the end of each file is 254, not 255, and a file
    that ends in 255 does not pass the quick test. *)
Lemma trailer_is_not_255 :
  option_map put_chars (events (initialize sample_planned))
  = Some [("/mnt/CAPACITYTESTER0"%string, 254);
          ("/mnt/CAPACITYTESTER1"%string, 254);
          ("/mnt/CAPACITYTESTER2"%string, 254)] /\
  254 <> 255 /\
  events (quick_test sample_file0 sample_255)
  = Some [Seek "/mnt/CAPACITYTESTER0" 7 true;
          GetChar "/mnt/CAPACITYTESTER0" (Some 255);
          Emit (verifyFailed 0 8)].
Proof. repeat split; vm_compute; congruence. Qed.

(** ** The writer *)

(** The events of a block whose write fails: a failed seek, or a write
    that returns another count than the block's size, and the signal. *)
Definition write_error_events (fi : FileInfo.t) (b : BlockInfo.t)
  (data : QByteArray) (l : list Event) : Prop :=
  let p := FileInfo.path fi in
  let failure := Emit (writeFailed (BlockInfo.abs_offset b) (BlockInfo.size b)) in
  l = [Seek p (BlockInfo.rel_offset b) false; failure] \/
  exists n, n <> BlockInfo.size b /\
    l = [Seek p (BlockInfo.rel_offset b) true; Write p data n; failure].

(** The seek to block [b] of [fi] fails in [d], or the write of [data]
    there returns another count than the block's size. *)
Definition write_fails {D : Type} {E : Env D}
  (fi : FileInfo.t) (b : BlockInfo.t) (data : QByteArray) (d : D) : Prop :=
  let p := FileInfo.path fi in
  snd (file_seek p (BlockInfo.rel_offset b) d) = false \/
  snd (file_write p data (fst (file_seek p (BlockInfo.rel_offset b) d)))
  <> BlockInfo.size b.

Section Writer.

Context {D : Type} {E : Env D}.

Lemma gets_eq {A B : Type} (f : VolumeTester -> A) (k : A -> M D B)
  (w : World D) :
  bind (gets f) k w = k (f (self w)) w.
Proof. reflexivity. Qed.

Lemma quiet_file_infos (w w' : World D) :
  quiet w w' -> file_infos (self w') = file_infos (self w).
Proof. intros (S & _). apply S. Qed.

Lemma writer_until_inv f k (w0 wk : World D) :
  writer_until f k w0 = Some (true, wk) ->
  exists wa w1 fi w2,
    emit writeStarted w0 = Some (tt, wa) /\
    for_loop f 0 writeFile wa = Some (true, w1) /\
    nth_error (file_infos (self w1)) f = Some fi /\
    fsync (FileInfo.path fi) w1 = Some (tt, w2) /\
    for_loop k 0 (writeBlock f fi) w2 = Some (true, wk) /\
    file_infos (self wa) = file_infos (self w0) /\
    file_infos (self w1) = file_infos (self w0) /\
    file_infos (self wk) = file_infos (self w0).
Proof.
  intros H. pose proof (pc_writer_until f k _ _ _ H) as Hq.
  unfold writer_until in H.
  apply bind_inv in H as ([] & wa & Ha & H).
  apply bind_inv in H as ([|] & w1 & H1 & H); [|discriminate].
  apply bind_inv in H as (fi & w1' & Hfi & H).
  apply file_at_inv in Hfi as [-> Hfi].
  apply bind_inv in H as ([] & w2 & H2 & H).
  exists wa, w1, fi, w2. repeat split; auto.
  - apply quiet_file_infos. eapply pc_emit; eauto.
  - transitivity (file_infos (self wa)).
    + apply quiet_file_infos. eapply (pc_for_loop writeFile); eauto.
      intros. apply pc_writeFile.
    + apply quiet_file_infos. eapply pc_emit; eauto.
  - now apply quiet_file_infos.
Qed.

(** The writer stops at the block whose round returns [false]. *)
Lemma writeFull_stops f k fi (w0 wk w' : World D) :
  writer_until f k w0 = Some (true, wk) ->
  nth_error (file_infos (self wk)) f = Some fi ->
  (k < length (FileInfo.blocks fi))%nat ->
  writeBlock f fi k wk = Some (false, w') ->
  writeFull w0 = Some (false, w').
Proof.
  intros Hu Hfi Hk Hb.
  apply writer_until_inv in Hu
    as (wa & w1 & fi' & w2 & Ha & H1 & Hfi' & H2 & Hl & Ea & E1 & Ek).
  assert (fi' = fi) by congruence. subst fi'.
  assert (Hf : (f < length (file_infos (self wa)))%nat).
  { apply nth_error_Some. congruence. }
  unfold writeFull. rewrite (bind_eq _ _ _ _ _ Ha), gets_eq.
  replace (length (file_infos (self wa)))
    with (f + S (length (file_infos (self wa)) - f - 1))%nat by lia.
  eapply for_loop_stop; [exact H1|]. cbn [Nat.add].
  unfold writeFile.
  rewrite (bind_eq _ _ _ _ _ (file_at_eq _ _ _ Hfi')).
  rewrite (bind_eq _ _ _ _ _ H2).
  replace (length (FileInfo.blocks fi))
    with (k + S (length (FileInfo.blocks fi) - k - 1))%nat by lia.
  eapply for_loop_stop; [exact Hl|]. exact Hb.
Qed.

Lemma block_data_eq i j (w : World D) data :
  blockData (self w) i j = Some data -> block_data i j w = Some (data, w).
Proof. unfold block_data, bind, gets, lift. now intros ->. Qed.

Lemma lift_eq {A B : Type} (o : option A) (k : A -> M D B) (w : World D) a :
  o = Some a -> bind (lift o) k w = k a w.
Proof. now intros ->. Qed.

Lemma writeBlock_write_error f fi k b data (wk : World D) :
  nth_error (FileInfo.blocks fi) k = Some b ->
  blockData (self wk) f k = Some data ->
  write_fails fi b data (dev wk) ->
  exists w' l,
    writeBlock f fi k wk = Some (false, w') /\
    has_flag (error_type (self w')) Error.Write = true /\
    trace w' = trace wk ++ l /\
    write_error_events fi b data l.
Proof.
  intros Hb Hd Hfail. unfold writeBlock.
  rewrite (lift_eq _ _ _ _ Hb).
  rewrite (bind_eq _ _ _ _ _ (block_data_eq _ _ _ _ Hd)).
  set (p := FileInfo.path fi). set (off := BlockInfo.rel_offset b).
  unfold write_fails in Hfail. fold p off in Hfail.
  destruct (snd (file_seek p off (dev wk))) eqn:Hs.
  - destruct Hfail as [?|Hw]; [discriminate|].
    assert (H1 : seek p off wk
                 = Some (true, absorb (mkWorld (fst (file_seek p off (dev wk)))
                                         (trace wk ++ [Seek p off true])
                                         (self wk)))).
    { unfold seek. rewrite io_eq, Hs. reflexivity. }
    rewrite (guard_pass _ _ _ _ _ H1).
    set (w1 := absorb _) in *.
    set (n := snd (file_write p data (fst (file_seek p off (dev wk))))) in *.
    assert (Hn : snd (file_write p data (dev w1)) = n).
    { unfold w1. rewrite absorb_dev. reflexivity. }
    assert (H2 : write_all p data (BlockInfo.size b) w1
                 = Some (false, absorb (mkWorld (fst (file_write p data (dev w1)))
                                          (trace w1 ++ [Write p data n])
                                          (self w1)))).
    { unfold write_all, write. erewrite bind_eq by apply io_eq.
      rewrite Hn. unfold ret. do 2 f_equal. now apply Z.eqb_neq. }
    set (w2 := absorb _) in H2.
    destruct (write_failed_eq (BlockInfo.abs_offset b) (BlockInfo.size b) w2)
      as (w3 & Hv & Ht & Hf).
    exists w3. eexists. split; [eapply guard_fail; eauto|].
    split; [exact Hf|]. split.
    + rewrite Ht. unfold w2. rewrite absorb_trace. cbn [trace].
      unfold w1. rewrite absorb_trace. cbn [trace].
      rewrite <- !app_assoc. reflexivity.
    + right. exists n. split; [exact Hw | reflexivity].
  - assert (H1 : seek p off wk
                 = Some (false, absorb (mkWorld (fst (file_seek p off (dev wk)))
                                          (trace wk ++ [Seek p off false])
                                          (self wk)))).
    { unfold seek. rewrite io_eq, Hs. reflexivity. }
    set (w1 := absorb _) in *.
    destruct (write_failed_eq (BlockInfo.abs_offset b) (BlockInfo.size b) w1)
      as (w3 & Hv & Ht & Hf).
    exists w3. eexists. split; [eapply guard_fail; eauto|].
    split; [exact Hf|]. split.
    + rewrite Ht. unfold w1. rewrite absorb_trace. cbn [trace].
      rewrite <- !app_assoc. reflexivity.
    + left. reflexivity.
Qed.

(** A block whose round returns [true] leaves the tester not canceled. *)
Lemma writeBlock_true f fi k (w w' : World D) :
  writeBlock f fi k w = Some (true, w') -> _canceled (self w') = false.
Proof.
  unfold writeBlock. intros H.
  apply bind_inv in H as (b & w1 & _ & H).
  apply bind_inv in H as (data & w2 & _ & H).
  apply guard_true in H as (w3 & _ & H).
  apply guard_true in H as (w4 & _ & H).
  apply bind_inv in H as (u & w5 & _ & H).
  apply bind_inv in H as (u' & w6 & _ & H).
  apply bind_inv in H as (c & w7 & Hc & H).
  apply gets_inv in Hc as [-> ->]. apply ret_inv in H as [H ->].
  unfold abortRequested in H. now destruct (_canceled (self w6)).
Qed.

End Writer.

(** What C5 says of a writer that began in [w0] and stands in [wk]
    before block [b] of file [fi], whose data is [data]. *)
Definition write_error_spec {D : Type} {E : Env D}
  (w0 wk : World D) (fi : FileInfo.t) (b : BlockInfo.t) (data : QByteArray)
  : Prop :=
  exists w' l,
    writeFull w0 = Some (false, w') /\
    has_flag (error_type (self w')) Error.Write = true /\
    trace w' = trace wk ++ l /\
    write_error_events fi b data l.

(** C5: when the writer has come to block [k] of file [f] and the seek
    to that block fails or its write returns another count than the
    block's size (a short write), [writeFull] returns [false] with the
    [Write] flag set; after what had happened before the block, the events
    are the failed seek, or the seek and the one write of the block's data,
    and then [writeFailed] with the block's absolute offset and size, and
    nothing else: no other block of the file or of a later file is
    written, and the write is not tried again. *)
Theorem writeFull_write_error {D : Type} {E : Env D}
  (w0 wk : World D) (f k : nat)
  (fi : FileInfo.t) (b : BlockInfo.t) (data : QByteArray) :
  writer_until f k w0 = Some (true, wk) ->
  nth_error (file_infos (self wk)) f = Some fi ->
  nth_error (FileInfo.blocks fi) k = Some b ->
  blockData (self wk) f k = Some data ->
  write_fails fi b data (dev wk) ->
  write_error_spec w0 wk fi b data.
Proof.
  intros Hu Hfi Hb Hd Hfail.
  destruct (writeBlock_write_error f fi k b data wk Hb Hd Hfail)
    as (w' & l & Hw & Hf & Ht & Hl).
  exists w', l. split; [|auto].
  eapply writeFull_stops; eauto.
  apply nth_error_Some. congruence.
Qed.

Lemma writeFull_write_error_witness :
  writer_until 0 1 short_inited = Some (true, short_at_block) /\
  write_fails sample_file0 sample_block01 [48; 58; 49; 1] (dev short_at_block) /\
  write_error_spec short_inited short_at_block sample_file0 sample_block01
    [48; 58; 49; 1].
Proof.
  split; [vm_compute; reflexivity|].
  split; [right; vm_compute; congruence|].
  apply (writeFull_write_error short_inited short_at_block 0 1
           sample_file0 sample_block01 [48; 58; 49; 1]);
    try (vm_compute; reflexivity).
  right; vm_compute; congruence.
Defined.


(** ** Cleanup and the end of a test *)

(** The removals of the paths [ps], with the answers [oks] they got. *)
Definition removals (ps : list string) (oks : list bool) : list Event :=
  map (fun x => Remove (fst x) (snd x)) (combine ps oks).

(** The signal that reports the outcome of the tests. *)
Definition result_signal (ok : bool) (e : Z) : Signal :=
  if ok then succeeded else failed (Some e).

Lemma last_split {A : Type} (l : list A) : forall n x,
  nth_error l n = Some x -> length l = S n -> l = firstn n l ++ [x].
Proof.
  induction l as [|a l IH]; intros n x Hn Hl; [discriminate|].
  destruct n as [|n]; cbn in *.
  - destruct l; [|discriminate]. congruence.
  - f_equal. apply IH; [assumption | lia].
Qed.

Section Cleanup.

Context {D : Type} {E : Env D}.

Lemma deleteFiles_from_spec n : forall (w : World D),
  length (file_infos (self w)) = n ->
  exists w' oks,
    deleteFiles_from n w = Some (tt, w') /\
    length oks = n /\
    trace w' = trace w ++ removals (rev (paths (file_infos (self w)))) oks /\
    file_infos (self w') = [] /\
    pattern (self w') = pattern (self w).
Proof.
  induction n as [|n IH]; intros w Hl.
  - apply length_zero_iff_nil in Hl. exists w, []. rewrite Hl.
    cbn. rewrite app_nil_r. auto.
  - set (l := file_infos (self w)) in *.
    destruct (nth_error l n) as [fi|] eqn:Hfi.
    2:{ apply nth_error_None in Hfi. lia. }
    pose proof (last_split l n fi Hfi Hl) as Hsplit.
    cbn [deleteFiles_from].
    rewrite (bind_eq _ _ _ _ _ (file_at_eq _ _ _ Hfi)).
    unfold remove. erewrite bind_eq by apply io_eq.
    set (ok := snd (file_remove (FileInfo.path fi) (dev w))).
    set (w1 := absorb _).
    assert (Hl1 : file_infos (self w1) = l).
    { unfold w1. apply (absorb_stable (mkWorld _ _ _)). }
    assert (Hp1 : pattern (self w1) = pattern (self w)).
    { unfold w1. apply (absorb_stable (mkWorld _ _ _)). }
    assert (Ht1 : trace w1 = trace w ++ [Remove (FileInfo.path fi) ok]).
    { unfold w1. now rewrite absorb_trace. }
    unfold bind at 1. unfold modify at 1. cbn [fst snd].
    set (w2 := mkWorld _ _ _).
    assert (Hl2 : file_infos (self w2) = firstn n l).
    { unfold w2. cbn. rewrite Hl1. unfold removeAt.
      rewrite skipn_all2 by lia. apply app_nil_r. }
    destruct (IH w2) as (w' & oks & Hd & Hlen & Ht & Hnil & Hpat).
    { rewrite Hl2, length_firstn. lia. }
    exists w', (ok :: oks). split; [exact Hd|]. split; [cbn; lia|].
    split; [|split; [exact Hnil|]].
    + rewrite Ht, Hl2. unfold w2. cbn [trace]. rewrite Ht1.
      rewrite Hsplit at 2. unfold paths. rewrite map_app, rev_app_distr.
      cbn [map rev app]. unfold removals. cbn [combine map fst snd].
      rewrite <- app_assoc. reflexivity.
    + rewrite Hpat. unfold w2. cbn. exact Hp1.
Qed.

Lemma deleteFiles_spec (w : World D) :
  exists w' oks,
    deleteFiles w = Some (tt, w') /\
    length oks = length (file_infos (self w)) /\
    trace w' = trace w ++ removals (rev (paths (file_infos (self w)))) oks /\
    file_infos (self w') = [] /\
    pattern (self w') = pattern (self w).
Proof.
  destruct (deleteFiles_from_spec _ w eq_refl)
    as (w' & oks & Hd & Hlen & Ht & Hnil & Hpat).
  exists w', oks. split; [|auto].
  unfold deleteFiles. rewrite gets_eq, (bind_eq _ _ _ _ _ Hd), gets_eq, Hnil.
  reflexivity.
Qed.

Lemma pc_report ok : pc (report ok) (@quiet D).
Proof. unfold report. quiet_tac. Qed.

Lemma report_spec ok (w : World D) :
  exists w',
    report ok w = Some (tt, w') /\
    trace w' = trace w ++
      [Emit (result_signal ok (error_type (self w))); Emit finished] /\
    file_infos (self w') = file_infos (self w) /\
    pattern (self w') = pattern (self w).
Proof.
  assert (H : exists w', report ok w = Some (tt, w') /\
            trace w' = trace w ++
              [Emit (result_signal ok (error_type (self w))); Emit finished]).
  { unfold report, result_signal. destruct ok.
    - destruct (emit_total succeeded w) as (w1 & H1).
      destruct (emit_total finished w1) as (w2 & H2).
      exists w2. rewrite (bind_eq _ _ _ _ _ H1). split; [exact H2|].
      apply emit_inv in H1 as [H1 _]. apply emit_inv in H2 as [H2 _].
      rewrite H2, H1, <- app_assoc. reflexivity.
    - rewrite gets_eq.
      destruct (emit_total (failed (Some (error_type (self w)))) w)
        as (w1 & H1).
      destruct (emit_total finished w1) as (w2 & H2).
      exists w2. rewrite (bind_eq _ _ _ _ _ H1). split; [exact H2|].
      apply emit_inv in H1 as [H1 _]. apply emit_inv in H2 as [H2 _].
      rewrite H2, H1, <- app_assoc. reflexivity. }
  destruct H as (w' & Hr & Ht). exists w'. split; [exact Hr|].
  split; [exact Ht|].
  pose proof (pc_report ok _ _ _ Hr) as (S & _). split; apply S.
Qed.

(** After the tests, whatever their outcome: the report, then the
    removal of every file of the plan, last file first. *)
Lemma run_and_cleanup_spec ok (w1 w2 : World D) :
  run_tests w1 = Some (ok, w2) ->
  exists w3 oks,
    run_and_cleanup w1 = Some (tt, w3) /\
    length oks = length (file_infos (self w2)) /\
    trace w3 = trace w2 ++
      [Emit (result_signal ok (error_type (self w2))); Emit finished] ++
      removals (rev (paths (file_infos (self w2)))) oks /\
    file_infos (self w3) = [] /\
    pattern (self w3) = pattern (self w2).
Proof.
  intros Hr.
  destruct (report_spec ok w2) as (wr & Hrep & Ht & Hl & Hp).
  destruct (deleteFiles_spec wr) as (w3 & oks & Hd & Hlen & Ht3 & Hnil & Hp3).
  exists w3, oks. split.
  - unfold run_and_cleanup.
    rewrite (bind_eq _ _ _ _ _ Hr), (bind_eq _ _ _ _ _ Hrep). exact Hd.
  - rewrite Hl in *. split; [exact Hlen|]. split; [|split; [exact Hnil|]].
    + rewrite Ht3, Ht, <- app_assoc. reflexivity.
    + now rewrite Hp3.
Qed.

End Cleanup.

(** ** Tests that do not begin *)

(** The assertions of [start] on the sizes hold for the tester [t]. *)
Definition config_ok {D : Type} {E : Env D} (t : VolumeTester) : Prop :=
  0 < block_size_max t /\ Z.rem (block_size_max t) MB = 0 /\
  0 < file_size_max t /\ Z.rem (file_size_max t) MB = 0 /\
  block_size_max t < file_size_max t.

Section EarlyExit.

Context {D : Type} {E : Env D}.

Lemma two_signals (s1 s2 : Signal) (w : World D) :
  exists w',
    bind (emit s1) (fun _ => bind (emit s2) (fun _ => ret false)) w
    = Some (false, w') /\
    trace w' = trace w ++ [Emit s1; Emit s2] /\
    stable (self w) (self w').
Proof.
  destruct (emit_total s1 w) as (w1 & H1).
  destruct (emit_total s2 w1) as (w2 & H2).
  exists w2. rewrite (bind_eq _ _ _ _ _ H1), (bind_eq _ _ _ _ _ H2).
  split; [reflexivity|].
  pose proof (pc_emit _ _ _ _ H1) as (S1 & _).
  pose proof (pc_emit _ _ _ _ H2) as (S2 & _).
  apply emit_inv in H1 as [H1 _]. apply emit_inv in H2 as [H2 _].
  split; [|eapply stable_trans; eauto].
  rewrite H2, H1, <- app_assoc. reflexivity.
Qed.

Lemma check_true (b : bool) {A : Type} (k : unit -> M D A) (w : World D) :
  b = true -> bind (check b) k w = k tt w.
Proof. intros ->. reflexivity. Qed.

Lemma config_checks (t : VolumeTester) :
  config_ok t ->
  (0 <? block_size_max t) && (Z.rem (block_size_max t) MB =? 0) = true /\
  (0 <? file_size_max t) && (Z.rem (file_size_max t) MB =? 0) = true /\
  (block_size_max t <? file_size_max t) = true.
Proof.
  intros (H1 & H2 & H3 & H4 & H5).
  rewrite H2, H4. cbn [Z.eqb]. rewrite !andb_true_r.
  repeat split; apply Z.ltb_lt; assumption.
Qed.

Lemma start_setup_invalid (w : World D) :
  isValid (dev w) (self w) = false ->
  exists w',
    start_setup w = Some (false, w') /\
    trace w' = trace w ++ [Emit (failed None); Emit finished] /\
    file_infos (self w') = file_infos (self w).
Proof.
  intros Hv.
  destruct (two_signals (failed None) finished w) as (w' & H & Ht & S).
  exists w'. split; [|split; [exact Ht | apply S]].
  unfold start_setup. unfold bind at 1. unfold query at 1. rewrite Hv.
  exact H.
Qed.

Lemma start_setup_full (w : World D) :
  isValid (dev w) (self w) = true ->
  config_ok (self w) ->
  bytesAvailable (dev w) (self w) <= 0 ->
  exists w',
    start_setup w = Some (false, w') /\
    trace w' = trace w ++ [Emit (failed (Some Error.Full)); Emit finished] /\
    file_infos (self w') = file_infos (self w).
Proof.
  intros Hv Hc Ha.
  apply config_checks in Hc as (C1 & C2 & C3).
  set (avail := bytesAvailable (dev w) (self w)) in *.
  set (w1 := mkWorld (dev w) (trace w) (set_bytes avail 0 avail (self w))).
  destruct (two_signals (failed (Some Error.Full)) finished w1)
    as (w' & H & Ht & S).
  exists w'. split; [|split; [exact Ht | apply S]].
  unfold start_setup. unfold bind at 1. unfold query at 1. rewrite Hv.
  cbn [negb]. rewrite !gets_eq.
  rewrite (check_true _ _ _ C1), (check_true _ _ _ C2), (check_true _ _ _ C3).
  unfold bind at 1. unfold query at 1. fold avail.
  unfold bind at 1. unfold modify at 1. fold w1.
  replace (avail <=? 0) with true by (symmetry; apply Z.leb_le; exact Ha).
  exact H.
Qed.

End EarlyExit.

(** What C7 says of [start] in the world [w]: it ends at once, after the
    two signals [failed] and [finished] and nothing else (no file is
    opened or written), and the plan is as it was. *)
Definition early_exit_spec {D : Type} {E : Env D} (w : World D) : Prop :=
  exists w',
    start w = Some (tt, w') /\
    trace w' = trace w ++
      [Emit (failed (if isValid (dev w) (self w)
                     then Some Error.Full else None));
       Emit finished] /\
    file_infos (self w') = file_infos (self w).

(** C7: when the mountpoint is valid and the bytes available are zero or
    less, [start] emits [failed] with [Full] and then [finished] and
    returns; when the mountpoint is not valid any more it emits [failed]
    and [finished] and returns. In both cases nothing else happens: no
    file is created and the plan gets no entry. *)
Theorem start_fails_early {D : Type} {E : Env D} (w : World D) :
  isValid (dev w) (self w) = false \/
  (isValid (dev w) (self w) = true /\ config_ok (self w) /\
   bytesAvailable (dev w) (self w) <= 0) ->
  early_exit_spec w.
Proof.
  intros [Hv|(Hv & Hc & Ha)]; unfold early_exit_spec; rewrite Hv.
  - destruct (start_setup_invalid w Hv) as (w' & Hs & Ht & Hl).
    exists w'. split; [|auto].
    unfold start. now rewrite (bind_eq _ _ _ _ _ Hs).
  - destruct (start_setup_full w Hv Hc Ha) as (w' & Hs & Ht & Hl).
    exists w'. split; [|auto].
    unfold start. now rewrite (bind_eq _ _ _ _ _ Hs).
Qed.

Lemma start_fails_early_witness :
  (bytesAvailable (dev full_start) (self full_start) <= 0 /\
   early_exit_spec full_start) /\
  (isValid (dev unmounted_start) (self unmounted_start) = false /\
   early_exit_spec unmounted_start).
Proof.
  split; (split; [vm_compute; congruence|]).
  - apply (start_fails_early full_start). right.
    repeat split; vm_compute; congruence.
  - apply (start_fails_early unmounted_start). left.
    vm_compute; reflexivity.
Defined.

(** ** The files a test creates *)

(** The events [d] created the first files of the list [ps], in order. *)
Definition creates (ps : list string) (d : list Event) : Prop :=
  exists m, created d = firstn m ps.

Lemma skipn_nth_error {A : Type} (l : list A) : forall i x,
  nth_error l i = Some x -> skipn i l = x :: skipn (S i) l.
Proof.
  induction l as [|a l IH]; intros [|i] x H; try discriminate.
  - cbn in *. congruence.
  - cbn [nth_error] in H. cbn [skipn]. rewrite (IH _ _ H). reflexivity.
Qed.

Section Created.

Context {D : Type} {E : Env D}.

Lemma quiet_then (ps : list string) (w1 w2 w3 : World D) :
  quiet w1 w2 -> ext (creates ps) w2 w3 -> ext (creates ps) w1 w3.
Proof.
  intros H1 H2. eapply ext_trans; eauto.
  intros d1 d2 E1 (m & E2). exists m. cbn in E1.
  now rewrite created_app, E1.
Qed.

Lemma then_quiet (ps : list string) (w1 w2 w3 : World D) :
  ext (creates ps) w1 w2 -> quiet w2 w3 -> ext (creates ps) w1 w3.
Proof.
  intros H1 H2. eapply ext_trans; eauto.
  intros d1 d2 (m & E1) E2. exists m. cbn in E2.
  now rewrite created_app, E2, app_nil_r.
Qed.

Lemma quiet_creates (ps : list string) (w1 w2 : World D) :
  quiet w1 w2 -> ext (creates ps) w1 w2.
Proof.
  intros H. eapply ext_weaken; eauto.
  intros d Hd. exists 0%nat. exact Hd.
Qed.

Lemma initFile_ext i fi (w w' : World D) b :
  nth_error (file_infos (self w)) i = Some fi ->
  initFile i w = Some (b, w') ->
  ext (fun d => created d = [FileInfo.path fi] \/
                (created d = [] /\ b = false)) w w'.
Proof.
  intros Hfi H. unfold initFile in H.
  rewrite (bind_eq _ _ _ _ _ (file_at_eq _ _ _ Hfi)) in H.
  apply bind_inv in H as ([ok err] & w0 & H0 & H).
  assert (Hopen : ext (fun d => created d = if ok then [FileInfo.path fi]
                                            else []) w w0).
  { unfold open, io in H0.
    destruct (file_open (FileInfo.path fi) (dev w)) as [d [ok' err']].
    cbn [fst snd] in H0. inversion H0; subst.
    split; [apply (absorb_stable (mkWorld _ _ _))|].
    split; [apply (absorb_cinv (mkWorld _ _ _))|].
    eexists. rewrite absorb_trace. cbn [trace]. split; [reflexivity|].
    destruct ok; reflexivity. }
  cbn [fst snd] in H. destruct ok; cbn [negb] in H.
  - assert (Hq : quiet w0 w').
    { revert H. generalize w0, b, w'.
      change (pc (guard (seek (FileInfo.path fi) 0)
                    (write_failed (FileInfo.offset fi) (FileInfo.size fi))
                    (guard (write_all (FileInfo.path fi) (FileInfo.id fi)
                              (bsize (FileInfo.id fi)))
                       (write_failed (FileInfo.offset fi) (FileInfo.size fi))
                       (guard (resize (FileInfo.path fi) (FileInfo.size fi))
                          (resize_failed (FileInfo.offset fi) (FileInfo.size fi))
                          (guard (seek (FileInfo.path fi) (FileInfo.size fi - 1))
                             (write_failed (FileInfo.offset fi) (FileInfo.size fi))
                             (guard (putChar (FileInfo.path fi) byte_fe)
                                (write_failed (FileInfo.offset fi)
                                   (FileInfo.size fi))
                                (bind (emit (initialized (FileInfo.end_ fi)))
                                   (fun _ => quick_test fi)))))))
                (@quiet D)).
      pose proof pc_seek. pose proof pc_write_all. pose proof pc_resize.
      pose proof pc_putChar. pose proof pc_write_failed.
      pose proof pc_resize_failed. pose proof pc_quick_test.
      quiet_tac. }
    eapply ext_trans; eauto.
    intros d1 d2 E1 E2. left. cbn in E2. now rewrite created_app, E1, E2.
  - apply bind_inv in H as (u & w1 & Hc & Hr).
    apply ret_inv in Hr as [<- ->].
    pose proof (pc_create_failed _ _ _ _ _ _ Hc) as Hq.
    eapply ext_trans; eauto.
    intros d1 d2 E1 E2. right. cbn in E2.
    now rewrite created_app, E1, E2.
Qed.

Lemma init_loop_ext n : forall i (w w' : World D) b,
  for_loop n i initFile w = Some (b, w') ->
  ext (creates (skipn i (paths (file_infos (self w))))) w w'.
Proof.
  induction n as [|n IH]; intros i w w' b H.
  - apply ret_inv in H as [_ ->]. apply quiet_creates, quiet_refl.
  - cbn [for_loop] in H. apply bind_inv in H as (b1 & w1 & H1 & H).
    assert (Hfi : exists fi, nth_error (file_infos (self w)) i = Some fi).
    { unfold initFile in H1. apply bind_inv in H1 as (fi & w0 & H0 & _).
      apply file_at_inv in H0 as [_ H0]. eauto. }
    destruct Hfi as (fi & Hfi).
    pose proof (initFile_ext _ _ _ _ _ Hfi H1) as Hx.
    assert (Hsk : skipn i (paths (file_infos (self w)))
                  = FileInfo.path fi :: skipn (S i) (paths (file_infos (self w)))).
    { apply skipn_nth_error. unfold paths. now rewrite nth_error_map, Hfi. }
    destruct b1.
    + apply IH in H.
      assert (Hl : file_infos (self w1) = file_infos (self w))
        by (destruct Hx as (S & _); apply S).
      rewrite Hl in H.
      eapply ext_trans; eauto.
      intros d1 d2 [E1|[_ ?]] (m & E2); [|discriminate].
      exists (S m). rewrite created_app, E1, E2, Hsk. reflexivity.
    + apply ret_inv in H as [_ ->].
      eapply ext_weaken; eauto.
      intros d [E1|[E1 _]]; [exists 1%nat | exists 0%nat];
        rewrite E1, ?Hsk; reflexivity.
Qed.

Lemma initialize_ext (w w' : World D) b :
  initialize w = Some (b, w') ->
  ext (creates (paths (file_infos (self w)))) w w'.
Proof.
  unfold initialize. intros H. rewrite gets_eq in H.
  apply bind_inv in H as (u & w1 & H1 & H).
  apply pc_emit in H1. rewrite gets_eq in H.
  assert (Hl : file_infos (self w1) = file_infos (self w))
    by now apply quiet_file_infos.
  apply bind_inv in H as (ok & w2 & H2 & H).
  apply init_loop_ext in H2. rewrite Hl in H2. cbn [skipn] in H2.
  eapply quiet_then; [exact H1|].
  destruct ok.
  - eapply then_quiet; [exact H2|].
    eapply (pc_for_loop recheckFile); eauto. intros. apply pc_recheckFile.
  - apply ret_inv in H as [_ ->]. exact H2.
Qed.

Lemma run_tests_ext (w w' : World D) b :
  run_tests w = Some (b, w') ->
  ext (creates (paths (file_infos (self w)))) w w'.
Proof.
  unfold run_tests. intros H.
  apply bind_inv in H as (i & w1 & H1 & H).
  apply initialize_ext in H1.
  destruct i.
  - apply bind_inv in H as (wr & w2 & H2 & H).
    apply pc_writeFull in H2.
    eapply then_quiet; [exact H1|]. eapply quiet_trans; [exact H2|].
    destruct wr.
    + eapply pc_verifyFull; eauto.
    + apply ret_inv in H as [_ ->]. apply quiet_refl.
  - apply ret_inv in H as [_ ->]. exact H1.
Qed.

End Created.

(** What C8 says of a test that began in [w0], had its plan made in [w1]
    and came out of its three phases in [w2] with the outcome [ok]. *)
Definition cleanup_spec {D : Type} {E : Env D}
  (w0 w1 w2 : World D) (ok : bool) : Prop :=
  let plan := file_infos (self w1) in
  exists w3 oks delta m,
    start w0 = Some (tt, w3) /\
    trace w2 = trace w1 ++ delta /\
    created delta = firstn m (paths plan) /\
    length oks = length plan /\
    trace w3 = trace w2 ++
      [Emit (result_signal ok (error_type (self w2))); Emit finished] ++
      removals (rev (paths plan)) oks /\
    file_infos (self w3) = [].

(** C8, as amended: whatever the outcome of the three phases (success,
    failure or cancellation), the files the test created are the first
    files of the plan, in the plan's order, and once the outcome has been
    signalled the cleanup asks for the removal of every file of the plan,
    last file first, so of every created file in reverse creation order;
    what the removals answer is ignored and changes neither the events
    before them nor what follows; after the cleanup the plan's file list is
    empty. *)
Theorem cleanup_after_run {D : Type} {E : Env D}
  (w0 w1 w2 : World D) (ok : bool) :
  start_setup w0 = Some (true, w1) ->
  run_tests w1 = Some (ok, w2) ->
  cleanup_spec w0 w1 w2 ok.
Proof.
  intros Hs Hr.
  pose proof (run_tests_ext _ _ _ Hr) as (S & _ & delta & Hd & m & Hm).
  assert (Hl : file_infos (self w2) = file_infos (self w1)) by apply S.
  destruct (run_and_cleanup_spec _ _ _ Hr)
    as (w3 & oks & Hrc & Hlen & Htr & Hnil & _).
  rewrite Hl in *.
  exists w3, oks, delta, m. repeat split; auto.
  unfold start. now rewrite (bind_eq _ _ _ _ _ Hs).
Qed.

Lemma cleanup_after_run_witness :
  start_setup sample_start = Some (true, sample_planned) /\
  run_tests sample_planned = Some (true, after run_tests sample_planned) /\
  cleanup_spec sample_start sample_planned (after run_tests sample_planned) true.
Proof.
  split; [vm_compute; reflexivity|].
  split; [vm_compute; reflexivity|].
  apply (cleanup_after_run sample_start sample_planned
           (after run_tests sample_planned) true);
    vm_compute; reflexivity.
Defined.

(** C8 as the claim has it fails: an empty plan does not mean an empty
    root. A file with the reserved prefix that the test did not create is
    still there after the cleanup; and on a volume that refuses removals
    the three test files are still there, though the test has reported
    success and its plan is empty. *)
Lemma files_remain_after_cleanup :
  (conflictFiles (dev (after start leftover_start))
                 (self (after start leftover_start))
   = Some ["CAPACITYTESTER.bak"%string] /\
   file_infos (self (after start leftover_start)) = []) /\
  (conflictFiles (dev (after start sticky_start))
                 (self (after start sticky_start))
   = Some ["CAPACITYTESTER0"%string; "CAPACITYTESTER1"%string;
           "CAPACITYTESTER2"%string] /\
   file_infos (self (after start sticky_start)) = [] /\
   option_map (fun l => skipn (length l - 5) l) (events (start sticky_start))
   = Some [Emit succeeded; Emit finished;
           Remove "/mnt/CAPACITYTESTER2" false;
           Remove "/mnt/CAPACITYTESTER1" false;
           Remove "/mnt/CAPACITYTESTER0" false]).
Proof. repeat split; vm_compute; reflexivity. Qed.

(** ** Cancellation *)

Section Checkpoints.

Context {D : Type} {E : Env D}.

(** A loop that goes through ends with its last round. *)
Lemma for_loop_last (body : nat -> M D bool) n : forall i (w w' : World D),
  for_loop (S n) i body w = Some (true, w') ->
  exists w1, for_loop n i body w = Some (true, w1) /\
             body (i + n)%nat w1 = Some (true, w').
Proof.
  induction n as [|n IH]; intros i w w' H.
  - cbn [for_loop] in H. apply bind_inv in H as ([|] & w1 & H1 & H).
    + apply ret_inv in H as [_ ->]. exists w. rewrite Nat.add_0_r. auto.
    + apply ret_inv in H as [? _]. discriminate.
  - change (for_loop (S (S n)) i body)
      with (bind (body i) (fun b => if b then for_loop (S n) (S i) body
                                    else ret false)) in H.
    apply bind_inv in H as ([|] & w2 & H2 & H).
    + apply IH in H as (w1 & Hl & Hb). exists w1. split.
      * cbn [for_loop]. now rewrite (bind_eq _ _ _ _ _ H2).
      * now rewrite Nat.add_succ_r.
    + apply ret_inv in H as [? _]. discriminate.
Qed.

Lemma quick_test_not_canceled fi (w w' : World D) :
  quick_test fi w = Some (true, w') -> _canceled (self w') = false.
Proof.
  unfold quick_test. intros H.
  apply guard_true in H as (w1 & _ & H).
  apply guard_true in H as (w2 & _ & H).
  apply guard_true in H as (w3 & _ & H).
  apply guard_true in H as (w4 & _ & H).
  rewrite gets_eq in H. apply ret_inv in H as [H ->].
  unfold abortRequested in H. now destruct (_canceled (self w4)).
Qed.

(** An initialization that goes through on a plan with a file leaves a
    tester that is not canceled: its last quick test ended at a
    checkpoint. *)
Lemma initialize_not_canceled (w w' : World D) :
  initialize w = Some (true, w') ->
  file_infos (self w') <> [] ->
  _canceled (self w') = false.
Proof.
  intros H Hne. unfold initialize in H. rewrite gets_eq in H.
  apply bind_inv in H as (u & w1 & _ & H). rewrite gets_eq in H.
  apply bind_inv in H as ([|] & w2 & H2 & H).
  2:{ apply ret_inv in H as [? _]. discriminate. }
  destruct (file_infos (self w1)) as [|fi l] eqn:Hl.
  - cbn [length for_loop] in H2, H.
    apply ret_inv in H2 as [_ ->]. apply ret_inv in H as [_ ->].
    congruence.
  - cbn [length] in H. apply for_loop_last in H as (w3 & _ & H).
    unfold recheckFile in H. apply bind_inv in H as (fi' & w4 & _ & H).
    now apply quick_test_not_canceled in H.
Qed.

End Checkpoints.

(** What C6, as amended, says of a test that began in [w0], came to its
    tests in [w1] and was found canceled in [wk'], at the checkpoint after
    a block: [start] returns; the classification has the [Aborted] flag;
    the files the test created are the first files of the plan; after the
    events of the block come [failed] with the classification, [finished]
    and the removal of every file of the plan, last file first, each with
    the answer it got, and no other event; the plan is empty in the end. *)
Definition cancel_spec {D : Type} {E : Env D} (w0 w1 wk' : World D) : Prop :=
  let plan := file_infos (self w1) in
  exists w_end oks delta m,
    start w0 = Some (tt, w_end) /\
    has_flag (error_type (self wk')) Error.Aborted = true /\
    file_infos (self wk') = plan /\
    trace wk' = trace w1 ++ delta /\
    created delta = firstn m (paths plan) /\
    length oks = length plan /\
    trace w_end = trace wk' ++
      [Emit (failed (Some (error_type (self wk')))); Emit finished] ++
      removals (rev (paths plan)) oks /\
    file_infos (self w_end) = [].

(** C6, as amended: let a test have come to block [k] of file [f] in the
    writer, and let the tester be canceled at the checkpoint after that
    block, wherever since the checkpoint before it [cancel()] was called
    (while the block was written and flushed, or in the flush between two
    files). Then the round of the block returns [false] and the test ends:
    after the events of the block come [failed] with an error
    classification that has the [Aborted] flag, [finished], and the call
    that removes a file for every file of the plan, last file first, the
    files the test created among them; no block is written after the
    checkpoint, and the plan is empty in the end. What the removals answer
    is not looked at. *)
Theorem cancel_in_writer {D : Type} {E : Env D}
  (w0 w1 wi wk wk' : World D) (f k : nat) (fi : FileInfo.t) (r : bool) :
  start_setup w0 = Some (true, w1) ->
  initialize w1 = Some (true, wi) ->
  writer_until f k wi = Some (true, wk) ->
  nth_error (file_infos (self wk)) f = Some fi ->
  (k < length (FileInfo.blocks fi))%nat ->
  writeBlock f fi k wk = Some (r, wk') ->
  _canceled (self wk') = true ->
  r = false /\ cancel_spec w0 w1 wk'.
Proof.
  intros Hs Hi Hu Hfi Hk Hb Hc'.
  assert (Hr : r = false).
  { destruct r; [|reflexivity].
    apply writeBlock_true in Hb. congruence. }
  subst r. split; [reflexivity|].
  assert (Hw : writeFull wi = Some (false, wk'))
    by (eapply writeFull_stops; eauto).
  assert (Ht : run_tests w1 = Some (false, wk')).
  { unfold run_tests. rewrite (bind_eq _ _ _ _ _ Hi).
    now rewrite (bind_eq _ _ _ _ _ Hw). }
  pose proof (run_tests_ext _ _ _ Ht) as (S & _ & delta & Hd & m & Hm).
  assert (Hl : file_infos (self wk') = file_infos (self w1)) by apply S.
  destruct (run_and_cleanup_spec _ _ _ Ht)
    as (w3 & oks & Hrc & Hlen & Htr & Hnil & _).
  rewrite Hl in Hlen, Htr.
  exists w3, oks, delta, m.
  split; [unfold start; now rewrite (bind_eq _ _ _ _ _ Hs)|].
  split; [|repeat split; assumption].
  pose proof (pc_writer_until _ _ _ _ _ Hu) as Hq.
  pose proof (quiet_file_infos _ _ Hq) as Hli.
  destruct Hq as (_ & Hck & _).
  pose proof (pc_writeBlock _ _ _ _ _ _ Hb) as (_ & Hck' & _).
  apply Hck'; [|exact Hc']. apply Hck. intros Hx.
  rewrite (initialize_not_canceled _ _ Hi) in Hx; [discriminate|].
  rewrite <- Hli. intros Hn. rewrite Hn in Hfi. now destruct f.
Qed.

Lemma cancel_in_writer_witness :
  start_setup cancel_start = Some (true, cancel_planned) /\
  writer_until 0 1 cancel_inited = Some (true, cancel_at_block) /\
  _canceled (self cancel_at_block) = false /\
  _canceled (self cancel_after_block) = true /\
  cancel_spec cancel_start cancel_planned cancel_after_block.
Proof.
  split; [vm_compute; reflexivity|].
  split; [vm_compute; reflexivity|].
  split; [vm_compute; reflexivity|].
  split; [vm_compute; reflexivity|].
  apply (cancel_in_writer cancel_start cancel_planned cancel_inited
           cancel_at_block cancel_after_block 0 1 sample_file0 false);
    vm_compute; (reflexivity || lia).
Defined.

(** C6 as the claim has it fails at its last clause. On a volume that
    refuses removals, let the listener cancel the test at the second
    [written] signal, so between the second and the third block of the
    writer. The round of the second block returns [false] with the tester
    canceled, the test reports [failed] with the [Aborted] flag and
    [finished], and no block is written after the checkpoint; but the
    three removals are refused, and the three files the test created are
    on the volume when [start] has returned. *)
Lemma cancel_leaves_files :
  option_map fst
    (writer_until 0 1
       (after initialize (after start_setup sticky_cancel_start)))
  = Some true /\
  _canceled (self sticky_cancel_at_block) = false /\
  option_map (fun x => (fst x, _canceled (self (snd x))))
    (writeBlock 0 sample_file0 1 sticky_cancel_at_block)
  = Some (false, true) /\
  option_map (fun l => skipn (length l - 6) l)
    (events (start sticky_cancel_start))
  = Some [Emit (written 8);
          Emit (failed (Some Error.Aborted)); Emit finished;
          Remove "/mnt/CAPACITYTESTER2" false;
          Remove "/mnt/CAPACITYTESTER1" false;
          Remove "/mnt/CAPACITYTESTER0" false] /\
  option_map created (events (start sticky_cancel_start))
  = Some ["/mnt/CAPACITYTESTER0"%string; "/mnt/CAPACITYTESTER1"%string;
          "/mnt/CAPACITYTESTER2"%string] /\
  map fst (Mem.files (dev (after start sticky_cancel_start)))
  = ["/mnt/CAPACITYTESTER0"%string; "/mnt/CAPACITYTESTER1"%string;
     "/mnt/CAPACITYTESTER2"%string] /\
  conflictFiles (dev (after start sticky_cancel_start))
                (self (after start sticky_cancel_start))
  = Some ["CAPACITYTESTER0"%string; "CAPACITYTESTER1"%string;
          "CAPACITYTESTER2"%string].
Proof. repeat split; vm_compute; reflexivity. Qed.

(** ** Block data *)

Lemma bsize_firstn (n : Z) (l : QByteArray) :
  0 <= n <= bsize l -> bsize (firstn (Z.to_nat n) l) = n.
Proof. unfold bsize. intros H. rewrite length_firstn. lia. Qed.

(** The data of a planned block: the pattern cut to the block's size,
    with the block's id laid over its beginning when the id fits. *)
Definition block_bytes (t : VolumeTester) (b : BlockInfo.t) : QByteArray :=
  let cut := firstn (Z.to_nat (BlockInfo.size b)) (pattern t) in
  if BlockInfo.size b >=? bsize (BlockInfo.id b)
  then BlockInfo.id b ++ skipn (length (BlockInfo.id b)) cut
  else cut.

Lemma block_bytes_size t b :
  0 < BlockInfo.size b <= bsize (pattern t) ->
  bsize (block_bytes t b) = BlockInfo.size b.
Proof.
  intros H. unfold block_bytes.
  pose proof (bsize_firstn (BlockInfo.size b) (pattern t)) as Hc.
  destruct (BlockInfo.size b >=? bsize (BlockInfo.id b)) eqn:Hge.
  - unfold bsize in *. rewrite length_app, length_skipn.
    apply Z.geb_le in Hge. lia.
  - apply Hc. lia.
Qed.

Lemma blockData_eq t i j fi b :
  nth_error (file_infos t) i = Some fi ->
  nth_error (FileInfo.blocks fi) j = Some b ->
  0 < BlockInfo.size b <= bsize (pattern t) ->
  blockData t i j = Some (block_bytes t b).
Proof.
  intros Hfi Hb Hs. unfold blockData. rewrite Hfi, Hb.
  replace (bsize (pattern t) =? 0) with false
    by (symmetry; apply Z.eqb_neq; lia).
  cbn [negb assert].
  set (cut := if bsize (pattern t) >? BlockInfo.size b
              then shrink (BlockInfo.size b) (pattern t) else pattern t).
  assert (Hcut : cut = firstn (Z.to_nat (BlockInfo.size b)) (pattern t)).
  { unfold cut, shrink. destruct (bsize (pattern t) >? BlockInfo.size b) eqn:Hgt;
      [reflexivity|].
    rewrite Z.gtb_ltb in Hgt. apply Z.ltb_ge in Hgt.
    symmetry. apply firstn_all2. unfold bsize in *. lia. }
  assert (Hlen : bsize cut = BlockInfo.size b).
  { rewrite Hcut. apply bsize_firstn. lia. }
  rewrite Hlen, Z.eqb_refl.
  replace (BlockInfo.size b =? 0) with false
    by (symmetry; apply Z.eqb_neq; lia).
  cbn [negb assert].
  pose proof (block_bytes_size t b Hs) as Hbb.
  unfold block_bytes in *. rewrite <- Hcut in *.
  destruct (BlockInfo.size b >=? bsize (BlockInfo.id b)) eqn:Hge.
  - unfold replace. cbn [Z.to_nat firstn app].
    replace (Z.to_nat (0 + bsize (BlockInfo.id b)))
      with (length (BlockInfo.id b)) by (unfold bsize; lia).
    rewrite Hbb, Z.eqb_refl. reflexivity.
  - rewrite Hlen, Z.eqb_refl. reflexivity.
Qed.

(** C10: for a planned block (one of the plan, of a size that is
    positive and at most the pattern's) whose size is smaller than the
    length of its id, [blockData] returns the pattern cut to the block's
    size, with no byte of the id in it; when the size is at least the id's
    length it returns the whole id followed by the cut pattern's bytes
    from that length on. The id is never laid over in part. *)
Theorem blockData_small_block (t : VolumeTester) (i j : nat)
  (fi : FileInfo.t) (b : BlockInfo.t) :
  nth_error (file_infos t) i = Some fi ->
  nth_error (FileInfo.blocks fi) j = Some b ->
  0 < BlockInfo.size b <= bsize (pattern t) ->
  (BlockInfo.size b < bsize (BlockInfo.id b) ->
   blockData t i j
   = Some (firstn (Z.to_nat (BlockInfo.size b)) (pattern t))) /\
  (bsize (BlockInfo.id b) <= BlockInfo.size b ->
   blockData t i j
   = Some (BlockInfo.id b ++
           skipn (length (BlockInfo.id b))
                 (firstn (Z.to_nat (BlockInfo.size b)) (pattern t)))).
Proof.
  intros Hfi Hb Hs. rewrite (blockData_eq t i j fi b Hfi Hb Hs).
  unfold block_bytes. split; intros H.
  - replace (BlockInfo.size b >=? bsize (BlockInfo.id b)) with false;
      [reflexivity|].
    symmetry. rewrite Z.geb_leb. apply Z.leb_gt. exact H.
  - replace (BlockInfo.size b >=? bsize (BlockInfo.id b)) with true;
      [reflexivity|].
    symmetry. rewrite Z.geb_leb. apply Z.leb_le. exact H.
Qed.

Lemma blockData_small_block_witness :
  nth_error (file_infos (self sample_planned)) 2 = Some sample_file2 /\
  nth_error (FileInfo.blocks sample_file2) 1 = Some sample_block21 /\
  BlockInfo.size sample_block21 < bsize (BlockInfo.id sample_block21) /\
  blockData (self sample_planned) 2 1
  = Some (firstn (Z.to_nat (BlockInfo.size sample_block21))
                 (pattern (self sample_planned))).
Proof.
  split; [vm_compute; reflexivity|].
  split; [vm_compute; reflexivity|].
  split; [vm_compute; reflexivity|].
  apply (blockData_small_block (self sample_planned) 2 1
           sample_file2 sample_block21);
    vm_compute; (reflexivity || (split; congruence)).
Defined.

(** ** The writer's data and the verifier's *)

Section RoundTrip.

Context {D : Type} {E : Env D}.

Lemma guard_inv (c : M D bool) (f : M D unit) (k : M D bool) w r w' :
  guard c f k w = Some (r, w') ->
  exists b w1, c w = Some (b, w1) /\
    ((b = true /\ k w1 = Some (r, w')) \/
     (b = false /\ r = false /\ f w1 = Some (tt, w'))).
Proof.
  unfold guard. intros H. apply bind_inv in H as ([|] & w1 & Hc & Hk).
  - exists true, w1. auto.
  - apply bind_inv in Hk as ([] & w2 & Hf & Hr).
    apply ret_inv in Hr as [<- ->]. exists false, w1. auto.
Qed.

Lemma fsync_inv p (w w' : World D) u :
  fsync p w = Some (u, w') ->
  exists l, trace w' = trace w ++ l /\ writes l = [].
Proof.
  unfold fsync. destruct USE_FSYNC; intros H.
  - apply io_inv in H as (_ & _ & H). eauto.
  - apply ret_inv in H as [_ ->]. exists []. now rewrite app_nil_r.
Qed.

Lemma write_failed_inv o s (w w' : World D) u :
  write_failed o s w = Some (u, w') ->
  trace w' = trace w ++ [Emit (writeFailed o s)].
Proof.
  intros H. destruct (write_failed_eq o s w) as (w1 & H1 & Ht & _).
  congruence.
Qed.

(** Whatever becomes of a block's round, the writer writes the block's
    data to the block's file, once, or nothing. *)
Lemma writeBlock_events i fi j b data (w w' : World D) r :
  nth_error (FileInfo.blocks fi) j = Some b ->
  blockData (self w) i j = Some data ->
  writeBlock i fi j w = Some (r, w') ->
  exists delta, trace w' = trace w ++ delta /\
    (writes delta = [] \/ writes delta = [(FileInfo.path fi, data)]).
Proof.
  intros Hb Hd H. unfold writeBlock in H.
  rewrite (lift_eq _ _ _ _ Hb) in H.
  rewrite (bind_eq _ _ _ _ _ (block_data_eq _ _ _ _ Hd)) in H.
  apply guard_inv in H as (b1 & w1 & H1 & H). apply seek_inv in H1.
  destruct H as [[-> H]|(-> & -> & H)].
  2:{ apply write_failed_inv in H. eexists.
      rewrite H, H1, <- app_assoc. split; [reflexivity|]. left. reflexivity. }
  apply guard_inv in H as (b2 & w2 & H2 & H).
  assert (Hw : exists n, trace w2 = trace w1 ++ [Write (FileInfo.path fi) data n]).
  { unfold write_all in H2. apply bind_inv in H2 as (n & w3 & Hw & Hr).
    apply ret_inv in Hr as [_ ->]. apply io_inv in Hw as (_ & _ & Hw). eauto. }
  destruct Hw as (n & Hw).
  destruct H as [[-> H]|(-> & -> & H)].
  2:{ apply write_failed_inv in H. eexists.
      rewrite H, Hw, H1, <- !app_assoc. split; [reflexivity|].
      right. reflexivity. }
  apply bind_inv in H as (u & w3 & H3 & H).
  apply fsync_inv in H3 as (l & H3 & Hl).
  apply bind_inv in H as (u' & w4 & H4 & H). apply emit_inv in H4 as [H4 _].
  apply bind_inv in H as (c & w5 & H5 & H).
  apply gets_inv in H5 as [_ ->]. apply ret_inv in H as [_ ->].
  eexists. rewrite H4, H3, Hw, H1, <- !app_assoc. split; [reflexivity|].
  right. rewrite !writes_app, Hl. reflexivity.
Qed.

(** A block passes the verifier only when the bytes read are its data. *)
Lemma verifyBlock_true i fi j b data (w w' : World D) :
  nth_error (FileInfo.blocks fi) j = Some b ->
  blockData (self w) i j = Some data ->
  verifyBlock i fi j w = Some (true, w') ->
  trace w' = trace w ++
    [Seek (FileInfo.path fi) (BlockInfo.rel_offset b) true;
     Read (FileInfo.path fi) (BlockInfo.size b) data;
     Emit (verified (BlockInfo.abs_end b))].
Proof.
  intros Hb Hd H. unfold verifyBlock in H.
  rewrite (lift_eq _ _ _ _ Hb) in H.
  rewrite (bind_eq _ _ _ _ _ (block_data_eq _ _ _ _ Hd)) in H.
  apply guard_true in H as (w1 & H1 & H). apply seek_inv in H1.
  apply guard_true in H as (w2 & H2 & H). apply read_is_inv in H2.
  apply bind_inv in H as (u & w3 & H3 & H). apply emit_inv in H3 as [H3 _].
  apply bind_inv in H as (c & w4 & H4 & H).
  apply gets_inv in H4 as [_ ->]. apply ret_inv in H as [_ ->].
  rewrite H3, H2, H1, <- !app_assoc. reflexivity.
Qed.

Lemma quiet_blockData (w w' : World D) i j :
  quiet w w' -> blockData (self w') i j = blockData (self w) i j.
Proof.
  intros ((_ & _ & _ & _ & _ & Hp & Hl) & _).
  unfold blockData. now rewrite Hp, Hl.
Qed.

End RoundTrip.

(** What C2 says of block [j] of file [i], that is [b] of [fi], in a
    run that stands in the world [w] with its plan and pattern made. *)
Definition roundtrip_spec {D : Type} {E : Env D}
  (w : World D) (i j : nat) (fi : FileInfo.t) (b : BlockInfo.t) : Prop :=
  exists data,
    blockData (self w) i j = Some data /\
    bsize data = BlockInfo.size b /\
    (forall w', quiet w w' -> blockData (self w') i j = Some data) /\
    (forall r w1, writeFull w = Some (r, w1) ->
       blockData (self w1) i j = Some data /\
       forall r' w2, verifyFull w1 = Some (r', w2) ->
         blockData (self w2) i j = Some data) /\
    (forall w' r w1, quiet w w' ->
       writeBlock i fi j w' = Some (r, w1) ->
       exists delta, trace w1 = trace w' ++ delta /\
         (writes delta = [] \/ writes delta = [(FileInfo.path fi, data)])) /\
    (forall w' w2, quiet w w' ->
       verifyBlock i fi j w' = Some (true, w2) ->
       trace w2 = trace w' ++
         [Seek (FileInfo.path fi) (BlockInfo.rel_offset b) true;
          Read (FileInfo.path fi) (BlockInfo.size b) data;
          Emit (verified (BlockInfo.abs_end b))]).

(** C2: for every block of the plan (of a size that is positive and at
    most the pattern's), [blockData] returns a byte sequence of exactly the
    block's size, and returns the same sequence whenever it is computed
    again later in the run, in particular after the whole write phase and
    after the whole verify phase: neither touches the pattern or the plan.
    The writer writes that sequence for the block and nothing else, and
    the verifier passes the block only when the bytes it read are that
    same sequence. *)
Theorem blockData_roundtrip {D : Type} {E : Env D}
  (w : World D) (i j : nat) (fi : FileInfo.t) (b : BlockInfo.t) :
  nth_error (file_infos (self w)) i = Some fi ->
  nth_error (FileInfo.blocks fi) j = Some b ->
  0 < BlockInfo.size b <= bsize (pattern (self w)) ->
  roundtrip_spec w i j fi b.
Proof.
  intros Hfi Hb Hs.
  pose proof (blockData_eq _ _ _ _ _ Hfi Hb Hs) as Hd.
  exists (block_bytes (self w) b).
  split; [exact Hd|]. split; [now apply block_bytes_size|].
  split; [|split; [|split]].
  - intros w' Hq. now rewrite (quiet_blockData _ _ _ _ Hq).
  - intros r w1 Hw. pose proof (pc_writeFull _ _ _ Hw) as Hq1.
    split; [now rewrite (quiet_blockData _ _ _ _ Hq1)|].
    intros r' w2 Hv. pose proof (pc_verifyFull _ _ _ Hv) as Hq2.
    now rewrite (quiet_blockData _ _ _ _ Hq2), (quiet_blockData _ _ _ _ Hq1).
  - intros w' r w1 Hq Hw.
    eapply writeBlock_events; eauto.
    now rewrite (quiet_blockData _ _ _ _ Hq).
  - intros w' w2 Hq Hv.
    eapply verifyBlock_true; eauto.
    now rewrite (quiet_blockData _ _ _ _ Hq).
Qed.

Lemma blockData_roundtrip_witness :
  nth_error (file_infos (self sample_inited)) 0 = Some sample_file0 /\
  nth_error (FileInfo.blocks sample_file0) 1 = Some sample_block01 /\
  0 < BlockInfo.size sample_block01 <= bsize (pattern (self sample_inited)) /\
  option_map fst (writeFull sample_inited) = Some true /\
  option_map fst (verifyFull sample_written) = Some true /\
  roundtrip_spec sample_inited 0 1 sample_file0 sample_block01.
Proof.
  split; [vm_compute; reflexivity|].
  split; [vm_compute; reflexivity|].
  split; [vm_compute; split; congruence|].
  split; [vm_compute; reflexivity|].
  split; [vm_compute; reflexivity|].
  apply (blockData_roundtrip sample_inited 0 1 sample_file0 sample_block01);
    vm_compute; (reflexivity || (split; congruence)).
Defined.

(** ** The test pattern *)

(** A step that leaves the pattern as it is. *)
Definition keeps_pattern {D : Type} {A : Type} (c : M D A) : Prop :=
  forall w a w', c w = Some (a, w') -> pattern (self w') = pattern (self w).

Section Pattern.

Context {D : Type} {E : Env D}.

(** [rand()] returns a number from 0 to [RAND_MAX]. *)
Hypothesis rand_nonneg : forall d : D, 0 <= snd (c_rand d).

Lemma rand_bytes_length n : forall d : D, length (snd (rand_bytes n d)) = n.
Proof.
  induction n as [|n IH]; intros d; cbn [rand_bytes]; [reflexivity|].
  destruct (c_rand d) as [d1 r]. specialize (IH d1).
  destruct (rand_bytes n d1) as [d2 rest]. cbn in *. now rewrite IH.
Qed.

Lemma random_byte_range r :
  0 <= r -> 0 < to_uchar (to_int (Z.rem r 254 + 1)) < 255.
Proof.
  intros Hr. rewrite Z.rem_mod_nonneg by lia.
  pose proof (Z.mod_pos_bound r 254 ltac:(lia)) as Hm.
  rewrite to_int_small by lia. unfold to_uchar.
  rewrite Z.mod_small; lia.
Qed.

Lemma rand_bytes_range n : forall d : D,
  Forall (fun b => 0 < b < 255) (snd (rand_bytes n d)).
Proof.
  induction n as [|n IH]; intros d; cbn [rand_bytes]; [constructor|].
  pose proof (rand_nonneg d) as Hr.
  destruct (c_rand d) as [d1 r]. specialize (IH d1).
  destruct (rand_bytes n d1) as [d2 rest]. cbn [snd] in *.
  constructor; [now apply random_byte_range | exact IH].
Qed.

Lemma generateTestPattern_spec (w : World D) :
  0 < block_size_max (self w) <= INT_MAX ->
  exists w1,
    generateTestPattern w = Some (tt, w1) /\
    pattern (self w1)
    = snd (rand_bytes (Z.to_nat (block_size_max (self w))) (c_srand (dev w))) /\
    bsize (pattern (self w1)) = block_size_max (self w) /\
    trace w1 = trace w /\
    self w1 = set_pattern (pattern (self w1)) (self w).
Proof.
  intros Hb. pose proof INT_MAX_eq as HM.
  set (bsm := block_size_max (self w)) in *.
  set (n := Z.to_nat bsm).
  pose proof (rand_bytes_length n (c_srand (dev w))) as Hlen.
  unfold generateTestPattern. rewrite gets_eq. fold bsm.
  rewrite (to_int_small bsm) by lia.
  rewrite check_true by (apply Z.ltb_lt; lia).
  unfold bind at 1. unfold random at 1. fold n.
  destruct (rand_bytes n (c_srand (dev w))) as [d bytes]. cbn [snd] in *.
  unfold bind at 1. unfold modify at 1. rewrite gets_eq.
  cbn [self pattern set_pattern].
  assert (Hsz : bsize bytes = bsm) by (unfold bsize; lia).
  rewrite Hsz, Z.eqb_refl.
  eexists. split; [reflexivity|]. cbn. auto.
Qed.

Lemma keeps_pattern_quiet {A : Type} (c : M D A) :
  pc c (@quiet D) -> keeps_pattern c.
Proof. intros H w a w' Hc. apply (H _ _ _ Hc). Qed.

Lemma make_plan_pattern : keeps_pattern (@make_plan D).
Proof.
  intros w a w' H. unfold make_plan in H.
  rewrite !gets_eq in H. unfold bind at 1 in H. unfold modify at 1 in H.
  apply bind_inv in H as (plan & w1 & H1 & H).
  unfold lift in H1.
  destruct (plan_files _ _ _ _ _); [|discriminate].
  inversion H1; subst. inversion H; subst. reflexivity.
Qed.

Lemma run_and_cleanup_pattern : keeps_pattern (@run_and_cleanup D E).
Proof.
  intros w a w' H. unfold run_and_cleanup in H.
  apply bind_inv in H as (ok & w2 & Hr & H).
  destruct (run_and_cleanup_spec _ _ _ Hr) as (w3 & oks & Hrc & _ & _ & _ & Hp).
  unfold run_and_cleanup in Hrc. rewrite (bind_eq _ _ _ _ _ Hr) in Hrc.
  assert (w3 = w') by congruence. subst w3. rewrite Hp.
  apply run_tests_ext in Hr. apply Hr.
Qed.

End Pattern.

(** What C3 says of the pattern made in the world [w]. *)
Definition pattern_spec {D : Type} {E : Env D} (w : World D) : Prop :=
  (exists w1,
     generateTestPattern w = Some (tt, w1) /\
     bsize (pattern (self w1)) = block_size_max (self w) /\
     Forall (fun b => 0 < b < 255) (pattern (self w1))) /\
  keeps_pattern (@make_plan D) /\
  keeps_pattern (@initialize D E) /\
  keeps_pattern (@writeFull D E) /\
  keeps_pattern (@verifyFull D E) /\
  keeps_pattern (@run_and_cleanup D E).

(** C3: with a block size that fits an [int] (the constructor's does),
    and [rand()] never negative, [generateTestPattern] makes a pattern of
    exactly [block_size_max] bytes, each strictly between 0 and 255; and
    what [start] does after it leaves the pattern, so its length, as it
    is: the making of the plan, the three phases, the report and the
    cleanup. *)
Theorem generateTestPattern_bytes {D : Type} {E : Env D} (w : World D) :
  (forall d : D, 0 <= snd (c_rand d)) ->
  0 < block_size_max (self w) <= INT_MAX ->
  pattern_spec w.
Proof.
  intros Hr Hb. split; [|split; [|split; [|split; [|split]]]].
  - destruct (generateTestPattern_spec w Hb) as (w1 & H1 & H2 & H3 & _).
    exists w1. split; [exact H1|]. split; [exact H3|].
    rewrite H2. now apply rand_bytes_range.
  - apply make_plan_pattern.
  - intros w0 a w' H. apply initialize_ext in H. apply H.
  - apply keeps_pattern_quiet, pc_writeFull.
  - apply keeps_pattern_quiet, pc_verifyFull.
  - apply run_and_cleanup_pattern.
Qed.

Lemma mem_rand_nonneg : forall d : Mem.t, 0 <= snd (c_rand d).
Proof.
  intros d. cbn. apply Z.mod_pos_bound. reflexivity.
Qed.

Lemma generateTestPattern_bytes_witness :
  0 < block_size_max (self sample_start) <= INT_MAX /\
  pattern_spec sample_start.
Proof.
  split; [vm_compute; split; congruence|].
  apply (generateTestPattern_bytes sample_start mem_rand_nonneg).
  vm_compute; split; congruence.
Defined.

(** ** Runs that do not abort *)

(** The plan and the pattern fit: the blocks of the plan have sizes that
    are positive and at most the pattern's. *)
Definition wf (t : VolumeTester) : Prop :=
  forall i fi j b,
    nth_error (file_infos t) i = Some fi ->
    nth_error (FileInfo.blocks fi) j = Some b ->
    0 < BlockInfo.size b <= bsize (pattern t).

(** A property of the tester that a run which leaves plan and pattern
    alone cannot break. *)
Definition lasting (P : VolumeTester -> Prop) : Prop :=
  forall t t', stable t t' -> P t -> P t'.

Section Safe.

Context {D : Type} {E : Env D}.

(** From a tester with [P], the step [c] does not abort. *)
Definition safe (P : VolumeTester -> Prop) {A : Type} (c : M D A) : Prop :=
  forall w, P (self w) -> exists a w', c w = Some (a, w').

(** The step [c] leaves plan and pattern alone. *)
Definition keeps {A : Type} (c : M D A) : Prop :=
  pc c (fun w w' => stable (self w) (self w')).

Lemma keeps_quiet {A : Type} (c : M D A) : pc c (@quiet D) -> keeps c.
Proof. intros H w a w' Hc. apply (H _ _ _ Hc). Qed.

Lemma keeps_bind {A B : Type} (c : M D A) (k : A -> M D B) :
  keeps c -> (forall a, keeps (k a)) -> keeps (bind c k).
Proof.
  intros Hc Hk w b w' H. apply bind_inv in H as (a & w1 & H1 & H2).
  eapply stable_trans; [eapply Hc | eapply Hk]; eauto.
Qed.

Lemma keeps_for_loop (body : nat -> M D bool) n :
  (forall i, keeps (body i)) -> forall i, keeps (for_loop n i body).
Proof.
  intros Hb. induction n as [|n IH]; intros i; cbn [for_loop].
  - apply keeps_quiet, pc_ret.
  - apply keeps_bind; [apply Hb|].
    intros [|]; [apply IH | apply keeps_quiet, pc_ret].
Qed.

Lemma wf_lasting : lasting wf.
Proof.
  intros t t' (_ & _ & _ & _ & _ & Hp & Hl) H i fi j b Hfi Hb.
  rewrite Hp. rewrite Hl in Hfi. eauto.
Qed.

Lemma safe_always {A : Type} (P : VolumeTester -> Prop) (c : M D A) :
  (forall w, exists a w', c w = Some (a, w')) -> safe P c.
Proof. intros H w _. apply H. Qed.

Lemma safe_ret {A : Type} P (a : A) : safe P (ret a).
Proof. apply safe_always. intros w. unfold ret. eauto. Qed.

Lemma safe_gets {A : Type} P (f : VolumeTester -> A) : safe P (gets f).
Proof. apply safe_always. intros w. unfold gets. eauto. Qed.

Lemma safe_modify P f : safe P (modify f).
Proof. apply safe_always. intros w. unfold modify. eauto. Qed.

Lemma safe_io {A : Type} P (op : D -> D * A) (ev : A -> Event) :
  safe P (io op ev).
Proof. apply safe_always. intros w. rewrite io_eq. eauto. Qed.

Lemma safe_emit P (s : Signal) : safe P (emit s).
Proof. apply safe_always. intros w. unfold emit. eauto. Qed.

Lemma safe_fsync P p : safe P (fsync p).
Proof. unfold fsync. destruct USE_FSYNC; [apply safe_io | apply safe_ret]. Qed.

Lemma safe_bind {A B : Type} P (c : M D A) (k : A -> M D B) :
  lasting P -> safe P c -> keeps c -> (forall a, safe P (k a)) ->
  safe P (bind c k).
Proof.
  intros HP Hc Hkc Hk w Hw.
  destruct (Hc w Hw) as (a & w1 & H1).
  rewrite (bind_eq _ _ _ _ _ H1). apply Hk.
  eapply HP; [eapply Hkc; eauto | exact Hw].
Qed.

Lemma safe_guard P (c : M D bool) (f : M D unit) (k : M D bool) :
  lasting P -> safe P c -> keeps c -> safe P f -> keeps f -> safe P k ->
  safe P (guard c f k).
Proof.
  intros HP Hc Hkc Hf Hkf Hk. unfold guard.
  apply safe_bind; auto. intros [|]; [exact Hk|].
  apply safe_bind; auto. intros _. apply safe_ret.
Qed.

Lemma safe_for_loop P (body : nat -> M D bool) n :
  lasting P -> (forall j, keeps (body j)) ->
  forall i, (forall j, (i <= j < i + n)%nat -> safe P (body j)) ->
  safe P (for_loop n i body).
Proof.
  intros HP Hk. induction n as [|n IH]; intros i Hb; cbn [for_loop].
  - apply safe_ret.
  - apply safe_bind; auto; [apply Hb; lia|].
    intros [|]; [|apply safe_ret]. apply IH. intros j Hj. apply Hb. lia.
Qed.

Lemma safe_failed P (f : Z) (s : Signal) :
  lasting P -> safe P (bind (modify (or_error f)) (fun _ => emit s)).
Proof.
  intros HP. apply safe_bind; auto using safe_modify, safe_emit.
  apply keeps_quiet, pc_or_error.
Qed.

(** Takes a step apart to show that it does not abort. *)
Ltac safe_step :=
  match goal with
  | |- safe _ (bind (modify (or_error _)) (fun _ => emit _)) =>
      apply safe_failed
  | |- safe _ (guard _ _ _) => apply safe_guard
  | |- safe _ (bind _ _) => apply safe_bind
  | |- safe _ (fsync _) => apply safe_fsync
  | |- safe _ (io _ _) => apply safe_io
  | |- safe _ (emit _) => apply safe_emit
  | |- safe _ (modify _) => apply safe_modify
  | |- safe _ (gets _) => apply safe_gets
  | |- safe _ (ret _) => apply safe_ret
  | |- safe _ (if ?b then _ else _) => destruct b
  | |- keeps _ => apply keeps_quiet; solve [quiet_tac]
  | |- lasting _ => assumption
  | |- forall _, _ => intro
  end.

Ltac safe_tac :=
  unfold write_all, getChar_is, read_is, write_failed, resize_failed,
    verify_failed, create_failed, open, seek, write, resize, putChar,
    getChar, read;
  repeat safe_step.

Lemma safe_quick_test P fi : lasting P -> safe P (quick_test fi).
Proof. intros HP. unfold quick_test. safe_tac. Qed.

Lemma keeps_initFile i : keeps (initFile i).
Proof.
  intros w b w' H.
  assert (Hfi : exists fi, nth_error (file_infos (self w)) i = Some fi).
  { unfold initFile in H. apply bind_inv in H as (fi & w0 & H0 & _).
    apply file_at_inv in H0 as [_ H0]. eauto. }
  destruct Hfi as (fi & Hfi). apply (initFile_ext _ _ _ _ _ Hfi H).
Qed.

(** The rounds of the three phases, for a file [fi] that is file [i] of
    the plan. *)
Definition at_file (i : nat) (fi : FileInfo.t) (t : VolumeTester) : Prop :=
  wf t /\ nth_error (file_infos t) i = Some fi.

Lemma at_file_lasting i fi : lasting (at_file i fi).
Proof.
  intros t t' S [H1 H2]. split; [eapply wf_lasting; eauto|].
  destruct S as (_ & _ & _ & _ & _ & _ & Hl). now rewrite Hl.
Qed.

Lemma safe_initFile i fi : safe (at_file i fi) (initFile i).
Proof.
  pose proof (at_file_lasting i fi) as HP.
  unfold initFile. intros w Hw. pose proof Hw as [_ Hfi].
  rewrite (bind_eq _ _ _ _ _ (file_at_eq _ _ _ Hfi)). clear Hfi.
  match goal with
  | |- exists a w', ?c w = _ => revert w Hw; change (safe (at_file i fi) c)
  end.
  apply safe_bind; auto; [apply safe_io | |].
  - intros w r w' H. unfold open, io in H.
    destruct (file_open (FileInfo.path fi) (dev w)) as [d x].
    inversion H; subst. apply (absorb_stable (mkWorld _ _ _)).
  - intros [ok err]. cbn [fst snd]. destruct ok; cbn [negb].
    + unfold quick_test. safe_tac.
    + safe_tac.
Qed.

Lemma safe_recheckFile i fi : safe (at_file i fi) (recheckFile i).
Proof.
  pose proof (at_file_lasting i fi) as HP.
  unfold recheckFile. intros w Hw. pose proof Hw as [_ Hfi].
  rewrite (bind_eq _ _ _ _ _ (file_at_eq _ _ _ Hfi)).
  exact (safe_quick_test _ fi HP w Hw).
Qed.

Lemma safe_block_data i fi j b :
  nth_error (FileInfo.blocks fi) j = Some b ->
  safe (at_file i fi) (block_data i j).
Proof.
  intros Hb w [Hwf Hfi].
  erewrite block_data_eq; [eauto|].
  apply (blockData_eq _ _ _ _ _ Hfi Hb). eapply Hwf; eauto.
Qed.

Lemma safe_writeBlock i fi j :
  (j < length (FileInfo.blocks fi))%nat ->
  safe (at_file i fi) (writeBlock i fi j).
Proof.
  intros Hj. pose proof (at_file_lasting i fi) as HP.
  destruct (nth_error (FileInfo.blocks fi) j) as [b|] eqn:Hb.
  2:{ apply nth_error_None in Hb. lia. }
  unfold writeBlock. rewrite Hb.
  intros w Hw. rewrite (lift_eq _ _ _ _ eq_refl).
  match goal with
  | |- exists a w', ?c w = _ => revert w Hw; change (safe (at_file i fi) c)
  end.
  apply safe_bind; auto;
    [apply (safe_block_data i fi j b Hb) | apply keeps_quiet, pc_block_data|].
  intros data. safe_tac.
Qed.

Lemma safe_verifyBlock i fi j :
  (j < length (FileInfo.blocks fi))%nat ->
  safe (at_file i fi) (verifyBlock i fi j).
Proof.
  intros Hj. pose proof (at_file_lasting i fi) as HP.
  destruct (nth_error (FileInfo.blocks fi) j) as [b|] eqn:Hb.
  2:{ apply nth_error_None in Hb. lia. }
  unfold verifyBlock. rewrite Hb.
  intros w Hw. rewrite (lift_eq _ _ _ _ eq_refl).
  match goal with
  | |- exists a w', ?c w = _ => revert w Hw; change (safe (at_file i fi) c)
  end.
  apply safe_bind; auto;
    [apply (safe_block_data i fi j b Hb) | apply keeps_quiet, pc_block_data|].
  intros data. safe_tac.
Qed.

End Safe.

Section SafePhases.

Context {D : Type} {E : Env D}.

Lemma safe_weaken {A : Type} (P Q : VolumeTester -> Prop) (c : M D A) :
  (forall t, Q t -> P t) -> safe P c -> safe Q c.
Proof. intros H Hc w Hw. apply Hc, H, Hw. Qed.

(** A loop over the files of the plan does not abort when its rounds do
    not. *)
Lemma safe_file_loop (body : nat -> M D bool) :
  (forall i, keeps (body i)) ->
  (forall i fi, safe (at_file i fi) (body i)) ->
  forall w : World D, wf (self w) ->
    exists b w',
      for_loop (length (file_infos (self w))) 0 body w = Some (b, w').
Proof.
  intros Hk Hb w Hw.
  set (P := fun t => wf t /\ file_infos t = file_infos (self w)).
  assert (HP : lasting P).
  { intros t t' S [H1 H2]. split; [eapply wf_lasting; eauto|].
    destruct S as (_ & _ & _ & _ & _ & _ & Hl). congruence. }
  apply (safe_for_loop P body _ HP Hk 0%nat); [|split; auto].
  intros j Hj.
  destruct (nth_error (file_infos (self w)) j) as [fi|] eqn:Hfi.
  2:{ apply nth_error_None in Hfi. lia. }
  apply (safe_weaken (at_file j fi)); [|apply Hb].
  intros t [H1 H2]. split; [exact H1 | congruence].
Qed.

Lemma safe_writeFile i fi : safe (at_file i fi) (writeFile i).
Proof.
  pose proof (at_file_lasting i fi) as HP.
  unfold writeFile. intros w Hw. pose proof Hw as [_ Hfi].
  rewrite (bind_eq _ _ _ _ _ (file_at_eq _ _ _ Hfi)). clear Hfi.
  match goal with
  | |- exists a w', ?c w = _ => revert w Hw; change (safe (at_file i fi) c)
  end.
  apply safe_bind; auto; [apply safe_fsync | apply keeps_quiet, pc_fsync|].
  intros _. apply safe_for_loop; auto.
  - intros j. apply keeps_quiet, pc_writeBlock.
  - intros j Hj. apply safe_writeBlock. lia.
Qed.

Lemma safe_verifyFile i fi : safe (at_file i fi) (verifyFile i).
Proof.
  pose proof (at_file_lasting i fi) as HP.
  unfold verifyFile. intros w Hw. pose proof Hw as [_ Hfi].
  rewrite (bind_eq _ _ _ _ _ (file_at_eq _ _ _ Hfi)). clear Hfi.
  match goal with
  | |- exists a w', ?c w = _ => revert w Hw; change (safe (at_file i fi) c)
  end.
  apply safe_bind; auto; [apply safe_fsync | apply keeps_quiet, pc_fsync|].
  intros _. apply safe_for_loop; auto.
  - intros j. apply keeps_quiet, pc_verifyBlock.
  - intros j Hj. apply safe_verifyBlock. lia.
Qed.

Lemma writeFull_total (w : World D) :
  wf (self w) -> exists b w', writeFull w = Some (b, w').
Proof.
  intros Hw. unfold writeFull.
  destruct (emit_total writeStarted w) as (w1 & H1).
  rewrite (bind_eq _ _ _ _ _ H1), gets_eq.
  apply safe_file_loop.
  - intros i. apply keeps_quiet, pc_writeFile.
  - apply safe_writeFile.
  - eapply wf_lasting; [|exact Hw]. eapply (keeps_quiet _ (pc_emit _)); eauto.
Qed.

Lemma verifyFull_total (w : World D) :
  wf (self w) -> exists b w', verifyFull w = Some (b, w').
Proof.
  intros Hw. unfold verifyFull.
  destruct (emit_total verifyStarted w) as (w1 & H1).
  rewrite (bind_eq _ _ _ _ _ H1), gets_eq.
  apply safe_file_loop.
  - intros i. apply keeps_quiet, pc_verifyFile.
  - apply safe_verifyFile.
  - eapply wf_lasting; [|exact Hw]. eapply (keeps_quiet _ (pc_emit _)); eauto.
Qed.

(** The initializer begins with [initializationStarted] and does not
    abort. *)
Lemma initialize_total (w : World D) :
  wf (self w) ->
  exists b w' rest,
    initialize w = Some (b, w') /\
    trace w' = trace w ++
      Emit (initializationStarted (bytes_total (self w))) :: rest.
Proof.
  intros Hw. unfold initialize. rewrite gets_eq.
  destruct (emit_total (initializationStarted (bytes_total (self w))) w)
    as (w1 & H1).
  rewrite (bind_eq _ _ _ _ _ H1), gets_eq.
  pose proof (keeps_quiet _ (pc_emit _) _ _ _ H1) as S1.
  assert (Hw1 : wf (self w1)) by exact (wf_lasting _ _ S1 Hw).
  apply emit_inv in H1 as [Ht1 _].
  destruct (safe_file_loop initFile keeps_initFile safe_initFile w1 Hw1)
    as (ok & w2 & H2).
  rewrite (bind_eq _ _ _ _ _ H2).
  pose proof (keeps_for_loop initFile _ keeps_initFile _ _ _ _ H2) as S2.
  apply init_loop_ext in H2 as (_ & _ & d2 & Ht2 & _).
  destruct ok.
  - assert (Hw2 : wf (self w2)) by exact (wf_lasting _ _ S2 Hw1).
    assert (Hl : file_infos (self w2) = file_infos (self w1)) by apply S2.
    rewrite <- Hl.
    destruct (safe_file_loop recheckFile
                (fun i => keeps_quiet _ (pc_recheckFile i))
                safe_recheckFile w2 Hw2) as (b & w3 & H3).
    exists b, w3. rewrite H3.
    apply (pc_for_loop recheckFile) in H3 as (_ & _ & d3 & Ht3 & _);
      [|intros; apply pc_recheckFile].
    exists (d2 ++ d3). split; [reflexivity|].
    rewrite Ht3, Ht2, Ht1, <- !app_assoc. reflexivity.
  - exists false, w2, d2. split; [reflexivity|].
    rewrite Ht2, Ht1, <- !app_assoc. reflexivity.
Qed.

(** With a plan and a pattern that fit, the three phases come to an end,
    and their first event is [initializationStarted]. *)
Lemma run_tests_total (w : World D) :
  wf (self w) ->
  exists ok w' rest,
    run_tests w = Some (ok, w') /\
    trace w' = trace w ++
      Emit (initializationStarted (bytes_total (self w))) :: rest.
Proof.
  intros Hw. unfold run_tests.
  destruct (initialize_total w Hw) as (i & w1 & r1 & H1 & Ht1).
  rewrite (bind_eq _ _ _ _ _ H1).
  assert (Hw1 : wf (self w1)).
  { eapply wf_lasting; [|exact Hw]. apply initialize_ext in H1. apply H1. }
  destruct i.
  2:{ exists false, w1, r1. auto. }
  destruct (writeFull_total w1 Hw1) as (wr & w2 & H2).
  rewrite (bind_eq _ _ _ _ _ H2).
  pose proof (pc_writeFull _ _ _ H2) as (S2 & _ & d2 & Ht2 & _).
  assert (Hw2 : wf (self w2)) by exact (wf_lasting _ _ S2 Hw1).
  destruct wr.
  2:{ exists false, w2, (r1 ++ d2). split; [reflexivity|].
      rewrite Ht2, Ht1, <- app_assoc. reflexivity. }
  destruct (verifyFull_total w2 Hw2) as (v & w3 & H3).
  pose proof (pc_verifyFull _ _ _ H3) as (_ & _ & d3 & Ht3 & _).
  exists v, w3, (r1 ++ d2 ++ d3). split; [exact H3|].
  rewrite Ht3, Ht2, Ht1, <- !app_assoc. reflexivity.
Qed.

End SafePhases.

(** ** Tests that begin, and conflict files *)

Section Begin.

Context {D : Type} {E : Env D}.

Lemma make_plan_spec (w : World D) plan :
  plan_files (file_size_max (self w)) (block_size_max (self w))
    (file_prefix (self w)) (mountpoint (self w)) (bytes_total (self w))
  = Some plan ->
  make_plan w
  = Some (tt, mkWorld (dev w) (trace w)
                (set_file_infos plan (set_file_infos [] (self w)))).
Proof.
  intros H. unfold make_plan. rewrite !gets_eq.
  unfold bind, modify, lift. cbn [self set_file_infos]. now rewrite H.
Qed.

(** The plan of the ideal files fits a pattern of [bsm] bytes. *)
Lemma plan_blocks_fit fsm bsm bytes fs i fi j b :
  plan_ok bytes fsm bsm fs ->
  nth_error fs i = Some fi ->
  nth_error (FileInfo.blocks fi) j = Some b ->
  0 < BlockInfo.size b <= bsm.
Proof.
  intros (_ & _ & Hf & _) Hfi Hb.
  destruct (Hf _ _ Hfi) as (_ & _ & _ & (_ & _ & Hbl & _)).
  apply (Hbl _ _ Hb).
Qed.

(** On a valid mountpoint with bytes available, and sizes and counts
    that fit an [int], [start] comes to its tests: no signal is emitted,
    the plan covers the bytes available and fits the pattern. *)
Lemma start_setup_begins (w : World D) :
  isValid (dev w) (self w) = true ->
  config_ok (self w) ->
  file_size_max (self w) <= INT_MAX ->
  0 < bytesAvailable (dev w) (self w)
    <= INT_MAX * file_size_max (self w) ->
  exists w1,
    start_setup w = Some (true, w1) /\
    trace w1 = trace w /\
    bytes_total (self w1) = bytesAvailable (dev w) (self w) /\
    wf (self w1) /\
    plan_ok (bytesAvailable (dev w) (self w)) (file_size_max (self w))
      (block_size_max (self w)) (file_infos (self w1)).
Proof.
  intros Hv Hc Hf Ha.
  pose proof Hc as (B1 & _ & _ & _ & B2).
  apply config_checks in Hc as (C1 & C2 & C3).
  set (avail := bytesAvailable (dev w) (self w)) in *.
  set (fsm := file_size_max (self w)) in *.
  set (bsm := block_size_max (self w)) in *.
  set (wb := mkWorld (dev w) (trace w) (set_bytes avail 0 avail (self w))).
  destruct (generateTestPattern_spec wb) as (wg & Hg & _ & Hsz & Htr & Hself).
  { change (0 < bsm <= INT_MAX). lia. }
  change (block_size_max (self wb)) with bsm in Hsz.
  assert (Hplan : plan_files (file_size_max (self wg)) (block_size_max (self wg))
                    (file_prefix (self wg)) (mountpoint (self wg))
                    (bytes_total (self wg))
                  = Some (map (the_file fsm bsm (file_prefix (self w))
                                 (mountpoint (self w)) avail)
                              (zseq 0 (Z.to_nat (part_count avail fsm))))).
  { rewrite Hself.
    change (plan_files fsm bsm (file_prefix (self w)) (mountpoint (self w))
              avail = Some (map (the_file fsm bsm (file_prefix (self w))
                                   (mountpoint (self w)) avail)
                                (zseq 0 (Z.to_nat (part_count avail fsm))))).
    apply plan_files_eq; lia. }
  pose proof (the_files_plan_ok fsm bsm (file_prefix (self w))
                (mountpoint (self w)) B1 B2 avail (proj1 Ha)) as Hok.
  eexists. split.
  - unfold start_setup. unfold bind at 1. unfold query at 1. rewrite Hv.
    cbn [negb]. rewrite !gets_eq.
    rewrite (check_true _ _ _ C1), (check_true _ _ _ C2), (check_true _ _ _ C3).
    unfold bind at 1. unfold query at 1. fold avail.
    unfold bind at 1. unfold modify at 1. fold wb.
    replace (avail <=? 0) with false by (symmetry; apply Z.leb_gt; lia).
    rewrite (bind_eq _ _ _ _ _ Hg), gets_eq.
    rewrite check_true by (rewrite Hsz; apply Z.eqb_refl).
    rewrite (bind_eq _ _ _ _ _ (make_plan_spec _ _ Hplan)).
    reflexivity.
  - cbn [trace self]. split; [exact Htr|]. split; [now rewrite Hself|].
    split; [|exact Hok].
    intros i fi j b Hfi Hb. cbn in Hfi |- *. rewrite Hsz.
    eapply plan_blocks_fit; eauto.
Qed.

Lemma conflictFiles_spec (d : D) (t : VolumeTester) :
  file_prefix t <> ""%string ->
  exists l,
    conflictFiles d t = Some l /\
    forall name,
      In name l <->
      In name (rootFiles d t) /\ startsWith name (file_prefix t) = true.
Proof.
  intros Hp. unfold conflictFiles.
  replace (String.eqb (file_prefix t) "") with false
    by (symmetry; now apply String.eqb_neq).
  cbn [negb assert]. eexists. split; [reflexivity|].
  intros name.
  exact (filter_In (fun n => startsWith n (file_prefix t)) name
           (rootFiles d t)).
Qed.

End Begin.

(** What C9, as amended, says of [start] in the world [w]. *)
Definition conflict_spec {D : Type} {E : Env D} (w : World D) : Prop :=
  (exists l,
     conflictFiles (dev w) (self w) = Some l /\
     forall name,
       In name l <->
       In name (rootFiles (dev w) (self w)) /\
       startsWith name (file_prefix (self w)) = true) /\
  (exists w1 ok w2 w3 rest,
     start_setup w = Some (true, w1) /\
     trace w1 = trace w /\
     run_tests w1 = Some (ok, w2) /\
     trace w2 = trace w ++
       Emit (initializationStarted (bytesAvailable (dev w) (self w))) :: rest /\
     start w = Some (tt, w3)).

(** C9, as amended: the conflict list holds exactly the entries of the
    target root whose name begins with the reserved prefix (a directory
    under its name with a slash), so every such file is reported. [start]
    does not look at the list: on a valid mountpoint with bytes available
    (and sizes and counts that fit an [int]) it makes its plan, begins the
    test with [initializationStarted] and runs it to the end, whether or
    not there are conflict files. Keeping the list empty before a test is
    left to the caller. *)
Theorem start_ignores_conflicts {D : Type} {E : Env D} (w : World D) :
  file_prefix (self w) <> ""%string ->
  isValid (dev w) (self w) = true ->
  config_ok (self w) ->
  file_size_max (self w) <= INT_MAX ->
  0 < bytesAvailable (dev w) (self w)
    <= INT_MAX * file_size_max (self w) ->
  conflict_spec w.
Proof.
  intros Hp Hv Hc Hf Ha. split; [now apply conflictFiles_spec|].
  destruct (start_setup_begins w Hv Hc Hf Ha) as (w1 & Hs & Ht & Hb & Hw & _).
  destruct (run_tests_total w1 Hw) as (ok & w2 & rest & Hr & Htr).
  destruct (run_and_cleanup_spec _ _ _ Hr) as (w3 & oks & Hrc & _).
  exists w1, ok, w2, w3, rest.
  split; [exact Hs|]. split; [exact Ht|]. split; [exact Hr|].
  split; [now rewrite Htr, Ht, Hb|].
  unfold start. now rewrite (bind_eq _ _ _ _ _ Hs).
Qed.

Lemma start_ignores_conflicts_witness :
  conflictFiles (dev leftover_start) (self leftover_start)
  = Some ["CAPACITYTESTER.bak"%string] /\
  conflict_spec leftover_start.
Proof.
  split; [vm_compute; reflexivity|].
  apply (start_ignores_conflicts leftover_start);
    try (vm_compute; (reflexivity || congruence)).
  - repeat split; vm_compute; congruence.
  - split; vm_compute; congruence.
Defined.

(** C9 as the claim has it fails: with a file of an earlier test in the
    root, and one that even bears the name of the first test file,
    [start] begins its test all the same; it opens the old file as its
    own. *)
Lemma start_with_conflicts :
  conflictFiles (dev clash_start) (self clash_start)
  = Some ["CAPACITYTESTER0"%string] /\
  option_map (firstn 3) (events (start clash_start))
  = Some [Emit (initializationStarted 21);
          Open "/mnt/CAPACITYTESTER0" true 0;
          Seek "/mnt/CAPACITYTESTER0" 0 true] /\
  option_map (fun l => skipn (length l - 5) l) (events (start clash_start))
  = Some [Emit succeeded; Emit finished;
          Remove "/mnt/CAPACITYTESTER2" true;
          Remove "/mnt/CAPACITYTESTER1" true;
          Remove "/mnt/CAPACITYTESTER0" true].
Proof. repeat split; vm_compute; reflexivity. Qed.

(** * Further properties of the tester *)

From Stdlib Require DecimalPos DecimalZ.
From Stdlib Require Import Sorted.

(** ** Relations that hold along a run

    A relation between the worlds of a run that holds across every
    step: it is reflexive and transitive, it holds across an event that
    is [okev] (with the call of [cancel()] that may come in during it)
    and across a change of the tester's fields that is [okmod]. *)

Class Along {D : Type} {E : Env D}
  (okev : Event -> Prop) (okmod : (VolumeTester -> VolumeTester) -> Prop)
  (R : World D -> World D -> Prop) : Prop := {
  along_refl : forall w, R w w;
  along_trans : forall w1 w2 w3, R w1 w2 -> R w2 w3 -> R w1 w3;
  along_event : forall w d e,
    okev e -> R w (absorb (mkWorld d (trace w ++ [e]) (self w)));
  along_state : forall w d f,
    okmod f -> R w (mkWorld d (trace w) (f (self w)))
}.

Section AlongFacts.

Context {D : Type} {E : Env D}.
Context {okev : Event -> Prop} {okmod : (VolumeTester -> VolumeTester) -> Prop}.
Context {R : World D -> World D -> Prop} {A : Along okev okmod R}.

Lemma al_ret {X : Type} (a : X) : pc (ret a) R.
Proof. intros w b w' H. apply ret_inv in H as [_ ->]. apply along_refl. Qed.

Lemma al_gets {X : Type} (f : VolumeTester -> X) : pc (gets f) R.
Proof. intros w b w' H. apply gets_inv in H as [_ ->]. apply along_refl. Qed.

Lemma al_query {X : Type} (f : D -> VolumeTester -> X) : pc (query f) R.
Proof. intros w b w' H. inversion H; subst. apply along_refl. Qed.

Lemma al_check (b : bool) : pc (check b) R.
Proof.
  intros w u w' H. unfold check in H.
  destruct (assert b); inversion H; subst. apply along_refl.
Qed.

Lemma al_lift {X : Type} (o : option X) : pc (lift o) R.
Proof.
  intros w u w' H. unfold lift in H.
  destruct o; inversion H; subst. apply along_refl.
Qed.

Lemma al_modify (f : VolumeTester -> VolumeTester) :
  okmod f -> pc (modify f) R.
Proof.
  intros Hf w u w' H. unfold modify in H. inversion H; subst.
  now apply along_state.
Qed.

Lemma al_random (n : nat) : okmod (fun t => t) -> pc (random n) R.
Proof.
  intros Hf w u w' H. unfold random in H.
  destruct (rand_bytes n (c_srand (dev w))) as [d bytes].
  inversion H; subst. exact (along_state w d (fun t => t) Hf).
Qed.

Lemma al_io {X : Type} (op : D -> D * X) (ev : X -> Event) :
  (forall r, okev (ev r)) -> pc (io op ev) R.
Proof.
  intros Hev w r w' H. rewrite io_eq in H. inversion H; subst.
  apply along_event, Hev.
Qed.

Lemma al_emit (s : Signal) : okev (Emit s) -> pc (emit s) R.
Proof.
  intros Hev w r w' H. unfold emit in H. inversion H; subst.
  now apply along_event.
Qed.

Lemma al_bind {X Y : Type} (c : M D X) (k : X -> M D Y) :
  pc c R -> (forall a, pc (k a) R) -> pc (bind c k) R.
Proof.
  intros Hc Hk w b w' H. apply bind_inv in H as (a & w1 & H1 & H2).
  eapply along_trans; [eapply Hc | eapply Hk]; eauto.
Qed.

Lemma al_guard (c : M D bool) (onfail : M D unit) (k : M D bool) :
  pc c R -> pc onfail R -> pc k R -> pc (guard c onfail k) R.
Proof.
  intros Hc Hf Hk. unfold guard. apply al_bind; [assumption|].
  intros [|]; [assumption|].
  apply al_bind; [assumption|]. intros _. apply al_ret.
Qed.

Lemma al_for_loop (body : nat -> M D bool) n :
  (forall i, pc (body i) R) -> forall i, pc (for_loop n i body) R.
Proof.
  intros Hb. induction n as [|n IH]; intros i; cbn [for_loop].
  - apply al_ret.
  - apply al_bind; [apply Hb|]. intros [|]; [apply IH | apply al_ret].
Qed.

Lemma al_deleteFiles_from :
  (forall p b, okev (Remove p b)) ->
  (forall i, okmod (fun t => set_file_infos (removeAt i (file_infos t)) t)) ->
  forall n, pc (deleteFiles_from n) R.
Proof.
  intros Hev Hmod. induction n as [|n IH]; cbn [deleteFiles_from].
  - apply al_ret.
  - apply al_bind; [|intros fi].
    { unfold file_at. apply al_bind; [apply al_gets|]. intros. apply al_lift. }
    apply al_bind; [apply al_io; intros; apply Hev|]. intros _.
    apply al_bind; [apply al_modify, Hmod|]. intros _. exact IH.
Qed.

Lemma al_deleteFiles :
  (forall p b, okev (Remove p b)) ->
  (forall i, okmod (fun t => set_file_infos (removeAt i (file_infos t)) t)) ->
  pc deleteFiles R.
Proof.
  intros Hev Hmod. unfold deleteFiles.
  apply al_bind; [apply al_gets|]. intros n.
  apply al_bind; [now apply al_deleteFiles_from|]. intros _.
  apply al_bind; [apply al_gets|]. intros l. apply al_check.
Qed.

End AlongFacts.

(** Takes a step of the tester apart, down to its events and its changes
    of fields; [side] proves that these are as the relation wants them. *)
Ltac along_step side :=
  lazymatch goal with
  | |- pc (if ?b then _ else _) _ => destruct b
  | |- pc (bind _ _) _ => apply al_bind; [|intros]
  | |- pc (guard _ _ _) _ => apply al_guard
  | |- pc (for_loop _ _ _) _ => apply al_for_loop; intros
  | |- pc (io _ _) _ => apply al_io; intros; side
  | |- pc (emit _) _ => apply al_emit; side
  | |- pc (modify _) _ => apply al_modify; side
  | |- pc (random _) _ => apply al_random; side
  | |- pc (ret _) _ => apply al_ret
  | |- pc (gets _) _ => apply al_gets
  | |- pc (query _) _ => apply al_query
  | |- pc (check _) _ => apply al_check
  | |- pc (lift _) _ => apply al_lift
  | |- pc deleteFiles _ => apply al_deleteFiles; intros; side
  end.

Ltac along_tac side :=
  repeat (cbv beta zeta delta
            [initialize initFile recheckFile quick_test writeFull writeFile
             writeBlock verifyFull verifyFile verifyBlock run_tests report
             file_at block_data create_failed write_failed resize_failed
             verify_failed write_all getChar_is read_is fsync open seek
             write resize putChar getChar read remove generateTestPattern
             make_plan start_setup run_and_cleanup start];
          along_step side).

(** *** What a run never takes back *)

(** From [w] to [w'] the tester stayed canceled if it was, and kept
    every error flag it had. *)
Definition grows {D : Type} (w w' : World D) : Prop :=
  (_canceled (self w) = true -> _canceled (self w') = true) /\
  (forall f, has_flag (error_type (self w)) f = true ->
             has_flag (error_type (self w')) f = true).

Definition raises (f : VolumeTester -> VolumeTester) : Prop :=
  forall t, (_canceled t = true -> _canceled (f t) = true) /\
            (forall g, has_flag (error_type t) g = true ->
                       has_flag (error_type (f t)) g = true).

Lemma raises_cancel : raises cancel.
Proof.
  intros t. split; [reflexivity|]. intros g Hg. cbn.
  now apply has_flag_lor_l.
Qed.

Lemma raises_or_error f : raises (or_error f).
Proof.
  intros t. split; [auto|]. intros g Hg. cbn. now apply has_flag_lor_l.
Qed.

#[export] Instance grows_along {D : Type} {E : Env D} :
  Along (fun _ => True) raises (@grows D).
Proof.
  split.
  - intros w. split; auto.
  - intros w1 w2 w3 [A1 B1] [A2 B2]. split; auto.
  - intros w d e _. unfold absorb. cbn [dev].
    destruct (cancel_requested d); cbn [self]; [apply raises_cancel|].
    split; auto.
  - intros w d f Hf. apply Hf.
Qed.

Ltac raises_side :=
  first [ exact I
        | apply raises_or_error
        | intros ?; split; intros; assumption ].

(** *** The events of a run *)

(** The events from [w] to [w'] all pass [ok]. *)
Definition only {D : Type} (ok : Event -> bool) (w w' : World D) : Prop :=
  exists d, trace w' = trace w ++ d /\ forallb ok d = true.

#[export] Instance only_along {D : Type} {E : Env D} (ok : Event -> bool) :
  Along (fun e => ok e = true) (fun _ => True) (@only D ok).
Proof.
  split.
  - intros w. exists []. now rewrite app_nil_r.
  - intros w1 w2 w3 (d1 & T1 & O1) (d2 & T2 & O2). exists (d1 ++ d2).
    rewrite T2, T1, app_assoc, forallb_app, O1, O2. auto.
  - intros w d e He. exists [e]. rewrite absorb_trace. cbn. now rewrite He.
  - intros w d f _. exists []. cbn. now rewrite app_nil_r.
Qed.

Ltac only_side := first [ exact I | reflexivity ].

(** *** Runs that leave the plan and the pattern alone *)

(** From [w] to [w'] the configuration, the pattern and the plan stayed
    as they were, and a canceled tester still carries [Aborted]. *)
Definition calm {D : Type} : World D -> World D -> Prop :=
  ext (fun _ => True).

Definition gentle (f : VolumeTester -> VolumeTester) : Prop :=
  forall t, stable t (f t) /\ (cinv t -> cinv (f t)).

#[export] Instance calm_along {D : Type} {E : Env D} :
  Along (fun _ => True) gentle (@calm D).
Proof.
  split.
  - intros w. now apply ext_refl.
  - intros w1 w2 w3 H1 H2. eapply ext_trans; eauto.
  - intros w d e _.
    split; [apply (absorb_stable (mkWorld _ _ _))|].
    split; [apply (absorb_cinv (mkWorld _ _ _))|].
    exists [e]. now rewrite absorb_trace.
  - intros w d f Hf. destruct (Hf (self w)) as [S C].
    split; [exact S|]. split; [exact C|].
    exists []. cbn. now rewrite app_nil_r.
Qed.

Lemma gentle_or_error f : gentle (or_error f).
Proof. intros t. split; [apply stable_or_error | apply cinv_or_error]. Qed.

Ltac gentle_side := first [ exact I | apply gentle_or_error ].

Section Phases.

Context {D : Type} {E : Env D}.

Lemma grows_initialize : pc initialize (@grows D).
Proof. along_tac raises_side. Qed.

Lemma grows_writeFull : pc writeFull (@grows D).
Proof. along_tac raises_side. Qed.

Lemma grows_verifyFull : pc verifyFull (@grows D).
Proof. along_tac raises_side. Qed.

Lemma grows_run_tests : pc run_tests (@grows D).
Proof. along_tac raises_side. Qed.

Lemma grows_start : pc start (@grows D).
Proof. along_tac raises_side. Qed.

Lemma calm_initFile i : pc (initFile i) (@calm D).
Proof. along_tac gentle_side. Qed.

Lemma calm_initialize : pc initialize (@calm D).
Proof. along_tac gentle_side. Qed.

Lemma calm_run_tests : pc run_tests (@calm D).
Proof. along_tac gentle_side. Qed.

End Phases.

(** ** How a test begins *)

Section Setup.

Context {D : Type} {E : Env D}.

Lemma check_inv (b : bool) (w w' : World D) u :
  check b w = Some (u, w') -> b = true /\ w' = w.
Proof.
  unfold check. destruct b; cbn; intros H; [|discriminate].
  inversion H. auto.
Qed.

Lemma lift_inv {X : Type} (o : option X) (w w' : World D) a :
  lift o w = Some (a, w') -> o = Some a /\ w' = w.
Proof. unfold lift. destruct o; intros H; inversion H. auto. Qed.

Lemma modify_inv f (w w' : World D) u :
  modify f w = Some (u, w') -> w' = mkWorld (dev w) (trace w) (f (self w)).
Proof. unfold modify. intros H. now inversion H. Qed.

(** What [generateTestPattern] does when it returns: it sets the pattern,
    of as many bytes as the [int] it keeps the block size in says. *)
Lemma generateTestPattern_inv (w w' : World D) u :
  generateTestPattern w = Some (u, w') ->
  trace w' = trace w /\
  self w' = set_pattern (pattern (self w')) (self w) /\
  0 < to_int (block_size_max (self w)) /\
  bsize (pattern (self w')) = to_int (block_size_max (self w)).
Proof.
  unfold generateTestPattern. rewrite gets_eq. intros H.
  apply bind_inv in H as (u1 & w1 & H1 & H). apply check_inv in H1 as [C1 ->].
  apply bind_inv in H as (bytes & w2 & H2 & H).
  apply bind_inv in H as (u3 & w3 & H3 & H). apply modify_inv in H3.
  rewrite gets_eq in H. apply check_inv in H as [C2 ->].
  unfold random in H2.
  destruct (rand_bytes _ (c_srand (dev w))) as [d bs]. inversion H2; subst.
  cbn in *. apply Z.ltb_lt in C1. apply Z.eqb_eq in C2. auto.
Qed.

Lemma make_plan_inv (w w' : World D) u :
  make_plan w = Some (u, w') ->
  exists plan,
    plan_files (file_size_max (self w)) (block_size_max (self w))
      (file_prefix (self w)) (mountpoint (self w)) (bytes_total (self w))
    = Some plan /\
    w' = mkWorld (dev w) (trace w)
           (set_file_infos plan (set_file_infos [] (self w))).
Proof.
  unfold make_plan. rewrite !gets_eq. intros H.
  apply bind_inv in H as (u1 & w1 & H1 & H). apply modify_inv in H1. subst w1.
  apply bind_inv in H as (plan & w2 & H2 & H). apply lift_inv in H2 as [H2 ->].
  apply modify_inv in H. exists plan. split; [exact H2 | exact H].
Qed.

(** What [start] has done when it comes to its tests, or has returned
    early. *)
Definition began (w w1 : World D) : Prop :=
  let t := self w in
  let avail := bytesAvailable (dev w) t in
  0 < avail /\ trace w1 = trace w /\
  bytes_total (self w1) = avail /\
  bsize (pattern (self w1)) = block_size_max t /\
  block_size_max t <= INT_MAX /\
  plan_files (file_size_max t) (block_size_max t) (file_prefix t)
    (mountpoint t) avail = Some (file_infos (self w1)) /\
  block_size_max (self w1) = block_size_max t /\
  file_size_max (self w1) = file_size_max t /\
  file_prefix (self w1) = file_prefix t /\
  _mountpoint (self w1) = _mountpoint t /\
  _canceled (self w1) = _canceled t /\
  error_type (self w1) = error_type t /\
  bytes_written (self w1) = 0 /\
  bytes_remaining (self w1) = avail.

Lemma start_setup_inv (w w1 : World D) go :
  start_setup w = Some (go, w1) ->
  (isValid (dev w) (self w) = false /\ go = false /\
   trace w1 = trace w ++ [Emit (failed None); Emit finished]) \/
  (isValid (dev w) (self w) = true /\ config_ok (self w) /\
   ((bytesAvailable (dev w) (self w) <= 0 /\ go = false /\
     trace w1 = trace w ++ [Emit (failed (Some Error.Full)); Emit finished]) \/
    (go = true /\ began w w1))).
Proof.
  intros H.
  destruct (isValid (dev w) (self w)) eqn:Hv.
  2:{ left. destruct (start_setup_invalid w Hv) as (w' & H' & Ht & _).
      rewrite H' in H. inversion H; subst. auto. }
  right. split; [reflexivity|].
  unfold start_setup in H. unfold bind at 1 in H. unfold query at 1 in H.
  rewrite Hv in H. cbn [negb] in H. rewrite !gets_eq in H.
  apply bind_inv in H as (u1 & w2 & H1 & H). apply check_inv in H1 as [C1 ->].
  apply bind_inv in H as (u2 & w2 & H2 & H). apply check_inv in H2 as [C2 ->].
  apply bind_inv in H as (u3 & w2 & H3 & H). apply check_inv in H3 as [C3 ->].
  assert (Hc : config_ok (self w)).
  { apply andb_true_iff in C1 as [A1 A2]. apply andb_true_iff in C2 as [A3 A4].
    apply Z.ltb_lt in A1, A3, C3. apply Z.eqb_eq in A2, A4.
    repeat split; assumption. }
  split; [exact Hc|].
  unfold bind at 1 in H. unfold query at 1 in H.
  set (avail := bytesAvailable (dev w) (self w)) in *.
  unfold bind at 1 in H. unfold modify at 1 in H.
  set (wb := mkWorld (dev w) (trace w) (set_bytes avail 0 avail (self w))) in *.
  destruct (avail <=? 0) eqn:Ha.
  - left. apply Z.leb_le in Ha.
    destruct (two_signals (failed (Some Error.Full)) finished wb)
      as (w' & H' & Ht & _).
    rewrite H' in H. inversion H; subst. auto.
  - right. apply Z.leb_gt in Ha.
    apply bind_inv in H as (u4 & wg & Hg & H).
    apply generateTestPattern_inv in Hg as (Tg & Sg & Pg & Lg).
    rewrite gets_eq in H.
    apply bind_inv in H as (u5 & w5 & H5 & H). apply check_inv in H5 as [C5 ->].
    apply bind_inv in H as (u6 & w6 & H6 & H). apply ret_inv in H as [<- ->].
    apply make_plan_inv in H6 as (plan & Hp & ->).
    apply Z.eqb_eq in C5. rewrite Sg in Hp. cbn in Hp, Lg, Pg.
    split; [reflexivity|]. unfold began. fold avail. cbn.
    rewrite Sg. cbn.
    assert (Hb : block_size_max (self w) <= INT_MAX).
    { rewrite <- C5, Lg. unfold to_int, wrap.
      pose proof (Z.mod_pos_bound (block_size_max (self w) + 2 ^ (32 - 1))
                    (2 ^ 32) ltac:(lia)) as Hm.
      pose proof INT_MAX_eq. change (2 ^ (32 - 1)) with 2147483648 in *.
      change (2 ^ 32) with 4294967296 in *. lia. }
    repeat split; auto.
Qed.

End Setup.

(** ** The end of a test *)

(** The signals that report the outcome and the end of a test, and the
    removals of the cleanup. *)
Definition is_result (e : Event) : bool :=
  match e with
  | Emit (failed _) | Emit finished | Emit succeeded => true
  | _ => false
  end.

Definition is_remove (e : Event) : bool :=
  match e with Remove _ _ => true | _ => false end.

Definition results (l : list Event) : list Event := filter is_result l.

Definition no_result (e : Event) : bool := negb (is_result e).

Lemma results_app l1 l2 : results (l1 ++ l2) = results l1 ++ results l2.
Proof. apply filter_app. Qed.

Lemma results_none l : forallb no_result l = true -> results l = [].
Proof.
  induction l as [|e l IH]; cbn; [reflexivity|].
  intros H. apply andb_true_iff in H as [H1 H2].
  unfold no_result in H1. destruct (is_result e); [discriminate|]. auto.
Qed.

Lemma removals_are_removes ps : forall oks,
  forallb is_remove (removals ps oks) = true.
Proof.
  unfold removals. induction ps as [|p ps IH]; intros [|ok oks]; cbn; auto.
Qed.

Section TheEnd.

Context {D : Type} {E : Env D}.

Lemma only_run_tests : pc run_tests (@only D no_result).
Proof. along_tac only_side. Qed.

(** X1: a test that returns has reported its outcome once. After the
    events of its phases, none of which is [succeeded], [failed] or
    [finished], [start] emits [succeeded] or [failed], then [finished], and
    nothing follows [finished] but the removals of the cleanup. *)
Theorem start_reports_once (w w' : World D) (u : unit) :
  start w = Some (u, w') ->
  exists d1 r d2,
    trace w' = trace w ++ d1 ++ [Emit r; Emit finished] ++ d2 /\
    results d1 = [] /\
    (r = succeeded \/ exists e, r = failed e) /\
    forallb is_remove d2 = true.
Proof.
  unfold start. intros H. apply bind_inv in H as (go & w1 & Hs & H).
  apply start_setup_inv in Hs
    as [(_ & -> & Ht)|(_ & _ & [(_ & -> & Ht)|(-> & Hb)])].
  - apply ret_inv in H as [_ ->].
    exists [], (failed None), []. rewrite Ht. cbn. repeat split; eauto.
  - apply ret_inv in H as [_ ->].
    exists [], (failed (Some Error.Full)), []. rewrite Ht. cbn.
    repeat split; eauto.
  - destruct Hb as (_ & Ht & _).
    unfold run_and_cleanup in H. pose proof H as H'.
    apply bind_inv in H as (ok & w2 & Hr & _).
    destruct (run_and_cleanup_spec _ _ _ Hr) as (w3 & oks & Hrc & _ & Htr & _).
    unfold run_and_cleanup in Hrc. rewrite Hrc in H'. inversion H'; subst w3.
    destruct (only_run_tests _ _ _ Hr) as (d1 & Hd1 & Ho).
    exists d1, (result_signal ok (error_type (self w2))),
      (removals (rev (paths (file_infos (self w2)))) oks).
    split; [rewrite Htr, Hd1, Ht, <- !app_assoc; reflexivity|].
    split; [now apply results_none|].
    split; [destruct ok; cbn; eauto | apply removals_are_removes].
Qed.

Lemma initFile_not_canceled i (w w' : World D) :
  initFile i w = Some (true, w') -> _canceled (self w') = false.
Proof.
  unfold initFile. intros H.
  apply bind_inv in H as (fi & w0 & _ & H).
  apply bind_inv in H as ([ok err] & w1 & _ & H). cbn [fst snd] in H.
  destruct ok; cbn [negb] in H.
  2:{ apply bind_inv in H as (u & w2 & _ & H). discriminate. }
  apply guard_true in H as (w2 & _ & H).
  apply guard_true in H as (w3 & _ & H).
  apply guard_true in H as (w4 & _ & H).
  apply guard_true in H as (w5 & _ & H).
  apply guard_true in H as (w6 & _ & H).
  apply bind_inv in H as (u & w7 & _ & H).
  now apply quick_test_not_canceled in H.
Qed.

Lemma grows_initFile i : pc (initFile i) (@grows D).
Proof. along_tac raises_side. Qed.

Lemma only_initialize_no_write :
  pc initialize
     (@only D (fun e => match e with Emit writeStarted => false | _ => true end)).
Proof. along_tac only_side. Qed.

(** The initializer of a canceled tester stops at its first file. *)
Lemma initialize_canceled (w w' : World D) ok :
  _canceled (self w) = true ->
  file_infos (self w) <> [] ->
  initialize w = Some (ok, w') ->
  ok = false /\
  exists d, trace w' = trace w ++ d /\ (length (created d) <= 1)%nat.
Proof.
  intros Hc Hne H. unfold initialize in H. rewrite gets_eq in H.
  apply bind_inv in H as (u & w1 & H1 & H). rewrite gets_eq in H.
  pose proof (pc_emit _ _ _ _ H1) as Hq.
  pose proof (quiet_file_infos _ _ Hq) as Hl.
  destruct Hq as (_ & _ & d1 & Hd1 & Hc1).
  assert (Hc1' : _canceled (self w1) = true).
  { revert Hc. apply (@al_emit D E _ _ _ grows_along _ I _ _ _ H1). }
  destruct (file_infos (self w1)) as [|fi l] eqn:Hfi; [congruence|].
  cbn [length for_loop] in H.
  apply bind_inv in H as (b & w2 & H2 & H).
  apply bind_inv in H2 as (b2 & w3 & H3 & H2).
  assert (Hb2 : b2 = false).
  { destruct b2; [|reflexivity].
    pose proof (initFile_not_canceled _ _ _ H3) as Hn.
    apply (grows_initFile _ _ _ _ H3) in Hc1'. congruence. }
  subst b2. apply ret_inv in H2 as [<- ->]. apply ret_inv in H as [<- ->].
  split; [reflexivity|].
  assert (Hnth : nth_error (file_infos (self w1)) 0 = Some fi)
    by now rewrite Hfi.
  destruct (initFile_ext _ _ _ _ _ Hnth H3) as (_ & _ & d2 & Hd2 & Hcr).
  exists (d1 ++ d2). rewrite Hd2, Hd1, app_assoc. split; [reflexivity|].
  rewrite created_app, Hc1. cbn [app].
  destruct Hcr as [->|[-> _]]; cbn; lia.
Qed.

End TheEnd.

Lemma start_reports_once_witness :
  exists d1 r d2,
    trace (after start sample_start)
    = trace sample_start ++ d1 ++ [Emit r; Emit finished] ++ d2 /\
    results d1 = [] /\
    (r = succeeded \/ exists e, r = failed e) /\
    forallb is_remove d2 = true.
Proof.
  apply (start_reports_once sample_start (after start sample_start) tt).
  vm_compute. reflexivity.
Defined.

(** X2: [start] takes nothing back. A tester that was canceled when
    [start] was called is canceled when it returns, and every error flag
    set before is set after: no step of a test clears [_canceled] or a bit
    of [error_type]. *)
Theorem start_keeps_flags {D : Type} {E : Env D} (w w' : World D) :
  start w = Some (tt, w') ->
  (_canceled (self w) = true -> _canceled (self w') = true) /\
  (forall f, has_flag (error_type (self w)) f = true ->
             has_flag (error_type (self w')) f = true).
Proof. intros H. exact (grows_start _ _ _ H). Qed.

(** A tester on the sample volume that was canceled before its test. *)
Definition canceled_start : World Mem.t :=
  world0 (volume 21 1000 [] None) (cancel sample_tester).

Lemma start_keeps_flags_witness :
  start canceled_start = Some (tt, after start canceled_start) /\
  _canceled (self canceled_start) = true /\
  has_flag (error_type (self canceled_start)) Error.Aborted = true /\
  (_canceled (self canceled_start) = true ->
   _canceled (self (after start canceled_start)) = true) /\
  (forall f, has_flag (error_type (self canceled_start)) f = true ->
             has_flag (error_type (self (after start canceled_start))) f = true).
Proof.
  split; [vm_compute; reflexivity|]. split; [reflexivity|].
  split; [reflexivity|].
  apply (start_keeps_flags canceled_start (after start canceled_start)).
  vm_compute. reflexivity.
Defined.

(** X3: a canceled tester cannot run a test again. When [cancel()] was
    called before [start], on a tester with a plan of at least one file,
    the three phases fail: the initializer stops at its first file (it
    creates one file at most), no write phase begins, and the tester is
    still canceled; it carries the [Aborted] flag if it did before. *)
Theorem canceled_test_fails {D : Type} {E : Env D}
  (w0 w1 w2 : World D) (ok : bool) :
  _canceled (self w0) = true ->
  start_setup w0 = Some (true, w1) ->
  file_infos (self w1) <> [] ->
  run_tests w1 = Some (ok, w2) ->
  ok = false /\ _canceled (self w2) = true /\
  (has_flag (error_type (self w0)) Error.Aborted = true ->
   has_flag (error_type (self w2)) Error.Aborted = true) /\
  exists d, trace w2 = trace w0 ++ d /\
    (length (created d) <= 1)%nat /\ ~ In (Emit writeStarted) d.
Proof.
  intros Hc Hs Hne Hr.
  apply start_setup_inv in Hs
    as [(_ & ? & _)|(_ & _ & [(_ & ? & _)|(_ & Hb)])]; try discriminate.
  destruct Hb as (_ & Ht & _ & _ & _ & _ & _ & _ & _ & _ & Hc1 & He1 & _).
  rewrite <- Hc1 in Hc. rewrite <- He1.
  pose proof (grows_run_tests _ _ _ Hr) as [G1 G2].
  unfold run_tests in Hr. apply bind_inv in Hr as (i & wi & Hi & Hr).
  destruct (initialize_canceled _ _ _ Hc Hne Hi) as (-> & d & Hd & Hcr).
  apply ret_inv in Hr as [<- ->].
  split; [reflexivity|]. split; [auto|]. split; [apply G2|].
  exists d. rewrite Hd, Ht. split; [reflexivity|]. split; [exact Hcr|].
  destruct (only_initialize_no_write _ _ _ Hi) as (d' & Hd' & Ho).
  assert (d' = d) by (rewrite Hd in Hd'; now apply app_inv_head in Hd').
  subst d'. intros Hin.
  rewrite forallb_forall in Ho. now apply Ho in Hin.
Qed.

Lemma canceled_test_fails_witness :
  _canceled (self canceled_start) = true /\
  start_setup canceled_start
  = Some (true, after start_setup canceled_start) /\
  false = false /\
  _canceled (self (after run_tests (after start_setup canceled_start))) = true /\
  (has_flag (error_type (self canceled_start)) Error.Aborted = true ->
   has_flag (error_type
               (self (after run_tests (after start_setup canceled_start))))
            Error.Aborted = true) /\
  exists d,
    trace (after run_tests (after start_setup canceled_start))
    = trace canceled_start ++ d /\
    (length (created d) <= 1)%nat /\ ~ In (Emit writeStarted) d.
Proof.
  split; [reflexivity|]. split; [vm_compute; reflexivity|].
  apply (canceled_test_fails canceled_start
           (after start_setup canceled_start)
           (after run_tests (after start_setup canceled_start)) false).
  - reflexivity.
  - vm_compute. reflexivity.
  - vm_compute. discriminate.
  - vm_compute. reflexivity.
Defined.

(** ** Why a test fails *)

(** The flag that goes with a signal of failure. *)
Definition cause_of (s : Signal) : option Z :=
  match s with
  | createFailed _ _ => Some Error.Create
  | writeFailed _ _ => Some Error.Write
  | verifyFailed _ _ => Some Error.Verify
  | _ => None
  end.

(** The last event of [w] is a signal of failure and the tester carries
    its flag, or the tester is canceled and carries [Aborted]. *)
Definition explained {D : Type} (w : World D) : Prop :=
  (exists tr s f, trace w = tr ++ [Emit s] /\ cause_of s = Some f /\
                  has_flag (error_type (self w)) f = true) \/
  (_canceled (self w) = true /\
   has_flag (error_type (self w)) Error.Aborted = true).

Section Failures.

Context {D : Type} {E : Env D}.

(** A step that returns [false] only with an explanation. *)
Definition fails (c : M D bool) : Prop :=
  forall w w', cinv (self w) -> c w = Some (false, w') -> explained w'.

(** A handler of a failure: it leaves an explanation. *)
Definition explains (c : M D unit) : Prop :=
  forall w u w', c w = Some (u, w') -> explained w'.

Lemma calm_cinv (w w' : World D) : calm w w' -> cinv (self w) -> cinv (self w').
Proof. intros (_ & C & _). exact C. Qed.

Lemma fails_bind {X : Type} (c : M D X) (k : X -> M D bool) :
  pc c (@calm D) -> (forall a, fails (k a)) -> fails (bind c k).
Proof.
  intros Hc Hk w w' Hi H. apply bind_inv in H as (a & w1 & H1 & H2).
  apply (Hk a w1 w'); [|exact H2]. eapply calm_cinv; eauto.
Qed.

Lemma fails_guard (c : M D bool) (f : M D unit) (k : M D bool) :
  pc c (@calm D) -> explains f -> fails k -> fails (guard c f k).
Proof.
  intros Hc Hf Hk w w' Hi H.
  apply guard_inv in H as (b & w1 & H1 & [[-> H]|(-> & _ & H)]).
  - apply (Hk w1 w'); [|exact H]. eapply calm_cinv; eauto.
  - eapply Hf; eauto.
Qed.

Lemma fails_for_loop (body : nat -> M D bool) n :
  (forall i, pc (body i) (@calm D)) -> (forall i, fails (body i)) ->
  forall i, fails (for_loop n i body).
Proof.
  intros Hc Hb. induction n as [|n IH]; intros i w w' Hi H; cbn [for_loop] in H.
  - apply ret_inv in H as [? _]. discriminate.
  - apply bind_inv in H as ([|] & w1 & H1 & H).
    + apply (IH (S i) w1 w'); [|exact H]. eapply calm_cinv; eauto.
      eapply Hc; eauto.
    + apply ret_inv in H as [_ ->]. eapply Hb; eauto.
Qed.

(** The checkpoint of a cancellation. *)
Lemma fails_checkpoint :
  fails (bind (gets abortRequested) (fun c => ret (negb c))).
Proof.
  intros w w' Hi H. rewrite gets_eq in H. apply ret_inv in H as [H ->].
  unfold abortRequested in H. right.
  destruct (_canceled (self w)) eqn:Hc; [|discriminate]. auto.
Qed.

Lemma explains_emit f s (c : M D unit) :
  cause_of s = Some f ->
  (forall w u w', c w = Some (u, w') ->
     has_flag (error_type (self w')) f = true) ->
  explains (bind c (fun _ => emit s)).
Proof.
  intros Hs Hc w u w' H. apply bind_inv in H as (u1 & w1 & H1 & H).
  left. exists (trace w1), s, f.
  pose proof (emit_inv _ _ _ _ H) as [Ht _]. split; [exact Ht|].
  split; [exact Hs|].
  apply (@al_emit D E _ _ _ grows_along _ I _ _ _ H).
  eapply Hc; eauto.
Qed.

Lemma explains_write_failed o s : explains (write_failed o s).
Proof.
  apply (explains_emit Error.Write); [reflexivity|].
  intros w u w' H. apply modify_inv in H. subst w'. apply has_flag_lor_r.
Qed.

Lemma explains_verify_failed o s : explains (verify_failed o s).
Proof.
  apply (explains_emit Error.Verify); [reflexivity|].
  intros w u w' H. apply modify_inv in H. subst w'. apply has_flag_lor_r.
Qed.

Lemma explains_resize_failed o s : explains (resize_failed o s).
Proof.
  intros w u w' H. unfold resize_failed in H.
  apply bind_inv in H as (u1 & w1 & H1 & H). apply modify_inv in H1.
  apply bind_inv in H as (u2 & w2 & H2 & H). apply modify_inv in H2.
  left. exists (trace w2), (writeFailed o s), Error.Write.
  pose proof (emit_inv _ _ _ _ H) as [Ht _]. split; [exact Ht|].
  split; [reflexivity|].
  apply (@al_emit D E _ _ _ grows_along _ I _ _ _ H).
  subst w2 w1. cbn. apply has_flag_lor_l, has_flag_lor_r.
Qed.

Lemma explains_create_failed i fi err : explains (create_failed i fi err).
Proof.
  intros w u w' H. unfold create_failed in H.
  apply bind_inv in H as (u1 & w1 & H1 & H). apply modify_inv in H1.
  apply bind_inv in H as (u2 & w2 & H2 & H).
  left. exists (trace w2), (createFailed (Z.of_nat i) (FileInfo.offset fi)),
    Error.Create.
  pose proof (emit_inv _ _ _ _ H) as [Ht _]. split; [exact Ht|].
  split; [reflexivity|].
  apply (@al_emit D E _ _ _ grows_along _ I _ _ _ H).
  assert (H1' : has_flag (error_type (self w1)) Error.Create = true)
    by (subst w1; apply has_flag_lor_r).
  destruct (negb (Z.land err PermissionsError =? 0)).
  - apply modify_inv in H2. subst w2. cbn. now apply has_flag_lor_l.
  - apply ret_inv in H2 as [_ ->]. exact H1'.
Qed.

(** Takes a step apart to show that it only fails with an explanation. *)
Ltac fails_step :=
  lazymatch goal with
  | |- fails (guard _ _ _) => apply fails_guard
  | |- fails (bind (gets abortRequested) _) => apply fails_checkpoint
  | |- fails (bind _ _) => apply fails_bind; [|intros]
  | |- fails (for_loop _ _ _) => apply fails_for_loop; intros
  | |- explains (write_failed _ _) => apply explains_write_failed
  | |- explains (verify_failed _ _) => apply explains_verify_failed
  | |- explains (resize_failed _ _) => apply explains_resize_failed
  | |- explains (create_failed _ _ _) => apply explains_create_failed
  | |- pc _ _ => solve [along_tac gentle_side]
  end.

Ltac fails_tac := repeat fails_step.

Lemma fails_quick_test fi : fails (quick_test fi).
Proof. unfold quick_test. fails_tac. Qed.

Lemma fails_initFile i : fails (initFile i).
Proof.
  unfold initFile. fails_tac.
  match goal with |- fails (if ?b then _ else _) => destruct b end.
  - intros w w' Hi H. apply bind_inv in H as (u & w1 & H1 & H).
    apply ret_inv in H as [_ ->].
    eapply explains_create_failed; eauto.
  - fails_tac. apply fails_quick_test.
Qed.

Lemma fails_recheckFile i : fails (recheckFile i).
Proof. unfold recheckFile. fails_tac. apply fails_quick_test. Qed.

Lemma fails_writeBlock i fi j : fails (writeBlock i fi j).
Proof. unfold writeBlock. fails_tac. Qed.

Lemma fails_verifyBlock i fi j : fails (verifyBlock i fi j).
Proof. unfold verifyBlock. fails_tac. Qed.

Lemma fails_initialize : fails initialize.
Proof.
  intros w w' Hi H. unfold initialize in H. rewrite gets_eq in H.
  apply bind_inv in H as (u & w0 & H0 & H). rewrite gets_eq in H.
  assert (Hi0 : cinv (self w0)).
  { eapply calm_cinv; eauto. revert H0. apply al_emit. exact I. }
  apply bind_inv in H as ([|] & w1 & H1 & H).
  - revert H. apply fails_for_loop.
    + intros. along_tac gentle_side.
    + apply fails_recheckFile.
    + eapply calm_cinv; eauto.
      eapply (al_for_loop initFile); eauto. apply calm_initFile.
  - apply ret_inv in H as [_ ->]. revert H1. apply fails_for_loop; auto.
    + apply calm_initFile.
    + apply fails_initFile.
Qed.

Lemma fails_writeFull : fails writeFull.
Proof. unfold writeFull, writeFile. fails_tac. apply fails_writeBlock. Qed.

Lemma fails_verifyFull : fails verifyFull.
Proof. unfold verifyFull, verifyFile. fails_tac. apply fails_verifyBlock. Qed.

Lemma calm_writeFull : pc writeFull (@calm D).
Proof. along_tac gentle_side. Qed.

Lemma fails_run_tests : fails run_tests.
Proof.
  intros w w' Hi H. unfold run_tests in H.
  apply bind_inv in H as ([|] & w1 & H1 & H).
  2:{ apply ret_inv in H as [_ ->]. eapply fails_initialize; eauto. }
  pose proof (calm_cinv _ _ (calm_initialize _ _ _ H1) Hi) as Hi1.
  apply bind_inv in H as ([|] & w2 & H2 & H).
  2:{ apply ret_inv in H as [_ ->]. eapply fails_writeFull; eauto. }
  pose proof (calm_cinv _ _ (calm_writeFull _ _ _ H2) Hi1) as Hi2.
  eapply fails_verifyFull; eauto.
Qed.

End Failures.

(** The run on the sample volume when it takes 15 bytes only, planned. *)
Definition short_planned : World Mem.t :=
  after start_setup (world0 (volume 21 15 [] None) sample_tester).

(** X4: a test never fails without a cause. When the three phases return
    [false], on a tester that was not canceled or carried [Aborted] if it
    was, then either the last event of the phases is one of the signals
    [createFailed], [writeFailed] and [verifyFailed] and the tester carries
    the flag that goes with it ([Create], [Write], [Verify]), or the tester
    is canceled and carries [Aborted]; and [failed] then reports the
    tester's flags as they are at that point. *)
Theorem failure_is_explained {D : Type} {E : Env D} (w1 w2 : World D) :
  cinv (self w1) ->
  run_tests w1 = Some (false, w2) ->
  explained w2 /\
  exists w3 rest,
    run_and_cleanup w1 = Some (tt, w3) /\
    trace w3 = trace w2 ++
      Emit (failed (Some (error_type (self w2)))) :: Emit finished :: rest.
Proof.
  intros Hi Hr. split; [eapply fails_run_tests; eauto|].
  destruct (run_and_cleanup_spec _ _ _ Hr) as (w3 & oks & Hrc & _ & Ht & _).
  exists w3. eexists. split; [exact Hrc|]. rewrite Ht. reflexivity.
Qed.

Lemma failure_is_explained_witness :
  cinv (self short_planned) /\
  run_tests short_planned = Some (false, after run_tests short_planned) /\
  explained (after run_tests short_planned) /\
  exists w3 rest,
    run_and_cleanup short_planned = Some (tt, w3) /\
    trace w3 = trace (after run_tests short_planned) ++
      Emit (failed (Some (error_type (self (after run_tests short_planned)))))
      :: Emit finished :: rest.
Proof.
  assert (Hc : cinv (self short_planned))
    by (intros H; vm_compute in H; discriminate H).
  split; [exact Hc|]. split; [vm_compute; reflexivity|].
  apply (failure_is_explained short_planned (after run_tests short_planned) Hc).
  vm_compute. reflexivity.
Defined.

(** ** Block data, again *)

(** [blockData] returns a value for a block of the plan of a fitting size
    only, and the value is [block_bytes]. *)
Lemma blockData_inv t i j data :
  blockData t i j = Some data ->
  exists fi b,
    nth_error (file_infos t) i = Some fi /\
    nth_error (FileInfo.blocks fi) j = Some b /\
    0 < BlockInfo.size b <= bsize (pattern t) /\
    data = block_bytes t b.
Proof.
  intros H. pose proof H as H'. unfold blockData in H.
  destruct (nth_error (file_infos t) i) as [fi|] eqn:Hfi; [|discriminate].
  destruct (nth_error (FileInfo.blocks fi) j) as [b|] eqn:Hb; [|discriminate].
  exists fi, b. split; [reflexivity|]. split; [exact Hb|].
  assert (Hs : 0 < BlockInfo.size b <= bsize (pattern t)).
  { destruct (bsize (pattern t) =? 0) eqn:H0; [discriminate|].
    cbn [negb assert] in H. apply Z.eqb_neq in H0.
    destruct (bsize (pattern t) >? BlockInfo.size b) eqn:Hgt.
    - rewrite Z.gtb_ltb in Hgt. apply Z.ltb_lt in Hgt.
      destruct (bsize (shrink (BlockInfo.size b) (pattern t))
                =? BlockInfo.size b) eqn:H1; [|discriminate].
      cbn [assert] in H. apply Z.eqb_eq in H1.
      destruct (bsize (shrink (BlockInfo.size b) (pattern t)) =? 0) eqn:H2;
        [discriminate|].
      apply Z.eqb_neq in H2. unfold bsize, shrink in *.
      rewrite length_firstn in H1, H2.
      set (m := Init.Nat.min _ _) in *. clearbody m. lia.
    - rewrite Z.gtb_ltb in Hgt. apply Z.ltb_ge in Hgt.
      destruct (bsize (pattern t) =? BlockInfo.size b) eqn:H1; [|discriminate].
      apply Z.eqb_eq in H1. unfold bsize in *. lia. }
  split; [exact Hs|].
  rewrite (blockData_eq t i j fi b Hfi Hb Hs) in H'. congruence.
Qed.

(** X5: [blockData] stops at an assertion unless it is asked for a block
    of the plan whose size is positive and at most the pattern's: it
    returns a value exactly for the two indexes of such a block. An index
    out of range, a pattern that was not made, an empty block and a block
    longer than the pattern all stop the program. *)
Theorem blockData_defined (t : VolumeTester) (i j : nat) :
  (exists data, blockData t i j = Some data) <->
  (exists fi b,
     nth_error (file_infos t) i = Some fi /\
     nth_error (FileInfo.blocks fi) j = Some b /\
     0 < BlockInfo.size b <= bsize (pattern t)).
Proof.
  split.
  - intros (data & H). apply blockData_inv in H as (fi & b & H1 & H2 & H3 & _).
    eauto.
  - intros (fi & b & H1 & H2 & H3). eexists.
    apply (blockData_eq t i j fi b H1 H2 H3).
Qed.

(** ** Phases that go through *)

Lemma Forall2_nth {X Y : Type} (P : X -> Y -> Prop) (l : list X) :
  forall ds : list Y,
    length ds = length l ->
    (forall k d, nth_error ds k = Some d ->
       exists x, nth_error l k = Some x /\ P x d) ->
    Forall2 P l ds.
Proof.
  induction l as [|x l IH]; intros [|d ds] Hl H; try discriminate.
  - constructor.
  - constructor.
    + destruct (H 0%nat d eq_refl) as (x' & Hx & Hp). cbn in Hx. congruence.
    + apply IH; [cbn in Hl; lia|]. intros k d' Hk. apply (H (S k) d' Hk).
Qed.

Lemma Forall2_eq_map {X Y : Type} (g : X -> Y) (l : list X) (ds : list Y) :
  Forall2 (fun x d => d = g x) l ds -> ds = map g l.
Proof. induction 1; cbn; congruence. Qed.

(** The events of a file and of a block, in a phase that goes through. *)
Definition quick_events (fi : FileInfo.t) (c : Z) : list Event :=
  let p := FileInfo.path fi in
  [Seek p (FileInfo.size fi - 1) true; GetChar p (Some c);
   Seek p 0 true; Read p (bsize (FileInfo.id fi)) (FileInfo.id fi)].

Definition block_verify_events (fi : FileInfo.t) (b : BlockInfo.t)
  (data : QByteArray) : list Event :=
  let p := FileInfo.path fi in
  [Seek p (BlockInfo.rel_offset b) true; Read p (BlockInfo.size b) data;
   Emit (verified (BlockInfo.abs_end b))].

Section Success.

Context {D : Type} {E : Env D}.

(** The events of [fsync], when the build has it. *)
Definition sync_events (p : string) : list Event :=
  if USE_FSYNC then [Fsync p] else [].

Definition block_write_events (fi : FileInfo.t) (b : BlockInfo.t)
  (data : QByteArray) : list Event :=
  let p := FileInfo.path fi in
  [Seek p (BlockInfo.rel_offset b) true; Write p data (BlockInfo.size b)]
    ++ sync_events p ++ [Emit (written (BlockInfo.abs_end b))].

Definition file_write_events (t : VolumeTester) (fi : FileInfo.t)
  : list Event :=
  sync_events (FileInfo.path fi) ++
  concat (map (fun b => block_write_events fi b (block_bytes t b))
              (FileInfo.blocks fi)).

Definition write_events (t : VolumeTester) : list Event :=
  Emit writeStarted :: concat (map (file_write_events t) (file_infos t)).

Definition file_verify_events (t : VolumeTester) (fi : FileInfo.t)
  : list Event :=
  sync_events (FileInfo.path fi) ++
  concat (map (fun b => block_verify_events fi b (block_bytes t b))
              (FileInfo.blocks fi)).

Definition verify_events (t : VolumeTester) : list Event :=
  Emit verifyStarted :: concat (map (file_verify_events t) (file_infos t)).

Lemma fsync_trace p (w w' : World D) u :
  fsync p w = Some (u, w') -> trace w' = trace w ++ sync_events p.
Proof.
  unfold fsync, sync_events. destruct USE_FSYNC; intros H.
  - now apply io_inv in H as (_ & _ & H).
  - apply ret_inv in H as [_ ->]. now rewrite app_nil_r.
Qed.

(** A loop that goes through: its rounds all did, one after the other. *)
Lemma for_loop_true (body : nat -> M D bool) (I : World D -> Prop)
  (Q : nat -> list Event -> Prop) :
  (forall i w w', I w -> body i w = Some (true, w') ->
     I w' /\ exists d, trace w' = trace w ++ d /\ Q i d) ->
  forall n i w w', I w -> for_loop n i body w = Some (true, w') ->
    I w' /\ exists ds, length ds = n /\ trace w' = trace w ++ concat ds /\
      forall k d, nth_error ds k = Some d -> Q (i + k)%nat d.
Proof.
  intros Hb. induction n as [|n IH]; intros i w w' Hi H; cbn [for_loop] in H.
  - apply ret_inv in H as [_ ->]. split; [exact Hi|].
    exists []. cbn. rewrite app_nil_r. repeat split.
    intros [|k] d Hk; discriminate.
  - apply bind_inv in H as ([|] & w1 & H1 & H); [|discriminate].
    destruct (Hb _ _ _ Hi H1) as (Hi1 & d1 & Hd1 & Hq1).
    destruct (IH _ _ _ Hi1 H) as (Hi' & ds & Hl & Hds & Hq).
    split; [exact Hi'|]. exists (d1 :: ds). cbn [length concat].
    split; [lia|]. split; [rewrite Hds, Hd1, <- app_assoc; reflexivity|].
    intros [|k] d Hk; cbn in Hk.
    + inversion Hk; subst. now rewrite Nat.add_0_r.
    + rewrite Nat.add_succ_r. apply (Hq k d Hk).
Qed.

(** A loop over the elements of [l] that goes through. *)
Lemma for_loop_over {X : Type} (l : list X) (body : nat -> M D bool)
  (I : World D -> Prop) (P : X -> list Event -> Prop) :
  (forall i w w', I w -> body i w = Some (true, w') ->
     I w' /\ exists x d, nth_error l i = Some x /\
       trace w' = trace w ++ d /\ P x d) ->
  forall w w', I w -> for_loop (length l) 0 body w = Some (true, w') ->
    I w' /\ exists ds, trace w' = trace w ++ concat ds /\ Forall2 P l ds.
Proof.
  intros Hb w w' Hi H.
  destruct (for_loop_true body I
              (fun i d => exists x, nth_error l i = Some x /\ P x d))
    with (n := length l) (i := 0%nat) (w := w) (w' := w')
    as (Hi' & ds & Hl & Hds & Hq); auto.
  - intros i w1 w2 H1 H2.
    destruct (Hb _ _ _ H1 H2) as (H3 & x & d & Hx & Hd & Hp). eauto 6.
  - split; [exact Hi'|]. exists ds. split; [exact Hds|].
    now apply Forall2_nth.
Qed.

Lemma writeBlock_true_trace i fi j (w w' : World D) :
  nth_error (file_infos (self w)) i = Some fi ->
  writeBlock i fi j w = Some (true, w') ->
  exists b,
    nth_error (FileInfo.blocks fi) j = Some b /\
    trace w' = trace w ++ block_write_events fi b (block_bytes (self w) b).
Proof.
  unfold writeBlock. intros Hfi H.
  apply bind_inv in H as (b & w0 & H0 & H). apply lift_inv in H0 as [Hb ->].
  apply bind_inv in H as (data & w0 & H0 & H).
  unfold block_data in H0. rewrite gets_eq in H0.
  apply lift_inv in H0 as [Hd ->].
  apply blockData_inv in Hd as (fi' & b' & Hfi' & Hb' & _ & ->).
  assert (fi' = fi) by congruence. subst fi'.
  assert (b' = b) by congruence. subst b'.
  apply guard_true in H as (w1 & H1 & H). apply seek_inv in H1.
  apply guard_true in H as (w2 & H2 & H). apply write_all_inv in H2.
  apply bind_inv in H as (u & w3 & H3 & H). apply fsync_trace in H3.
  apply bind_inv in H as (u' & w4 & H4 & H). apply emit_inv in H4 as [H4 _].
  rewrite gets_eq in H. apply ret_inv in H as [_ ->].
  exists b. split; [exact Hb|].
  rewrite H4, H3, H2, H1. unfold block_write_events.
  rewrite <- !app_assoc. reflexivity.
Qed.

Lemma verifyBlock_true_trace i fi j (w w' : World D) :
  nth_error (file_infos (self w)) i = Some fi ->
  verifyBlock i fi j w = Some (true, w') ->
  exists b,
    nth_error (FileInfo.blocks fi) j = Some b /\
    trace w' = trace w ++ block_verify_events fi b (block_bytes (self w) b).
Proof.
  unfold verifyBlock. intros Hfi H.
  apply bind_inv in H as (b & w0 & H0 & H). apply lift_inv in H0 as [Hb ->].
  apply bind_inv in H as (data & w0 & H0 & H).
  unfold block_data in H0. rewrite gets_eq in H0.
  apply lift_inv in H0 as [Hd ->].
  apply blockData_inv in Hd as (fi' & b' & Hfi' & Hb' & _ & ->).
  assert (fi' = fi) by congruence. subst fi'.
  assert (b' = b) by congruence. subst b'.
  apply guard_true in H as (w1 & H1 & H). apply seek_inv in H1.
  apply guard_true in H as (w2 & H2 & H). apply read_is_inv in H2.
  apply bind_inv in H as (u' & w4 & H4 & H). apply emit_inv in H4 as [H4 _].
  rewrite gets_eq in H. apply ret_inv in H as [_ ->].
  exists b. split; [exact Hb|].
  rewrite H4, H2, H1. unfold block_verify_events.
  rewrite <- !app_assoc. reflexivity.
Qed.

Lemma block_bytes_stable t t' b :
  stable t t' -> block_bytes t' b = block_bytes t b.
Proof.
  intros (_ & _ & _ & _ & _ & Hp & _). unfold block_bytes. now rewrite Hp.
Qed.

(** A loop over the blocks of a file, and over the files, that goes
    through, when each block's round leaves the events [ev]. *)
Lemma blocks_loop_trace (body : nat -> M D bool) (t : VolumeTester)
  (fi : FileInfo.t) (ev : BlockInfo.t -> list Event) :
  (forall j, pc (body j) (@quiet D)) ->
  (forall j w w', stable t (self w) -> body j w = Some (true, w') ->
     exists b, nth_error (FileInfo.blocks fi) j = Some b /\
               trace w' = trace w ++ ev b) ->
  forall w w', stable t (self w) ->
    for_loop (length (FileInfo.blocks fi)) 0 body w = Some (true, w') ->
    stable t (self w') /\
    trace w' = trace w ++ concat (map ev (FileInfo.blocks fi)).
Proof.
  intros Hq Hb w w' Hs H.
  destruct (for_loop_over (FileInfo.blocks fi) body
              (fun w => stable t (self w)) (fun b d => d = ev b))
    with (w := w) (w' := w') as (Hs' & ds & Hds & Hf); auto.
  - intros j w1 w2 H1 H2. split.
    + eapply stable_trans; [exact H1|]. apply (Hq _ _ _ _ H2).
    + destruct (Hb _ _ _ H1 H2) as (b & Hn & Ht). eauto.
  - split; [exact Hs'|]. apply Forall2_eq_map in Hf. now subst ds.
Qed.

Lemma files_loop_trace (body : nat -> M D bool) (t : VolumeTester)
  (ev : FileInfo.t -> list Event) :
  (forall i w w', stable t (self w) -> body i w = Some (true, w') ->
     stable t (self w') /\
     exists fi, nth_error (file_infos t) i = Some fi /\
                trace w' = trace w ++ ev fi) ->
  forall w w', stable t (self w) ->
    for_loop (length (file_infos t)) 0 body w = Some (true, w') ->
    stable t (self w') /\
    trace w' = trace w ++ concat (map ev (file_infos t)).
Proof.
  intros Hb w w' Hs H.
  destruct (for_loop_over (file_infos t) body
              (fun w => stable t (self w)) (fun fi d => d = ev fi))
    with (w := w) (w' := w') as (Hs' & ds & Hds & Hf); auto.
  - intros j w1 w2 H1 H2.
    destruct (Hb _ _ _ H1 H2) as (H3 & fi & Hn & Ht). eauto 6.
  - split; [exact Hs'|]. apply Forall2_eq_map in Hf. now subst ds.
Qed.

Lemma stable_file_at t i (w w1 : World D) fi :
  stable t (self w) -> file_at i w = Some (fi, w1) ->
  w1 = w /\ nth_error (file_infos t) i = Some fi.
Proof.
  intros (_ & _ & _ & _ & _ & _ & Hl) H.
  apply file_at_inv in H as [-> H]. rewrite Hl in H. auto.
Qed.

Lemma writeFile_true_trace t i (w w' : World D) :
  stable t (self w) ->
  writeFile i w = Some (true, w') ->
  stable t (self w') /\
  exists fi, nth_error (file_infos t) i = Some fi /\
             trace w' = trace w ++ file_write_events t fi.
Proof.
  intros Hs H. unfold writeFile in H.
  apply bind_inv in H as (fi & w0 & H0 & H).
  apply (stable_file_at t) in H0 as [-> Hfi]; [|exact Hs].
  apply bind_inv in H as (u & w1 & H1 & H).
  assert (Hs1 : stable t (self w1)).
  { eapply stable_trans; [exact Hs|]. apply (pc_fsync _ _ _ _ H1). }
  apply fsync_trace in H1.
  destruct (blocks_loop_trace (writeBlock i fi) t fi
              (fun b => block_write_events fi b (block_bytes t b)))
    with (w := w1) (w' := w') as (Hs' & Ht); auto.
  - intros j. apply pc_writeBlock.
  - intros j w2 w3 H2 H3.
    apply writeBlock_true_trace in H3 as (b & Hb & Ht);
      [|destruct H2 as (_ & _ & _ & _ & _ & _ & Hl); now rewrite Hl].
    exists b. split; [exact Hb|].
    now rewrite Ht, (block_bytes_stable _ _ _ H2).
  - split; [exact Hs'|]. exists fi. split; [exact Hfi|].
    rewrite Ht, H1, <- app_assoc. reflexivity.
Qed.

Lemma verifyFile_true_trace t i (w w' : World D) :
  stable t (self w) ->
  verifyFile i w = Some (true, w') ->
  stable t (self w') /\
  exists fi, nth_error (file_infos t) i = Some fi /\
             trace w' = trace w ++ file_verify_events t fi.
Proof.
  intros Hs H. unfold verifyFile in H.
  apply bind_inv in H as (fi & w0 & H0 & H).
  apply (stable_file_at t) in H0 as [-> Hfi]; [|exact Hs].
  apply bind_inv in H as (u & w1 & H1 & H).
  assert (Hs1 : stable t (self w1)).
  { eapply stable_trans; [exact Hs|]. apply (pc_fsync _ _ _ _ H1). }
  apply fsync_trace in H1.
  destruct (blocks_loop_trace (verifyBlock i fi) t fi
              (fun b => block_verify_events fi b (block_bytes t b)))
    with (w := w1) (w' := w') as (Hs' & Ht); auto.
  - intros j. apply pc_verifyBlock.
  - intros j w2 w3 H2 H3.
    apply verifyBlock_true_trace in H3 as (b & Hb & Ht);
      [|destruct H2 as (_ & _ & _ & _ & _ & _ & Hl); now rewrite Hl].
    exists b. split; [exact Hb|].
    now rewrite Ht, (block_bytes_stable _ _ _ H2).
  - split; [exact Hs'|]. exists fi. split; [exact Hfi|].
    rewrite Ht, H1, <- app_assoc. reflexivity.
Qed.

(** The two phases from a world whose plan and pattern are those of [t]. *)
Lemma writeFull_from t (w w' : World D) :
  stable t (self w) ->
  writeFull w = Some (true, w') ->
  stable t (self w') /\
  trace w' = trace w ++ write_events t.
Proof.
  intros Hs H. unfold writeFull in H.
  apply bind_inv in H as (u & w1 & H1 & H). rewrite gets_eq in H.
  pose proof (pc_emit _ _ _ _ H1) as (S1 & _).
  apply emit_inv in H1 as [H1 _].
  assert (Hs1 : stable t (self w1)) by (eapply stable_trans; eauto).
  replace (file_infos (self w1)) with (file_infos t) in H
    by (symmetry; apply Hs1).
  destruct (files_loop_trace writeFile t (file_write_events t))
    with (w := w1) (w' := w') as (Hs' & Ht); auto.
  - intros i w2 w3. apply writeFile_true_trace.
  - split; [exact Hs'|]. rewrite Ht, H1, <- app_assoc. reflexivity.
Qed.

Lemma verifyFull_from t (w w' : World D) :
  stable t (self w) ->
  verifyFull w = Some (true, w') ->
  stable t (self w') /\
  trace w' = trace w ++ verify_events t.
Proof.
  intros Hs H. unfold verifyFull in H.
  apply bind_inv in H as (u & w1 & H1 & H). rewrite gets_eq in H.
  pose proof (pc_emit _ _ _ _ H1) as (S1 & _).
  apply emit_inv in H1 as [H1 _].
  assert (Hs1 : stable t (self w1)) by (eapply stable_trans; eauto).
  replace (file_infos (self w1)) with (file_infos t) in H
    by (symmetry; apply Hs1).
  destruct (files_loop_trace verifyFile t (file_verify_events t))
    with (w := w1) (w' := w') as (Hs' & Ht); auto.
  - intros i w2 w3. apply verifyFile_true_trace.
  - split; [exact Hs'|]. rewrite Ht, H1, <- app_assoc. reflexivity.
Qed.

(** X7: a write phase that goes through has written every block of the
    plan, once, in order. Its events are [writeStarted] and then, file by
    file in the plan's order, the flush of the file and, block by block,
    the seek to the block's offset in the file, the write of the block's
    data with the block's size as its answer, the flush and [written] with
    the block's absolute end; nothing else. The plan and the pattern are
    as they were. *)
Theorem writeFull_writes_all (w w' : World D) :
  writeFull w = Some (true, w') ->
  stable (self w) (self w') /\
  trace w' = trace w ++ write_events (self w).
Proof. apply writeFull_from, stable_refl. Qed.

(** X8: a verification that goes through has read every block of the
    plan back, once, in order, and found the block's data. Its events are
    [verifyStarted] and then, file by file, the flush of the file and,
    block by block, the seek to the block's offset, the read of as many
    bytes as the block has, which returned the block's data, and
    [verified] with the block's absolute end; nothing else. *)
Theorem verifyFull_reads_all (w w' : World D) :
  verifyFull w = Some (true, w') ->
  stable (self w) (self w') /\
  trace w' = trace w ++ verify_events (self w).
Proof. apply verifyFull_from, stable_refl. Qed.

(** X6: an initialization that goes through has made and tested every
    file of the plan, and then tested every file again. After
    [initializationStarted] come, file by file in the plan's order, the
    events of [init_events] (open, id written, file grown, last byte put,
    [initialized], last byte and id read back); and after the last file's,
    again file by file, the events of the second quick test (last byte and
    id read back), each with a last byte that is 254. *)
Theorem initialize_creates_all (w w' : World D) :
  initialize w = Some (true, w') ->
  exists ds1 ds2,
    trace w' = trace w ++
      Emit (initializationStarted (bytes_total (self w)))
      :: concat ds1 ++ concat ds2 /\
    Forall2 (fun fi d => exists err c, to_uchar c = byte_fe /\
                                       d = init_events fi err c)
            (file_infos (self w)) ds1 /\
    Forall2 (fun fi d => exists c, to_uchar c = byte_fe /\
                                   d = quick_events fi c)
            (file_infos (self w)) ds2.
Proof.
  intros H. unfold initialize in H. rewrite gets_eq in H.
  apply bind_inv in H as (u & w1 & H1 & H). rewrite gets_eq in H.
  pose proof (pc_emit _ _ _ _ H1) as (S1 & _).
  apply emit_inv in H1 as [H1 _].
  replace (file_infos (self w1)) with (file_infos (self w)) in H
    by (symmetry; apply S1).
  apply bind_inv in H as ([|] & w2 & H2 & H).
  2:{ apply ret_inv in H as [? _]. discriminate. }
  set (t := self w) in *.
  destruct (for_loop_over (file_infos t) initFile
              (fun w => stable t (self w))
              (fun fi d => exists err c, to_uchar c = byte_fe /\
                                         d = init_events fi err c))
    with (w := w1) (w' := w2) as (Hs2 & ds1 & Hds1 & Hf1); auto.
  { intros i wa wb Ha Hb.
    assert (Hfi : exists fi, nth_error (file_infos (self wa)) i = Some fi).
    { unfold initFile in Hb. apply bind_inv in Hb as (fi & w0 & H0 & _).
      apply file_at_inv in H0 as [_ H0]. eauto. }
    destruct Hfi as (fi & Hfi). split.
    - eapply stable_trans; [exact Ha|]. apply (keeps_initFile _ _ _ _ Hb).
    - destruct (initFile_true _ _ _ _ Hfi Hb) as (err & c & Hc & Ht).
      exists fi. eexists. split; [|eauto].
      destruct Ha as (_ & _ & _ & _ & _ & _ & Hl). now rewrite <- Hl. }
  destruct (for_loop_over (file_infos t) recheckFile
              (fun w => stable t (self w))
              (fun fi d => exists c, to_uchar c = byte_fe /\
                                     d = quick_events fi c))
    with (w := w2) (w' := w') as (Hs3 & ds2 & Hds2 & Hf2); auto.
  { intros i wa wb Ha Hb. split.
    - eapply stable_trans; [exact Ha|]. apply (pc_recheckFile _ _ _ _ Hb).
    - unfold recheckFile in Hb. apply bind_inv in Hb as (fi & w0 & H0 & Hb).
      apply (stable_file_at t) in H0 as [-> Hfi]; [|exact Ha].
      apply quick_test_true in Hb as (c & Hc & Ht).
      exists fi. eexists. split; [exact Hfi|]. split; [exact Ht|].
      exists c. split; [exact Hc | reflexivity]. }
  exists ds1, ds2. split; [|split; assumption].
  rewrite Hds2, Hds1, H1, <- !app_assoc. reflexivity.
Qed.

End Success.

Lemma initialize_creates_all_witness :
  exists ds1 ds2,
    trace sample_inited = trace sample_planned ++
      Emit (initializationStarted (bytes_total (self sample_planned)))
      :: concat ds1 ++ concat ds2 /\
    Forall2 (fun fi d => exists err c, to_uchar c = byte_fe /\
                                       d = init_events fi err c)
            (file_infos (self sample_planned)) ds1 /\
    Forall2 (fun fi d => exists c, to_uchar c = byte_fe /\
                                   d = quick_events fi c)
            (file_infos (self sample_planned)) ds2.
Proof.
  apply (initialize_creates_all sample_planned sample_inited).
  vm_compute. reflexivity.
Defined.

Lemma writeFull_writes_all_witness :
  stable (self sample_inited) (self sample_written) /\
  trace sample_written
  = trace sample_inited ++ @write_events Mem.t MemEnv (self sample_inited).
Proof.
  apply (writeFull_writes_all sample_inited sample_written).
  vm_compute. reflexivity.
Defined.

Lemma verifyFull_reads_all_witness :
  stable (self sample_written) (self (after verifyFull sample_written)) /\
  trace (after verifyFull sample_written)
  = trace sample_written ++ @verify_events Mem.t MemEnv (self sample_written).
Proof.
  apply (verifyFull_reads_all sample_written (after verifyFull sample_written)).
  vm_compute. reflexivity.
Defined.

(** ** The verifier finds a block that is not as written *)

(** The events of a block whose verification fails: a failed seek, or a
    read that returned other bytes than the block's data, and the
    signal. *)
Definition verify_error_events (fi : FileInfo.t) (b : BlockInfo.t)
  (data : QByteArray) (l : list Event) : Prop :=
  let p := FileInfo.path fi in
  let failure :=
    Emit (verifyFailed (BlockInfo.abs_offset b) (BlockInfo.size b)) in
  l = [Seek p (BlockInfo.rel_offset b) false; failure] \/
  exists r, r <> data /\
    l = [Seek p (BlockInfo.rel_offset b) true;
         Read p (BlockInfo.size b) r; failure].

(** The seek to block [b] of [fi] fails in [d], or the read of the
    block there returns other bytes than [data]. *)
Definition verify_fails {D : Type} {E : Env D}
  (fi : FileInfo.t) (b : BlockInfo.t) (data : QByteArray) (d : D) : Prop :=
  let p := FileInfo.path fi in
  snd (file_seek p (BlockInfo.rel_offset b) d) = false \/
  snd (file_read p (BlockInfo.size b)
         (fst (file_seek p (BlockInfo.rel_offset b) d)))
  <> data.

Section Verifier.

Context {D : Type} {E : Env D}.

Local Notation "x <- c ;; k" := (bind c (fun x => k))
  (at level 61, c at next level, right associativity).
Local Notation "c ;; k" := (bind c (fun _ => k))
  (at level 61, right associativity).

(** The verifier's run up to block [k] of file [f], that block not
    included: [true] when it got there. *)
Definition verifier_until (f k : nat) : M D bool :=
  emit verifyStarted ;;
  ok <- for_loop f 0 verifyFile ;;
  if ok then
    fi <- file_at f ;;
    fsync (FileInfo.path fi) ;;
    for_loop k 0 (verifyBlock f fi)
  else ret false.

Lemma pc_verifier_until f k : pc (verifier_until f k) (@quiet D).
Proof.
  unfold verifier_until.
  pose proof (pc_file_at (D:=D)). pose proof (pc_verifyFile (D:=D)).
  pose proof (pc_verifyBlock (D:=D)). quiet_tac.
Qed.

Lemma verifier_until_inv f k (w0 wk : World D) :
  verifier_until f k w0 = Some (true, wk) ->
  exists wa w1 fi w2,
    emit verifyStarted w0 = Some (tt, wa) /\
    for_loop f 0 verifyFile wa = Some (true, w1) /\
    nth_error (file_infos (self w1)) f = Some fi /\
    fsync (FileInfo.path fi) w1 = Some (tt, w2) /\
    for_loop k 0 (verifyBlock f fi) w2 = Some (true, wk) /\
    file_infos (self wa) = file_infos (self w0) /\
    file_infos (self w1) = file_infos (self w0) /\
    file_infos (self wk) = file_infos (self w0).
Proof.
  intros H. pose proof (pc_verifier_until f k _ _ _ H) as Hq.
  unfold verifier_until in H.
  apply bind_inv in H as ([] & wa & Ha & H).
  apply bind_inv in H as ([|] & w1 & H1 & H); [|discriminate].
  apply bind_inv in H as (fi & w1' & Hfi & H).
  apply file_at_inv in Hfi as [-> Hfi].
  apply bind_inv in H as ([] & w2 & H2 & H).
  exists wa, w1, fi, w2. repeat split; auto.
  - apply quiet_file_infos. eapply pc_emit; eauto.
  - transitivity (file_infos (self wa)).
    + apply quiet_file_infos. eapply (pc_for_loop verifyFile); eauto.
      intros. apply pc_verifyFile.
    + apply quiet_file_infos. eapply pc_emit; eauto.
  - now apply quiet_file_infos.
Qed.

(** The verifier stops at the block whose round returns [false]. *)
Lemma verifyFull_stops f k fi (w0 wk w' : World D) :
  verifier_until f k w0 = Some (true, wk) ->
  nth_error (file_infos (self wk)) f = Some fi ->
  (k < length (FileInfo.blocks fi))%nat ->
  verifyBlock f fi k wk = Some (false, w') ->
  verifyFull w0 = Some (false, w').
Proof.
  intros Hu Hfi Hk Hb.
  apply verifier_until_inv in Hu
    as (wa & w1 & fi' & w2 & Ha & H1 & Hfi' & H2 & Hl & Ea & E1 & Ek).
  assert (fi' = fi) by congruence. subst fi'.
  assert (Hf : (f < length (file_infos (self wa)))%nat).
  { apply nth_error_Some. congruence. }
  unfold verifyFull. rewrite (bind_eq _ _ _ _ _ Ha), gets_eq.
  replace (length (file_infos (self wa)))
    with (f + S (length (file_infos (self wa)) - f - 1))%nat by lia.
  eapply for_loop_stop; [exact H1|]. cbn [Nat.add].
  unfold verifyFile.
  rewrite (bind_eq _ _ _ _ _ (file_at_eq _ _ _ Hfi')).
  rewrite (bind_eq _ _ _ _ _ H2).
  replace (length (FileInfo.blocks fi))
    with (k + S (length (FileInfo.blocks fi) - k - 1))%nat by lia.
  eapply for_loop_stop; [exact Hl|]. exact Hb.
Qed.

Lemma verifyBlock_verify_error f fi k b data (wk : World D) :
  nth_error (FileInfo.blocks fi) k = Some b ->
  blockData (self wk) f k = Some data ->
  verify_fails fi b data (dev wk) ->
  exists w' l,
    verifyBlock f fi k wk = Some (false, w') /\
    has_flag (error_type (self w')) Error.Verify = true /\
    trace w' = trace wk ++ l /\
    verify_error_events fi b data l.
Proof.
  intros Hb Hd Hfail. unfold verifyBlock.
  rewrite (lift_eq _ _ _ _ Hb).
  rewrite (bind_eq _ _ _ _ _ (block_data_eq _ _ _ _ Hd)).
  set (p := FileInfo.path fi). set (off := BlockInfo.rel_offset b).
  unfold verify_fails in Hfail. fold p off in Hfail.
  destruct (snd (file_seek p off (dev wk))) eqn:Hs.
  - destruct Hfail as [?|Hw]; [discriminate|].
    assert (H1 : seek p off wk
                 = Some (true, absorb (mkWorld (fst (file_seek p off (dev wk)))
                                         (trace wk ++ [Seek p off true])
                                         (self wk)))).
    { unfold seek. rewrite io_eq, Hs. reflexivity. }
    rewrite (guard_pass _ _ _ _ _ H1).
    set (w1 := absorb _) in *.
    set (r := snd (file_read p (BlockInfo.size b)
                     (fst (file_seek p off (dev wk))))) in *.
    assert (Hn : snd (file_read p (BlockInfo.size b) (dev w1)) = r).
    { unfold w1. rewrite absorb_dev. reflexivity. }
    assert (H2 : read_is p (BlockInfo.size b) data w1
                 = Some (false,
                         absorb (mkWorld
                                   (fst (file_read p (BlockInfo.size b) (dev w1)))
                                   (trace w1 ++ [Read p (BlockInfo.size b) r])
                                   (self w1)))).
    { unfold read_is, read. erewrite bind_eq by apply io_eq.
      rewrite Hn. unfold ret. do 2 f_equal.
      destruct (bytes_eqb r data) eqn:Heq; [|reflexivity].
      apply bytes_eqb_eq in Heq. contradiction. }
    set (w2 := absorb _) in H2.
    destruct (verify_failed_eq (BlockInfo.abs_offset b) (BlockInfo.size b) w2)
      as (w3 & Hv & Ht & Hf).
    exists w3. eexists. split; [eapply guard_fail; eauto|].
    split; [exact Hf|]. split.
    + rewrite Ht. unfold w2. rewrite absorb_trace. cbn [trace].
      unfold w1. rewrite absorb_trace. cbn [trace].
      rewrite <- !app_assoc. reflexivity.
    + right. exists r. split; [exact Hw | reflexivity].
  - assert (H1 : seek p off wk
                 = Some (false, absorb (mkWorld (fst (file_seek p off (dev wk)))
                                          (trace wk ++ [Seek p off false])
                                          (self wk)))).
    { unfold seek. rewrite io_eq, Hs. reflexivity. }
    set (w1 := absorb _) in *.
    destruct (verify_failed_eq (BlockInfo.abs_offset b) (BlockInfo.size b) w1)
      as (w3 & Hv & Ht & Hf).
    exists w3. eexists. split; [eapply guard_fail; eauto|].
    split; [exact Hf|]. split.
    + rewrite Ht. unfold w1. rewrite absorb_trace. cbn [trace].
      rewrite <- !app_assoc. reflexivity.
    + left. reflexivity.
Qed.

End Verifier.

(** What the verifier does when it began in [w0] and stands in [wk]
    before block [b] of file [fi], whose data is [data], and the block
    does not read back as written. *)
Definition verify_error_spec {D : Type} {E : Env D}
  (w0 wk : World D) (fi : FileInfo.t) (b : BlockInfo.t) (data : QByteArray)
  : Prop :=
  exists w' l,
    verifyFull w0 = Some (false, w') /\
    has_flag (error_type (self w')) Error.Verify = true /\
    trace w' = trace wk ++ l /\
    verify_error_events fi b data l.

(** X9: the verifier finds the first block that does not read back as
    written. When it has come to block [k] of file [f] and the seek to the
    block fails or the read returns other bytes than the block's data,
    [verifyFull] returns [false] with the [Verify] flag set; after what
    happened before the block the events are the failed seek, or the seek
    and the one read, and then [verifyFailed] with the block's absolute
    offset and size, and nothing else: no later block is read. *)
Theorem verifyFull_verify_error {D : Type} {E : Env D}
  (w0 wk : World D) (f k : nat)
  (fi : FileInfo.t) (b : BlockInfo.t) (data : QByteArray) :
  verifier_until f k w0 = Some (true, wk) ->
  nth_error (file_infos (self wk)) f = Some fi ->
  nth_error (FileInfo.blocks fi) k = Some b ->
  blockData (self wk) f k = Some data ->
  verify_fails fi b data (dev wk) ->
  verify_error_spec w0 wk fi b data.
Proof.
  intros Hu Hfi Hb Hd Hfail.
  destruct (verifyBlock_verify_error f fi k b data wk Hb Hd Hfail)
    as (w' & l & Hw & Hf & Ht & Hl).
  exists w', l. split; [|auto].
  eapply verifyFull_stops; eauto.
  apply nth_error_Some. congruence.
Qed.

(** The sample after its write phase, on a volume that has lost the
    second block of the first file: it reads as zeros. *)
Definition lossy_written : World Mem.t :=
  mkWorld
    (Mem.with_files
       (Mem.update "/mnt/CAPACITYTESTER0"
          (firstn 4 (match Mem.lookup "/mnt/CAPACITYTESTER0"
                             (Mem.files (dev sample_written)) with
                     | Some c => c
                     | None => []
                     end) ++ [0; 0; 0; 0])
          (Mem.files (dev sample_written)))
       (dev sample_written))
    (trace sample_written) (self sample_written).

Definition lossy_at_block : World Mem.t :=
  after (verifier_until 0 1) lossy_written.

Lemma verifyFull_verify_error_witness :
  verifier_until 0 1 lossy_written = Some (true, lossy_at_block) /\
  verify_fails sample_file0 sample_block01 [48; 58; 49; 1] (dev lossy_at_block) /\
  verify_error_spec lossy_written lossy_at_block sample_file0 sample_block01
    [48; 58; 49; 1].
Proof.
  split; [vm_compute; reflexivity|].
  split; [right; vm_compute; congruence|].
  apply (verifyFull_verify_error lossy_written lossy_at_block 0 1
           sample_file0 sample_block01 [48; 58; 49; 1]);
    try (vm_compute; reflexivity).
  right; vm_compute; congruence.
Defined.

(** ** The names and the ids of a plan *)

(** [QString::number] gives different numbers different strings. *)
Lemma number_inj a b : number a = number b -> a = b.
Proof.
  unfold number. intros H.
  assert (Hn : forall z, NilZero.int_of_string
                           (NilZero.string_of_int (Z.to_int z))
                         = Some (Z.to_int z)).
  { intros z. apply NilZero.isi; destruct z; cbn; try discriminate;
      intros Hx; inversion Hx as [Hy];
      now apply DecimalPos.Unsigned.to_uint_nonnil in Hy. }
  pose proof (Hn a) as Ha. rewrite H, Hn in Ha. inversion Ha as [Hz].
  rewrite <- (DecimalZ.of_to a), <- (DecimalZ.of_to b). now rewrite Hz.
Qed.

Lemma append_inj_l (s a b : string) :
  (s ++ a)%string = (s ++ b)%string -> a = b.
Proof. induction s as [|c s IH]; cbn; intros H; [exact H|]. inversion H. auto. Qed.

Lemma absoluteFilePath_inj dir a b :
  absoluteFilePath dir a = absoluteFilePath dir b -> a = b.
Proof.
  unfold absoluteFilePath. destruct (String.eqb dir "/"); intros H.
  - now apply (append_inj_l "/") in H.
  - apply append_inj_l in H. now apply (append_inj_l "/") in H.
Qed.

Lemma startsWith_append (p s : string) : startsWith (p ++ s) p = true.
Proof.
  unfold startsWith. induction p as [|c p IH]; cbn.
  - now destruct s.
  - destruct (ascii_dec c c) as [_|Hn]; [exact IH | now destruct Hn].
Qed.

(** A byte of a number's digits is neither the colon of a block's id nor
    the byte 1 that ends an id. *)
Definition plain (b : Z) : Prop := b <> 58 /\ b <> 1.

Lemma toUtf8_cons c s :
  toUtf8 (String c s) = Z.of_N (N_of_ascii c) :: toUtf8 s.
Proof. reflexivity. Qed.

Lemma toUtf8_app a b : toUtf8 (a ++ b) = toUtf8 a ++ toUtf8 b.
Proof.
  induction a as [|c a IH]; [reflexivity|].
  cbn [String.append]. rewrite !toUtf8_cons, IH. reflexivity.
Qed.

Lemma toUtf8_inj a : forall b, toUtf8 a = toUtf8 b -> a = b.
Proof.
  induction a as [|c a IH]; intros [|c' b] H; try discriminate; [reflexivity|].
  rewrite !toUtf8_cons in H. inversion H as [[Hc Hr]].
  apply N2Z.inj in Hc.
  assert (c = c') by now rewrite <- (ascii_N_embedding c), Hc, ascii_N_embedding.
  subst c'. f_equal. now apply IH.
Qed.

Lemma plain_uint (u : Decimal.uint) :
  Forall plain (toUtf8 (NilEmpty.string_of_uint u)).
Proof.
  induction u; cbn [NilEmpty.string_of_uint]; [constructor|..];
    rewrite toUtf8_cons; constructor; try assumption;
    split; discriminate.
Qed.

Lemma plain_number z : Forall plain (toUtf8 (number z)).
Proof.
  assert (Hu : forall u, Forall plain (toUtf8 (NilZero.string_of_uint u))).
  { intros u. pose proof (plain_uint u) as H.
    destruct u; try exact H. repeat constructor; discriminate. }
  unfold number. destruct (Z.to_int z) as [u|u]; cbn [NilZero.string_of_int].
  - apply Hu.
  - rewrite toUtf8_cons. constructor; [split; discriminate | apply Hu].
Qed.

(** Two lists that agree up to the first [c] and after it. *)
Lemma app_cut {X : Type} (c : X) (l1 : list X) : forall l2 r1 r2,
  ~ In c l1 -> ~ In c l2 ->
  l1 ++ c :: r1 = l2 ++ c :: r2 -> l1 = l2 /\ r1 = r2.
Proof.
  induction l1 as [|x l1 IH]; intros [|y l2] r1 r2 H1 H2 H; cbn in *.
  - inversion H. auto.
  - inversion H; subst. tauto.
  - inversion H; subst. tauto.
  - inversion H; subst.
    destruct (IH l2 r1 r2) as [-> ->]; auto.
Qed.

Lemma plain_no (c : Z) (l : list Z) :
  (c = 58 \/ c = 1) -> Forall plain l -> ~ In c l.
Proof.
  intros Hc Hl Hin. rewrite Forall_forall in Hl.
  destruct (Hl _ Hin) as [H1 H2]. destruct Hc; congruence.
Qed.

Lemma block_id_bytes i j :
  block_id i j = toUtf8 (number i) ++ 58 :: toUtf8 (number j) ++ [1].
Proof.
  unfold block_id. rewrite !toUtf8_app, <- app_assoc. reflexivity.
Qed.

(** The id of a block says which block it is. *)
Lemma block_id_inj i j i' j' :
  block_id i j = block_id i' j' -> i = i' /\ j = j'.
Proof.
  rewrite !block_id_bytes. intros H.
  apply app_cut in H as [Hi Hj];
    try (apply plain_no; [auto | apply plain_number]).
  apply app_inj_tail in Hj as [Hj _].
  split; apply number_inj, toUtf8_inj; assumption.
Qed.

(** Data that begin with the ids of two blocks begin with the same id. *)
Lemma block_id_prefix i j i' j' r r' :
  block_id i j ++ r = block_id i' j' ++ r' -> i = i' /\ j = j'.
Proof.
  rewrite !block_id_bytes. intros H.
  rewrite <- !app_assoc in H. cbn [app] in H.
  apply app_cut in H as [Hi Hj];
    try (apply plain_no; [auto | apply plain_number]).
  rewrite <- !app_assoc in Hj. cbn [app] in Hj.
  apply app_cut in Hj as [Hj _];
    try (apply plain_no; [auto | apply plain_number]).
  split; apply number_inj, toUtf8_inj; assumption.
Qed.

(** What the planner's loops collected. *)
Lemma collect_nth {X : Type} (body : Z -> option X) n : forall j l,
  collect n j body = Some l ->
  length l = n /\
  forall k x, nth_error l k = Some x -> body (j + Z.of_nat k) = Some x.
Proof.
  induction n as [|n IH]; intros j l H; cbn [collect] in H.
  - inversion H; subst. split; [reflexivity|]. intros [|k] x Hk; discriminate.
  - destruct (body j) as [x0|] eqn:Hb; [|discriminate].
    destruct (collect n (j + 1) body) as [rest|] eqn:Hc; [|discriminate].
    inversion H; subst. destruct (IH _ _ Hc) as [Hl Hn].
    split; [cbn; lia|]. intros [|k] x Hk; cbn in Hk.
    + inversion Hk; subst. now rewrite Z.add_0_r.
    + apply Hn in Hk. rewrite <- Hk. f_equal. lia.
Qed.

Section PlanNames.

Variables fsm bsm : Z.
Variables prefix dir : string.

Lemma plan_block_inv i foff bc lbs j b :
  plan_block bsm i foff bc lbs j = Some b ->
  BlockInfo.id b = block_id i j /\ 0 < BlockInfo.size b.
Proof.
  unfold plan_block. intros H.
  match type of H with
  | context [assert (0 <? ?s)] => destruct (0 <? s) eqn:Hs; [|discriminate]
  end.
  cbn [assert] in H.
  destruct (0 <=? to_qint64 (j * bsm)); [|discriminate].
  cbn [assert] in H. inversion H; subst. cbn. apply Z.ltb_lt in Hs. auto.
Qed.

Lemma plan_file_inv fc lfs i fi :
  plan_file fsm bsm prefix dir fc lfs i = Some fi ->
  FileInfo.path fi = absoluteFilePath dir (prefix ++ number i) /\
  FileInfo.id fi = file_id i /\
  0 < FileInfo.size fi /\
  forall j b, nth_error (FileInfo.blocks fi) j = Some b ->
    BlockInfo.id b = block_id i (Z.of_nat j) /\ 0 < BlockInfo.size b.
Proof.
  unfold plan_file. intros H.
  match type of H with
  | context [assert (0 <? ?s)] => destruct (0 <? s) eqn:Hs; [|discriminate]
  end.
  cbn [assert] in H.
  destruct (0 <=? to_qint64 (i * fsm)); [|discriminate].
  cbn [assert] in H.
  match type of H with
  | context [collect ?n 0 ?body] =>
      destruct (collect n 0 body) as [blocks|] eqn:Hc; [|discriminate]
  end.
  match type of H with
  | context [assert ?c] => destruct c; [|discriminate]
  end.
  cbn [assert] in H. inversion H; subst. cbn.
  apply Z.ltb_lt in Hs. repeat split; auto;
    apply collect_nth in Hc as [_ Hn]; apply Hn in H0;
    apply plan_block_inv in H0; apply H0.
Qed.

Lemma plan_files_inv bytes fs i fi :
  plan_files fsm bsm prefix dir bytes = Some fs ->
  nth_error fs i = Some fi ->
  FileInfo.path fi = absoluteFilePath dir (prefix ++ number (Z.of_nat i)) /\
  FileInfo.id fi = file_id (Z.of_nat i) /\
  0 < FileInfo.size fi /\
  forall j b, nth_error (FileInfo.blocks fi) j = Some b ->
    BlockInfo.id b = block_id (Z.of_nat i) (Z.of_nat j) /\ 0 < BlockInfo.size b.
Proof.
  unfold plan_files. intros H Hi.
  apply collect_nth in H as [_ Hn]. apply Hn in Hi.
  now apply plan_file_inv in Hi.
Qed.

Lemma plan_paths_NoDup bytes fs :
  plan_files fsm bsm prefix dir bytes = Some fs -> NoDup (paths fs).
Proof.
  intros H. apply NoDup_nth_error. intros i j Hi Hij.
  unfold paths in *. rewrite length_map in Hi. rewrite !nth_error_map in Hij.
  destruct (nth_error fs i) as [fi|] eqn:Hfi.
  2:{ apply nth_error_None in Hfi. lia. }
  destruct (nth_error fs j) as [fj|] eqn:Hfj; [|discriminate].
  cbn in Hij. inversion Hij as [Hp].
  apply (plan_files_inv _ _ _ _ H) in Hfi as (Pi & _).
  apply (plan_files_inv _ _ _ _ H) in Hfj as (Pj & _).
  rewrite Pi, Pj in Hp.
  apply absoluteFilePath_inj, append_inj_l, number_inj in Hp. lia.
Qed.

End PlanNames.

(** X10: the files of a plan have paths of their own. File [i] of a plan
    (whatever the sizes and the bytes it was made for) lies in the
    mountpoint's directory under the name made of the prefix and the
    decimal digits of [i], and no two files of the plan have the same
    path. *)
Theorem plan_paths_distinct (fsm bsm : Z) (prefix dir : string) (bytes : Z)
  (fs : list FileInfo.t) :
  plan_files fsm bsm prefix dir bytes = Some fs ->
  NoDup (paths fs) /\
  forall i fi, nth_error fs i = Some fi ->
    FileInfo.path fi = absoluteFilePath dir (prefix ++ number (Z.of_nat i)).
Proof.
  intros H. split; [eapply plan_paths_NoDup; eauto|].
  intros i fi Hi. eapply plan_files_inv; eauto.
Qed.

Lemma plan_paths_distinct_witness :
  plan_files 8 4 "CAPACITYTESTER" "/mnt" 21
  = Some (file_infos (self sample_planned)) /\
  paths (file_infos (self sample_planned))
  = ["/mnt/CAPACITYTESTER0"; "/mnt/CAPACITYTESTER1";
     "/mnt/CAPACITYTESTER2"]%string /\
  NoDup (paths (file_infos (self sample_planned))) /\
  forall i fi, nth_error (file_infos (self sample_planned)) i = Some fi ->
    FileInfo.path fi
    = absoluteFilePath "/mnt" ("CAPACITYTESTER" ++ number (Z.of_nat i)).
Proof.
  split; [vm_compute; reflexivity|]. split; [vm_compute; reflexivity|].
  apply (plan_paths_distinct 8 4 "CAPACITYTESTER" "/mnt" 21).
  vm_compute. reflexivity.
Defined.

(** X11: the files a test leaves behind are conflict files. Every file
    of a plan made for the tester [t] has a name that begins with the
    tester's prefix; so when such a file is still listed in the root (the
    program crashed, or the removal failed), [conflictFiles] reports it. *)
Theorem leftovers_are_conflicts {D : Type} {E : Env D}
  (d : D) (t : VolumeTester) (bytes : Z)
  (fs : list FileInfo.t) (i : nat) (fi : FileInfo.t) :
  file_prefix t <> ""%string ->
  plan_files (file_size_max t) (block_size_max t) (file_prefix t)
    (mountpoint t) bytes = Some fs ->
  nth_error fs i = Some fi ->
  exists name,
    FileInfo.path fi = absoluteFilePath (mountpoint t) name /\
    startsWith name (file_prefix t) = true /\
    (In name (rootFiles d t) ->
     exists l, conflictFiles d t = Some l /\ In name l).
Proof.
  intros Hp H Hi.
  exists (file_prefix t ++ number (Z.of_nat i))%string.
  split; [eapply plan_files_inv; eauto|].
  split; [apply startsWith_append|].
  intros Hin. destruct (conflictFiles_spec d t Hp) as (l & Hl & Hspec).
  exists l. split; [exact Hl|]. apply Hspec.
  split; [exact Hin | apply startsWith_append].
Qed.

Lemma leftovers_are_conflicts_witness :
  nth_error (file_infos (self sample_planned)) 1
  = Some (sample_file 1) /\
  In "CAPACITYTESTER1"%string
     (rootFiles (dev (after start sticky_start)) (self sample_planned)) /\
  exists name,
    FileInfo.path (sample_file 1)
    = absoluteFilePath (mountpoint (self sample_planned)) name /\
    startsWith name (file_prefix (self sample_planned)) = true /\
    (In name (rootFiles (dev (after start sticky_start))
                        (self sample_planned)) ->
     exists l, conflictFiles (dev (after start sticky_start))
                 (self sample_planned) = Some l /\ In name l).
Proof.
  split; [vm_compute; reflexivity|].
  split; [vm_compute; auto|].
  apply (leftovers_are_conflicts (dev (after start sticky_start))
           (self sample_planned) 21 (file_infos (self sample_planned)) 1).
  - vm_compute. discriminate.
  - vm_compute. reflexivity.
  - vm_compute. reflexivity.
Defined.

(** X12: different blocks get different data. In a tester whose plan
    the planner made, two blocks that are not the same block (of the same
    file or of two files), each at least as long as its id, never have the
    same block data: the data begin with the blocks' ids, which name the
    file and the block. *)
Theorem block_data_distinct (t : VolumeTester) (bytes : Z)
  (i j i' j' : nat) (fi fi' : FileInfo.t) (b b' : BlockInfo.t)
  (data data' : QByteArray) :
  plan_files (file_size_max t) (block_size_max t) (file_prefix t)
    (mountpoint t) bytes = Some (file_infos t) ->
  nth_error (file_infos t) i = Some fi ->
  nth_error (FileInfo.blocks fi) j = Some b ->
  nth_error (file_infos t) i' = Some fi' ->
  nth_error (FileInfo.blocks fi') j' = Some b' ->
  bsize (BlockInfo.id b) <= BlockInfo.size b ->
  bsize (BlockInfo.id b') <= BlockInfo.size b' ->
  blockData t i j = Some data ->
  blockData t i' j' = Some data' ->
  (i, j) <> (i', j') ->
  data <> data'.
Proof.
  intros Hplan Hfi Hb Hfi' Hb' Hs Hs' Hd Hd' Hne Heq. apply Hne.
  apply blockData_inv in Hd as (f1 & b1 & F1 & B1 & _ & ->).
  apply blockData_inv in Hd' as (f2 & b2 & F2 & B2 & _ & ->).
  rename Heq into Hd'.
  assert (f1 = fi) by congruence. subst f1.
  assert (b1 = b) by congruence. subst b1.
  assert (f2 = fi') by congruence. subst f2.
  assert (b2 = b') by congruence. subst b2.
  destruct (plan_files_inv _ _ _ _ _ _ _ _ Hplan Hfi) as (_ & _ & _ & Hid).
  destruct (plan_files_inv _ _ _ _ _ _ _ _ Hplan Hfi') as (_ & _ & _ & Hid').
  destruct (Hid _ _ Hb) as [Ib _]. destruct (Hid' _ _ Hb') as [Ib' _].
  unfold block_bytes in Hd'.
  replace (BlockInfo.size b >=? bsize (BlockInfo.id b)) with true in Hd'
    by (symmetry; rewrite Z.geb_leb; now apply Z.leb_le).
  replace (BlockInfo.size b' >=? bsize (BlockInfo.id b')) with true in Hd'
    by (symmetry; rewrite Z.geb_leb; now apply Z.leb_le).
  rewrite Ib, Ib' in Hd'.
  apply block_id_prefix in Hd' as [Hi Hj].
  f_equal; lia.
Qed.

Lemma block_data_distinct_witness :
  blockData (self sample_planned) 0 0 = Some [48; 58; 48; 1] /\
  blockData (self sample_planned) 0 1 = Some [48; 58; 49; 1] /\
  [48; 58; 48; 1] <> [48; 58; 49; 1].
Proof.
  split; [vm_compute; reflexivity|]. split; [vm_compute; reflexivity|].
  apply (block_data_distinct (self sample_planned) 21 0 0 0 1
           sample_file0 sample_file0
           (nth 0 (FileInfo.blocks sample_file0) sample_block01)
           sample_block01);
    try (vm_compute; (reflexivity || discriminate)).
Defined.

(** ** The files a test touches *)

(** The file an event is a call on. *)
Definition path_of (e : Event) : option string :=
  match e with
  | Emit _ => None
  | Open p _ _ | Seek p _ _ | Write p _ _ | Resize p _ _ | PutChar p _ _
  | GetChar p _ | Read p _ _ | Remove p _ | Fsync p => Some p
  end.

(** The event [e] is a signal, or a call on one of the files [ps]. *)
Definition within (ps : list string) (e : Event) : Prop :=
  forall p, path_of e = Some p -> In p ps.

(** From [w], where the plan is [l], to [w'] the plan stayed and the
    calls were on files of the plan. *)
Definition on_plan {D : Type} (l : list FileInfo.t) (w w' : World D) : Prop :=
  file_infos (self w) = l ->
  file_infos (self w') = l /\
  exists d, trace w' = trace w ++ d /\ Forall (within (paths l)) d.

#[export] Instance on_plan_along {D : Type} {E : Env D} (l : list FileInfo.t) :
  Along (within (paths l))
        (fun f => forall t, file_infos (f t) = file_infos t)
        (@on_plan D l).
Proof.
  split.
  - intros w Hl. split; [exact Hl|]. exists []. now rewrite app_nil_r.
  - intros w1 w2 w3 H1 H2 Hl.
    destruct (H1 Hl) as (Hl2 & d1 & T1 & F1).
    destruct (H2 Hl2) as (Hl3 & d2 & T2 & F2).
    split; [exact Hl3|]. exists (d1 ++ d2).
    rewrite T2, T1, app_assoc. split; [reflexivity|].
    apply Forall_app. auto.
  - intros w d e He Hl. split.
    + rewrite <- Hl.
      apply (absorb_stable (mkWorld d (trace w ++ [e]) (self w))).
    + exists [e]. rewrite absorb_trace. split; [reflexivity|].
      constructor; [exact He | constructor].
  - intros w d f Hf Hl. split; [cbn; now rewrite Hf|].
    exists []. cbn. now rewrite app_nil_r.
Qed.

Section OnPlan.

Context {D : Type} {E : Env D}.
Variable l : list FileInfo.t.

Lemma on_plan_file_at {X : Type} i (k : FileInfo.t -> M D X) :
  (forall fi, In fi l -> pc (k fi) (@on_plan D l)) ->
  pc (bind (file_at i) k) (@on_plan D l).
Proof.
  intros Hk w b w' H Hl. apply bind_inv in H as (fi & w1 & H1 & H2).
  apply file_at_inv in H1 as [-> H1]. rewrite Hl in H1.
  apply nth_error_In in H1. exact (Hk fi H1 w b w' H2 Hl).
Qed.

End OnPlan.

Ltac plan_side :=
  first [ intros ?; reflexivity
        | intros ? ?; discriminate
        | let p := fresh "p" in let H := fresh "H" in
          intros p H; cbn in H; inversion H; subst;
          apply in_map; assumption ].

Ltac plan_tac :=
  repeat first
    [ apply on_plan_file_at; intros
    | cbv beta zeta delta
        [initialize initFile recheckFile quick_test writeFull writeFile
         writeBlock verifyFull verifyFile verifyBlock run_tests
         block_data create_failed write_failed resize_failed
         verify_failed write_all getChar_is read_is fsync open seek
         write resize putChar getChar read];
      along_step plan_side ].

Section OnPlanPhases.

Context {D : Type} {E : Env D}.

Lemma on_plan_run_tests l : pc run_tests (@on_plan D l).
Proof. plan_tac. Qed.

Lemma removals_within ps : forall oks,
  Forall (within ps) (removals ps oks).
Proof.
  intros oks. unfold removals. apply Forall_forall. intros e He.
  apply in_map_iff in He as ([p ok] & <- & Hin).
  apply in_combine_l in Hin. intros q Hq. cbn in Hq. now inversion Hq; subst.
Qed.

(** The calls of a test, from its plan to its end, are on files of the
    plan. *)
Lemma run_and_cleanup_within (w w' : World D) u :
  run_and_cleanup w = Some (u, w') ->
  exists d, trace w' = trace w ++ d /\
            Forall (within (paths (file_infos (self w)))) d.
Proof.
  intros H. pose proof H as H'. unfold run_and_cleanup in H.
  apply bind_inv in H as (ok & w2 & Hr & _).
  destruct (run_and_cleanup_spec _ _ _ Hr) as (w3 & oks & Hrc & _ & Ht & _).
  rewrite Hrc in H'. inversion H'; subst w3.
  destruct (on_plan_run_tests _ _ _ _ Hr eq_refl) as (Hl & d & Hd & Hf).
  eexists. rewrite Ht, Hd, <- app_assoc. split; [reflexivity|].
  apply Forall_app. split; [exact Hf|].
  constructor; [intros p Hp; discriminate|].
  constructor; [intros p Hp; discriminate|].
  rewrite Hl. apply Forall_forall. intros e He.
  pose proof (removals_within (rev (paths (file_infos (self w)))) oks) as Hw.
  rewrite Forall_forall in Hw. intros p Hp.
  apply in_rev. exact (Hw e He p Hp).
Qed.

End OnPlanPhases.

(** X13: a test touches no file but its own. Every call on a file that
    [start] makes, from its first to the removals of its cleanup, is on a
    path in the tester's mountpoint whose name is the tester's prefix
    followed by the decimal digits of a number; the other events are
    signals. *)
Theorem start_touches_own_files {D : Type} {E : Env D} (w w' : World D) :
  start w = Some (tt, w') ->
  exists d, trace w' = trace w ++ d /\
    forall e p, In e d -> path_of e = Some p ->
      exists i : nat,
        p = absoluteFilePath (mountpoint (self w))
              (file_prefix (self w) ++ number (Z.of_nat i)).
Proof.
  unfold start. intros H. apply bind_inv in H as (go & w1 & Hs & H).
  apply start_setup_inv in Hs
    as [(_ & -> & Ht)|(_ & _ & [(_ & -> & Ht)|(-> & Hb)])].
  - apply ret_inv in H as [_ ->]. eexists. split; [exact Ht|].
    intros e p [<-|[<-|[]]] Hp; discriminate.
  - apply ret_inv in H as [_ ->]. eexists. split; [exact Ht|].
    intros e p [<-|[<-|[]]] Hp; discriminate.
  - destruct Hb as (_ & Ht & _ & _ & _ & Hplan & _).
    apply run_and_cleanup_within in H as (d & Hd & Hf).
    exists d. rewrite Hd, Ht. split; [reflexivity|].
    intros e p He Hp. rewrite Forall_forall in Hf.
    apply (Hf e He p) in Hp. unfold paths in Hp.
    apply in_map_iff in Hp as (fi & <- & Hin).
    apply In_nth_error in Hin as (i & Hi). exists i.
    eapply plan_files_inv; eauto.
Qed.

Lemma start_touches_own_files_witness :
  exists d, trace (after start clash_start) = trace clash_start ++ d /\
    forall e p, In e d -> path_of e = Some p ->
      exists i : nat,
        p = absoluteFilePath (mountpoint (self clash_start))
              (file_prefix (self clash_start) ++ number (Z.of_nat i)).
Proof.
  apply (start_touches_own_files clash_start (after start clash_start)).
  vm_compute. reflexivity.
Defined.

(** ** Edges of [start] *)

Section Edges.

Context {D : Type} {E : Env D}.

(** A phase that is a signal and a loop over no file. *)
Lemma empty_phase (s : Signal) (body : nat -> M D bool) (w : World D) :
  file_infos (self w) = [] ->
  exists w',
    bind (emit s)
      (fun _ => bind (gets (fun t => length (file_infos t)))
                  (fun ii => for_loop ii 0 body)) w = Some (true, w') /\
    trace w' = trace w ++ [Emit s] /\
    stable (self w) (self w').
Proof.
  intros Hl. destruct (emit_total s w) as (w1 & H1).
  pose proof (pc_emit _ _ _ _ H1) as (S1 & _).
  exists w1. rewrite (bind_eq _ _ _ _ _ H1), gets_eq.
  replace (file_infos (self w1)) with (@nil FileInfo.t)
    by (rewrite <- Hl; symmetry; apply S1).
  split; [reflexivity|]. split; [|exact S1].
  now apply emit_inv in H1 as [H1 _].
Qed.

(** The three phases on a plan of no file. *)
Lemma run_tests_empty (w : World D) :
  file_infos (self w) = [] ->
  exists w',
    run_tests w = Some (true, w') /\
    trace w' = trace w ++
      [Emit (initializationStarted (bytes_total (self w)));
       Emit writeStarted; Emit verifyStarted] /\
    file_infos (self w') = [].
Proof.
  intros Hl.
  destruct (emit_total (initializationStarted (bytes_total (self w))) w)
    as (w1 & H1).
  pose proof (pc_emit _ _ _ _ H1) as (S1 & _).
  assert (L1 : file_infos (self w1) = []) by (rewrite <- Hl; apply S1).
  destruct (empty_phase writeStarted writeFile w1 L1) as (w2 & H2 & T2 & S2).
  assert (L2 : file_infos (self w2) = []) by (rewrite <- L1; apply S2).
  destruct (empty_phase verifyStarted verifyFile w2 L2) as (w3 & H3 & T3 & S3).
  assert (L3 : file_infos (self w3) = []) by (rewrite <- L2; apply S3).
  assert (Hi : initialize w = Some (true, w1)).
  { unfold initialize. rewrite gets_eq, (bind_eq _ _ _ _ _ H1), gets_eq, L1.
    reflexivity. }
  exists w3. split; [|split; [|exact L3]].
  - unfold run_tests. rewrite (bind_eq _ _ _ _ _ Hi).
    unfold writeFull. rewrite (bind_eq _ _ _ _ _ H2). exact H3.
  - apply emit_inv in H1 as [H1 _].
    rewrite T3, T2, H1, <- !app_assoc. reflexivity.
Qed.

End Edges.

(** A volume that claims 2^60 bytes: the number of files, 2^57, is 0 in
    an [int]. *)
Definition huge_start : World Mem.t :=
  world0 (volume (2 ^ 60) 1000 [] None) sample_tester.

(** X14: a test with a plan of no file reports success at once. When
    [start] has made a plan without files (the number of files did not fit
    its [int] and wrapped to zero or less), the three phases have nothing
    to do: the events of the test are [initializationStarted],
    [writeStarted], [verifyStarted], [succeeded] and [finished], and no
    file is created, written or read. *)
Theorem start_empty_plan {D : Type} {E : Env D} (w0 w1 : World D) :
  start_setup w0 = Some (true, w1) ->
  file_infos (self w1) = [] ->
  exists w3,
    start w0 = Some (tt, w3) /\
    trace w3 = trace w0 ++
      [Emit (initializationStarted (bytesAvailable (dev w0) (self w0)));
       Emit writeStarted; Emit verifyStarted;
       Emit succeeded; Emit finished].
Proof.
  intros Hs Hl. pose proof Hs as Hs'.
  apply start_setup_inv in Hs'
    as [(_ & ? & _)|(_ & _ & [(_ & ? & _)|(_ & Hb)])]; try discriminate.
  destruct Hb as (_ & Ht & Hbt & _).
  destruct (run_tests_empty w1 Hl) as (w2 & Hr & Htr & Hl2).
  destruct (run_and_cleanup_spec _ _ _ Hr) as (w3 & oks & Hrc & _ & Ht3 & _).
  exists w3. split.
  - unfold start. now rewrite (bind_eq _ _ _ _ _ Hs).
  - rewrite Ht3, Htr, Hl2, Ht, Hbt, <- !app_assoc. reflexivity.
Qed.

Lemma start_empty_plan_witness :
  start_setup huge_start = Some (true, after start_setup huge_start) /\
  file_infos (self (after start_setup huge_start)) = [] /\
  exists w3,
    start huge_start = Some (tt, w3) /\
    trace w3 = trace huge_start ++
      [Emit (initializationStarted
               (bytesAvailable (dev huge_start) (self huge_start)));
       Emit writeStarted; Emit verifyStarted;
       Emit succeeded; Emit finished].
Proof.
  split; [vm_compute; reflexivity|]. split; [vm_compute; reflexivity|].
  apply (start_empty_plan huge_start (after start_setup huge_start));
    vm_compute; reflexivity.
Defined.

(** A tester whose blocks are of 2^31 bytes. *)
Definition big_block_start : World Mem.t :=
  world0 (volume 21 1000 [] None)
         (small_tester (2 ^ 31) (2 ^ 32) "/mnt").

(** X15: a block size that does not fit an [int] stops the program. On
    a valid mountpoint with bytes available, when [block_size_max] is
    larger than the largest [int], [start] ends at an assertion: that of
    [generateTestPattern] on the pattern's size, or its own on the length
    of the pattern; it emits no signal and returns nothing. *)
Theorem start_block_size_int {D : Type} {E : Env D} (w : World D) :
  isValid (dev w) (self w) = true ->
  0 < bytesAvailable (dev w) (self w) ->
  INT_MAX < block_size_max (self w) ->
  start w = None.
Proof.
  intros Hv Ha Hb. destruct (start w) as [[u w']|] eqn:H; [|reflexivity].
  unfold start in H. apply bind_inv in H as (go & w1 & Hs & _).
  apply start_setup_inv in Hs
    as [(Hv' & _)|(_ & _ & [(Ha' & _)|(_ & Hbeg)])].
  - congruence.
  - lia.
  - destruct Hbeg as (_ & _ & _ & _ & Hle & _). lia.
Qed.

Lemma start_block_size_int_witness :
  INT_MAX < block_size_max (self big_block_start) /\
  start big_block_start = None.
Proof.
  split; [reflexivity|].
  apply (start_block_size_int big_block_start); reflexivity.
Defined.

(** ** The constructor *)

(** X16: a tester is as valid as the mountpoint it was made for. When
    the mountpoint given to the constructor is valid, the tester keeps it
    and is valid; when it is not, the tester keeps the empty mountpoint
    and is not valid, then or later, whatever becomes of the volumes. *)
Theorem new_tester_valid {D : Type} {E : Env D} (d : D) (m : string) :
  (isValid_at d m = true ->
   mountpoint (VolumeTester_new d m) = m /\
   isValid d (VolumeTester_new d m) = true) /\
  (isValid_at d m = false ->
   mountpoint (VolumeTester_new d m) = ""%string /\
   forall d' : D, isValid d' (VolumeTester_new d m) = false).
Proof.
  unfold isValid, mountpoint, VolumeTester_new. cbn [_mountpoint].
  split; intros H; rewrite H; auto.
Qed.

(** X17: the sizes the constructor sets pass the assertions of [start].
    With a megabyte that is positive and 512 of which fit an [int], a new
    tester has blocks of 16 and files of 512 megabytes, no flag and no
    cancellation; on a valid mountpoint with bytes available (no more
    than an [int] of files) its [start] stops at no assertion and comes to
    its tests with a plan that covers the bytes available. *)
Theorem new_tester_begins {D : Type} {E : Env D} (d : D) (m : string) :
  0 < MB -> 512 * MB <= INT_MAX ->
  isValid_at d m = true ->
  0 < storage_bytesAvailable d m <= INT_MAX * (512 * MB) ->
  let t := VolumeTester_new d m in
  config_ok t /\ error_type t = Error.Unknown /\ _canceled t = false /\
  exists w1,
    start_setup (mkWorld d [] t) = Some (true, w1) /\
    trace w1 = [] /\
    plan_ok (storage_bytesAvailable d m) (512 * MB) (16 * MB)
      (file_infos (self w1)).
Proof.
  intros HM HI Hv Ha t.
  assert (Hm : mountpoint t = m).
  { unfold t, mountpoint, VolumeTester_new. cbn. now rewrite Hv. }
  assert (Hc : config_ok t).
  { unfold config_ok, t, VolumeTester_new.
    cbn [block_size_max file_size_max].
    rewrite !Z.rem_mul by lia. lia. }
  assert (Hav : bytesAvailable d t = storage_bytesAvailable d m).
  { unfold bytesAvailable. rewrite Hm. unfold isValid_at in Hv.
    destruct (String.eqb m ""); [discriminate|].
    destruct (storage_isValid d m); [|discriminate]. cbn in Hv.
    destruct (String.eqb (storage_rootPath d m) m); [|discriminate].
    cbn in Hv. destruct (storage_isReady d m); [reflexivity | discriminate]. }
  split; [exact Hc|]. split; [reflexivity|]. split; [reflexivity|].
  destruct (start_setup_begins (mkWorld d [] t)) as (w1 & Hs & Ht & _ & _ & Hp).
  - cbn. unfold isValid. now rewrite Hm.
  - exact Hc.
  - exact HI.
  - cbn [dev self]. rewrite Hav. exact Ha.
  - exists w1. split; [exact Hs|]. split; [exact Ht|].
    cbn [dev self] in Hp. rewrite Hav in Hp. exact Hp.
Qed.

Lemma new_tester_begins_witness :
  isValid_at (volume 21 1000 [] None) "/mnt" = true /\
  let t := VolumeTester_new (volume 21 1000 [] None) "/mnt" in
  config_ok (D:=Mem.t) t /\
  error_type t = Error.Unknown /\ _canceled t = false /\
  exists w1,
    start_setup (mkWorld (volume 21 1000 [] None) [] t) = Some (true, w1) /\
    trace w1 = [] /\
    plan_ok (storage_bytesAvailable (volume 21 1000 [] None) "/mnt")
      (512 * MB (D:=Mem.t)) (16 * MB (D:=Mem.t)) (file_infos (self w1)).
Proof.
  split; [vm_compute; reflexivity|].
  apply (new_tester_begins (volume 21 1000 [] None) "/mnt");
    vm_compute; (reflexivity || (split; congruence) || congruence).
Defined.

(** ** What a phase never does *)

(** The calls of the write phase and of the verification. *)
Definition is_write_call (e : Event) : bool :=
  match e with
  | Seek _ _ _ | Write _ _ _ | Fsync _ | Emit _ => true
  | _ => false
  end.

Definition is_read_call (e : Event) : bool :=
  match e with
  | Seek _ _ _ | Read _ _ _ | Fsync _ | Emit _ => true
  | _ => false
  end.

(** X18: the three phases keep to their calls, whatever their outcome.
    The initializer removes no file and flushes none; the write phase
    only seeks, writes and flushes, and emits signals: it opens, grows,
    reads and removes nothing; the verification only seeks, reads and
    flushes, and emits signals: it writes nothing to the volume. *)
Theorem phases_keep_to_their_calls {D : Type} {E : Env D} :
  pc initialize
     (@only D (fun e => match e with
                        | Remove _ _ | Fsync _ => false
                        | _ => true
                        end)) /\
  pc writeFull (@only D is_write_call) /\
  pc verifyFull (@only D is_read_call).
Proof. repeat split; along_tac only_side. Qed.

(** ** A volume with faults

    The volume in memory, with two faults to choose from: it may refuse
    to open files, with the given [QFile::error], and it may refuse to
    grow them. *)

Module Faulty.

Record t : Type := mk {
  vol : Mem.t;
  open_error : option Z;
  can_grow : bool
}.

(** A call that goes through to the volume. *)
Definition on {A : Type} (op : Mem.t -> Mem.t * A) (d : t) : t * A :=
  let (m, r) := op (vol d) in (mk m (open_error d) (can_grow d), r).

Definition open (path : string) (d : t) : t * (bool * Z) :=
  match open_error d with
  | Some e => (d, (false, e))
  | None => on (Mem.open path) d
  end.

Definition resize (path : string) (size : Z) (d : t) : t * bool :=
  if can_grow d then on (Mem.resize path size) d else (d, false).

End Faulty.

#[export] Instance FaultyEnv : Env Faulty.t := {
  storage_isValid d m := String.eqb m (Mem.mount (Faulty.vol d));
  storage_isReady d m := Mem.ready (Faulty.vol d);
  storage_rootPath d m := Mem.mount (Faulty.vol d);
  storage_bytesAvailable d m := Mem.avail (Faulty.vol d);
  dir_entryInfoList d := Mem.entries (Faulty.vol d);
  file_open := Faulty.open;
  file_seek path p := Faulty.on (Mem.seek path p);
  file_write path data := Faulty.on (Mem.write path data);
  file_resize := Faulty.resize;
  file_putChar path c := Faulty.on (Mem.putChar path c);
  file_getChar path := Faulty.on (Mem.getChar path);
  file_read path n := Faulty.on (Mem.read path n);
  file_remove path := Faulty.on (Mem.remove path);
  file_fsync path d := d;
  c_srand d := d;
  c_rand := Faulty.on Mem.rand;
  listener s d :=
    Faulty.mk (Mem.listener s (Faulty.vol d)) (Faulty.open_error d)
      (Faulty.can_grow d);
  cancel_requested d := Mem.cancel_requested (Faulty.vol d);
  MB := 4;
  USE_FSYNC := true
}.

(** The sample volume when it opens no file ([QFile::error] is
    [OpenError], 5), and when it grows none; each with the sample's plan
    made. *)
Definition locked_planned : World Faulty.t :=
  after start_setup
    (mkWorld (Faulty.mk (volume 21 1000 [] None) (Some 5) true) []
             sample_tester).

Definition fixed_planned : World Faulty.t :=
  after start_setup
    (mkWorld (Faulty.mk (volume 21 1000 [] None) None false) []
             sample_tester).

(** ** Files that cannot be made *)

Section Creation.

Context {D : Type} {E : Env D}.

Local Notation "x <- c ;; k" := (bind c (fun x => k))
  (at level 61, c at next level, right associativity).
Local Notation "c ;; k" := (bind c (fun _ => k))
  (at level 61, right associativity).

(** The initializer's run up to file [f], that file not included. *)
Definition initializer_until (f : nat) : M D bool :=
  total <- gets bytes_total ;;
  emit (initializationStarted total) ;;
  for_loop f 0 initFile.

(** The initializer stops at the file whose round returns [false]. *)
Lemma initialize_stops f (w0 wk w' : World D) :
  initializer_until f w0 = Some (true, wk) ->
  (f < length (file_infos (self w0)))%nat ->
  initFile f wk = Some (false, w') ->
  initialize w0 = Some (false, w').
Proof.
  intros Hu Hf Hb. unfold initializer_until in Hu. rewrite gets_eq in Hu.
  apply bind_inv in Hu as (u & w1 & H1 & Hu).
  unfold initialize. rewrite gets_eq, (bind_eq _ _ _ _ _ H1), gets_eq.
  pose proof (quiet_file_infos _ _ (pc_emit _ _ _ _ H1)) as Hl.
  rewrite Hl.
  assert (Hloop : for_loop (length (file_infos (self w0))) 0 initFile w1
                  = Some (false, w')).
  { replace (length (file_infos (self w0)))
      with (f + S (length (file_infos (self w0)) - f - 1))%nat by lia.
    eapply for_loop_stop; [exact Hu|]. exact Hb. }
  now rewrite (bind_eq _ _ _ _ _ Hloop).
Qed.

Lemma initFile_create_error i fi err (w : World D) :
  nth_error (file_infos (self w)) i = Some fi ->
  snd (file_open (FileInfo.path fi) (dev w)) = (false, err) ->
  exists w',
    initFile i w = Some (false, w') /\
    trace w' = trace w ++
      [Open (FileInfo.path fi) false err;
       Emit (createFailed (Z.of_nat i) (FileInfo.offset fi))] /\
    has_flag (error_type (self w')) Error.Create = true /\
    (Z.land err PermissionsError <> 0 ->
     has_flag (error_type (self w')) Error.Permissions = true).
Proof.
  intros Hfi Ho. unfold initFile.
  rewrite (bind_eq _ _ _ _ _ (file_at_eq _ _ _ Hfi)).
  unfold open. erewrite bind_eq by apply io_eq. rewrite Ho.
  cbn [fst snd negb].
  set (w1 := absorb _).
  assert (T1 : trace w1 = trace w ++ [Open (FileInfo.path fi) false err])
    by (unfold w1; now rewrite absorb_trace).
  unfold create_failed.
  destruct (Z.land err PermissionsError =? 0) eqn:Hp; cbn [negb].
  - eexists. split; [unfold bind, modify, ret, emit; reflexivity|].
    rewrite absorb_trace. cbn [trace]. rewrite T1, <- app_assoc.
    split; [reflexivity|]. split.
    + apply absorb_flags. cbn. apply has_flag_lor_r.
    + apply Z.eqb_eq in Hp. congruence.
  - eexists. split; [unfold bind, modify, ret, emit; reflexivity|].
    rewrite absorb_trace. cbn [trace]. rewrite T1, <- app_assoc.
    split; [reflexivity|]. split.
    + apply absorb_flags. cbn. apply has_flag_lor_l, has_flag_lor_r.
    + intros _. apply absorb_flags. cbn. apply has_flag_lor_r.
Qed.

Lemma run_pc {X : Type} (c : M D X) (R : World D -> World D -> Prop)
  (w : World D) a w' :
  pc c R -> c w = Some (a, w') -> R w w'.
Proof. intros H. apply H. Qed.

(** An answer [false] to [resize]. *)
Definition grown (e : Event) : bool :=
  match e with Resize _ _ false => false | _ => true end.

Lemma resize_failed_eq o s (w : World D) :
  exists w1,
    resize_failed o s w = Some (tt, w1) /\
    trace w1 = trace w ++ [Emit (writeFailed o s)] /\
    has_flag (error_type (self w1)) Error.Write = true /\
    has_flag (error_type (self w1)) Error.Resize = true.
Proof.
  unfold resize_failed, bind, modify, emit. eexists.
  split; [reflexivity|]. rewrite absorb_trace. split; [reflexivity|].
  split; apply absorb_flags; cbn.
  - apply has_flag_lor_l, has_flag_lor_r.
  - apply has_flag_lor_r.
Qed.

Lemma only_grown_absurd (w w' : World D) d p n :
  only grown w w' -> trace w' = trace w ++ d -> ~ In (Resize p n false) d.
Proof.
  intros (d' & Hd' & Ho) Hd Hin. rewrite Hd in Hd'.
  apply app_inv_head in Hd'. subst d'.
  rewrite forallb_forall in Ho. apply Ho in Hin. discriminate.
Qed.

(** X20: a file that cannot be grown is reported as a failed write.
    Whenever [resize] answers [false] in the initialization of a file, the
    round returns [false] with both the [Write] and the [Resize] flag set;
    its events are the open, the seek, the write of the id, the failed
    [resize] and [writeFailed] with the file's offset and size: the last
    byte is not put and nothing is read back. *)
Theorem initFile_resize_fails (w w' : World D) (i : nat) (fi : FileInfo.t)
  (r : bool) (d : list Event) (p : string) (n : Z) :
  nth_error (file_infos (self w)) i = Some fi ->
  initFile i w = Some (r, w') ->
  trace w' = trace w ++ d ->
  In (Resize p n false) d ->
  r = false /\
  has_flag (error_type (self w')) Error.Write = true /\
  has_flag (error_type (self w')) Error.Resize = true /\
  exists err,
    d = [Open (FileInfo.path fi) true err;
         Seek (FileInfo.path fi) 0 true;
         Write (FileInfo.path fi) (FileInfo.id fi) (bsize (FileInfo.id fi));
         Resize (FileInfo.path fi) (FileInfo.size fi) false;
         Emit (writeFailed (FileInfo.offset fi) (FileInfo.size fi))].
Proof.
  intros Hfi H Hd Hin. unfold initFile in H.
  rewrite (bind_eq _ _ _ _ _ (file_at_eq _ _ _ Hfi)) in H.
  apply bind_inv in H as ([ok err] & w0 & H0 & H).
  assert (O0 : only grown w w0).
  { refine (run_pc _ _ _ _ _ _ H0). along_tac only_side. }
  apply io_inv in H0 as (_ & _ & T0). cbn [fst snd] in *.
  destruct ok; cbn [negb] in H.
  2:{ exfalso. eapply only_grown_absurd; [|exact Hd|exact Hin].
      eapply along_trans; [exact O0|]. refine (run_pc _ _ _ _ _ _ H). along_tac only_side. }
  apply guard_inv in H as (b1 & w1 & H1 & H).
  assert (O1 : only grown w0 w1) by (refine (run_pc _ _ _ _ _ _ H1); along_tac only_side).
  destruct H as [[-> H]|(-> & -> & H)].
  2:{ exfalso. eapply only_grown_absurd; [|exact Hd|exact Hin].
      eapply along_trans; [exact O0|]. eapply along_trans; [exact O1|].
      refine (run_pc _ _ _ _ _ _ H). along_tac only_side. }
  apply seek_inv in H1.
  apply guard_inv in H as (b2 & w2 & H2 & H).
  assert (O2 : only grown w1 w2) by (refine (run_pc _ _ _ _ _ _ H2); along_tac only_side).
  destruct H as [[-> H]|(-> & -> & H)].
  2:{ exfalso. eapply only_grown_absurd; [|exact Hd|exact Hin].
      eapply along_trans; [exact O0|]. eapply along_trans; [exact O1|].
      eapply along_trans; [exact O2|].
      refine (run_pc _ _ _ _ _ _ H). along_tac only_side. }
  apply write_all_inv in H2.
  apply guard_inv in H as (b3 & w3 & H3 & H).
  destruct H as [[-> H]|(-> & -> & H)].
  - exfalso. eapply only_grown_absurd; [|exact Hd|exact Hin].
    eapply along_trans; [exact O0|]. eapply along_trans; [exact O1|].
    eapply along_trans; [exact O2|].
    eapply along_trans.
    + apply resize_inv in H3. eexists. split; [exact H3 | reflexivity].
    + refine (run_pc _ _ _ _ _ _ H). along_tac only_side.
  - apply resize_inv in H3.
    destruct (resize_failed_eq (FileInfo.offset fi) (FileInfo.size fi) w3)
      as (w4 & H4 & T4 & F1 & F2).
    rewrite H4 in H. inversion H; subst w4.
    split; [reflexivity|]. split; [exact F1|]. split; [exact F2|].
    exists err. rewrite T4, H3, H2, H1, T0, <- !app_assoc in Hd.
    apply app_inv_head in Hd. now subst d.
Qed.

End Creation.

(** X19: a file that cannot be opened ends the initialization. When the
    initializer has come to file [f] and [open] fails with the error
    [err], [initialize] returns [false] with the [Create] flag set, and
    with [Permissions] too whenever [err] has a bit in common with
    [QFileDevice::PermissionsError] (13): so for [OpenError] (5) as well.
    After the failed [open] comes [createFailed] with the file's index and
    offset, and nothing else: no later file is opened. *)
Theorem initialize_create_error {D : Type} {E : Env D}
  (w0 wk : World D) (f : nat) (fi : FileInfo.t) (err : Z) :
  initializer_until f w0 = Some (true, wk) ->
  nth_error (file_infos (self w0)) f = Some fi ->
  nth_error (file_infos (self wk)) f = Some fi ->
  snd (file_open (FileInfo.path fi) (dev wk)) = (false, err) ->
  exists w',
    initialize w0 = Some (false, w') /\
    trace w' = trace wk ++
      [Open (FileInfo.path fi) false err;
       Emit (createFailed (Z.of_nat f) (FileInfo.offset fi))] /\
    has_flag (error_type (self w')) Error.Create = true /\
    (Z.land err PermissionsError <> 0 ->
     has_flag (error_type (self w')) Error.Permissions = true).
Proof.
  intros Hu Hf0 Hfi Ho.
  destruct (initFile_create_error f fi err wk Hfi Ho) as (w' & Hi & Hrest).
  exists w'. split; [|exact Hrest].
  eapply initialize_stops; eauto.
  apply nth_error_Some. congruence.
Qed.

Lemma initialize_create_error_witness :
  initializer_until 0 locked_planned
  = Some (true, after (initializer_until 0) locked_planned) /\
  Z.land 5 PermissionsError <> 0 /\
  exists w',
    initialize locked_planned = Some (false, w') /\
    trace w' = trace (after (initializer_until 0) locked_planned) ++
      [Open (FileInfo.path sample_file0) false 5;
       Emit (createFailed (Z.of_nat 0) (FileInfo.offset sample_file0))] /\
    has_flag (error_type (self w')) Error.Create = true /\
    (Z.land 5 PermissionsError <> 0 ->
     has_flag (error_type (self w')) Error.Permissions = true).
Proof.
  split; [vm_compute; reflexivity|]. split; [vm_compute; discriminate|].
  apply (initialize_create_error locked_planned
           (after (initializer_until 0) locked_planned) 0 sample_file0 5);
    vm_compute; reflexivity.
Defined.

Lemma initFile_resize_fails_witness :
  initFile 0 fixed_planned = Some (false, after (initFile 0) fixed_planned) /\
  false = false /\
  has_flag (error_type (self (after (initFile 0) fixed_planned))) Error.Write
  = true /\
  has_flag (error_type (self (after (initFile 0) fixed_planned))) Error.Resize
  = true /\
  exists err,
    [Open "/mnt/CAPACITYTESTER0" true 0;
     Seek "/mnt/CAPACITYTESTER0" 0 true;
     Write "/mnt/CAPACITYTESTER0" [48; 1] 2;
     Resize "/mnt/CAPACITYTESTER0" 8 false;
     Emit (writeFailed 0 8)]
    = [Open (FileInfo.path sample_file0) true err;
       Seek (FileInfo.path sample_file0) 0 true;
       Write (FileInfo.path sample_file0) (FileInfo.id sample_file0)
         (bsize (FileInfo.id sample_file0));
       Resize (FileInfo.path sample_file0) (FileInfo.size sample_file0) false;
       Emit (writeFailed (FileInfo.offset sample_file0)
               (FileInfo.size sample_file0))].
Proof.
  split; [vm_compute; reflexivity|].
  apply (initFile_resize_fails fixed_planned (after (initFile 0) fixed_planned)
           0 sample_file0 false _ "/mnt/CAPACITYTESTER0" 8).
  - vm_compute. reflexivity.
  - vm_compute. reflexivity.
  - vm_compute. reflexivity.
  - right. right. right. left. reflexivity.
Defined.

(** ** The other queries of a tester *)

(** What [QStorageInfo] knows of a volume beyond the fields of [Env]. *)
Class StorageInfo (D : Type) : Type := {
  storage_bytesTotal : D -> string -> Z;
  storage_bytesFree : D -> string -> Z;
  storage_name : D -> string -> string
}.

Section Queries.

Context {D : Type} {E : Env D} {S : StorageInfo D}.

(** [VolumeTester::bytesTotal]. *)
Definition bytesTotal (d : D) (t : VolumeTester) : Z :=
  if storage_isValid d (mountpoint t) && storage_isReady d (mountpoint t)
  then storage_bytesTotal d (mountpoint t)
  else 0.

(** [VolumeTester::bytesUsed]. *)
Definition bytesUsed (d : D) (t : VolumeTester) : Z :=
  if storage_isValid d (mountpoint t) && storage_isReady d (mountpoint t)
  then to_qint64 (storage_bytesTotal d (mountpoint t)
                  - storage_bytesFree d (mountpoint t))
  else 0.

(** [VolumeTester::name]. *)
Definition name (d : D) (t : VolumeTester) : string :=
  if storage_isValid d (mountpoint t) && storage_isReady d (mountpoint t)
  then storage_name d (mountpoint t)
  else ""%string.

(** [VolumeTester::label]. *)
Definition label (d : D) (t : VolumeTester) : string :=
  if isValid d t then
    let name := name d t in
    if negb (String.eqb name "")
    then (mountpoint t ++ ": " ++ name)%string
    else mountpoint t
  else ""%string.

(** A valid tester has a mountpoint and a storage that is valid and
    ready. *)
Lemma isValid_storage (d : D) (t : VolumeTester) :
  isValid d t = true ->
  mountpoint t <> ""%string /\
  storage_isValid d (mountpoint t) && storage_isReady d (mountpoint t) = true.
Proof.
  unfold isValid, isValid_at.
  destruct (String.eqb (mountpoint t) "") eqn:He; [discriminate|].
  apply String.eqb_neq in He. intros H. split; [exact He|].
  destruct (storage_isValid d (mountpoint t)); [|discriminate]. cbn in H.
  destruct (String.eqb (storage_rootPath d (mountpoint t)) (mountpoint t));
    [|discriminate].
  cbn in H. now destruct (storage_isReady d (mountpoint t)).
Qed.

Lemma label_valid (d : D) (t : VolumeTester) :
  isValid d t = true ->
  label d t <> ""%string /\
  startsWith (label d t) (mountpoint t) = true /\
  name d t = storage_name d (mountpoint t) /\
  bytesTotal d t = storage_bytesTotal d (mountpoint t) /\
  bytesAvailable d t = storage_bytesAvailable d (mountpoint t) /\
  bytesUsed d t
  = to_qint64 (bytesTotal d t - storage_bytesFree d (mountpoint t)).
Proof.
  intros Hv. destruct (isValid_storage d t Hv) as [Hm Hs].
  unfold label, name, bytesTotal, bytesAvailable, bytesUsed.
  rewrite Hv, Hs. cbn zeta.
  split; [|split; [|auto]].
  - destruct (negb _); [|exact Hm].
    destruct (mountpoint t); [now destruct Hm | discriminate].
  - destruct (negb _); [apply startsWith_append|].
    rewrite <- (startsWith_append (mountpoint t) "") at 1.
    f_equal. clear. induction (mountpoint t) as [|c s IH]; cbn; congruence.
Qed.

End Queries.

(** X21: a tester has a label exactly when it is valid. The label of a
    tester that is not valid is empty. The label of a valid tester is not:
    it begins with the mountpoint (and goes on with a colon and the
    volume's name when it has one); and for a valid tester the storage
    passes the checks of the queries, so [name], [bytesTotal],
    [bytesAvailable] and [bytesUsed] return what the storage says, not
    their defaults. *)
Theorem label_iff_valid {D : Type} {E : Env D} {S : StorageInfo D}
  (d : D) (t : VolumeTester) :
  (isValid d t = false -> label d t = ""%string) /\
  (isValid d t = true ->
   label d t <> ""%string /\
   startsWith (label d t) (mountpoint t) = true /\
   name d t = storage_name d (mountpoint t) /\
   bytesTotal d t = storage_bytesTotal d (mountpoint t) /\
   bytesAvailable d t = storage_bytesAvailable d (mountpoint t) /\
   bytesUsed d t
   = to_qint64 (bytesTotal d t - storage_bytesFree d (mountpoint t))).
Proof.
  split.
  - intros H. unfold label. now rewrite H.
  - apply label_valid.
Qed.

(** ** Where a plan ends *)

Lemma part_last total m :
  0 < m -> 0 < total ->
  (part_count total m - 1) * m + part_size total m (part_count total m - 1)
  = total.
Proof.
  intros Hm Ht. pose proof (parts_div total m Hm Ht) as (H1 & H2 & H3).
  unfold part_size. rewrite Z.eqb_refl. cbn [andb].
  unfold part_count.
  destruct (total mod m =? 0) eqn:Er; cbn [negb];
    [apply Z.eqb_eq in Er | apply Z.eqb_neq in Er]; nia.
Qed.

Section PlanEnd.

Variables fsm bsm : Z.
Variables prefix dir : string.
Hypothesis bsm_pos : 0 < bsm.
Hypothesis bsm_lt : bsm < fsm.

Lemma the_block_end bytes i j :
  0 < bytes -> 0 <= i < part_count bytes fsm ->
  0 <= j < part_count (part_size bytes fsm i) bsm ->
  0 < BlockInfo.abs_end
        (the_block bsm i (i * fsm) (part_size bytes fsm i) j) <= bytes.
Proof.
  intros Hb Hi Hj. assert (Hf : 0 < fsm) by lia.
  pose proof (part_size_range bytes fsm Hf Hb i) as Hp.
  pose proof (part_end bytes fsm Hf Hb i Hi) as He.
  pose proof (part_size_range (part_size bytes fsm i) bsm bsm_pos
                (proj1 Hp) j) as Hq.
  pose proof (part_end (part_size bytes fsm i) bsm bsm_pos (proj1 Hp) j Hj).
  cbn [the_block BlockInfo.abs_end]. nia.
Qed.

End PlanEnd.

(** X22: the plan has as many files as the bytes need, and ends where
    the bytes end. Within the range of its [int]s the planner makes
    ceil(bytes / file_size_max) files, and in each file
    ceil(size / block_size_max) blocks; the absolute end of every block,
    which [written] and [verified] report as the progress, is positive and
    at most the bytes of the volume, and that of the last block of the
    last file is exactly the bytes of the volume. *)
Theorem plan_ends_at_total (fsm bsm bytes : Z) (prefix dir : string) :
  0 < bsm -> bsm < fsm -> fsm <= INT_MAX ->
  0 < bytes -> bytes <= INT_MAX * fsm ->
  exists fs,
    plan_files fsm bsm prefix dir bytes = Some fs /\
    length fs = Z.to_nat (part_count bytes fsm) /\
    (forall i fi, nth_error fs i = Some fi ->
       length (FileInfo.blocks fi)
       = Z.to_nat (part_count (FileInfo.size fi) bsm) /\
       forall j b, nth_error (FileInfo.blocks fi) j = Some b ->
         0 < BlockInfo.abs_end b <= bytes) /\
    exists fi b,
      nth_error fs (length fs - 1) = Some fi /\
      FileInfo.end_ fi = bytes /\
      nth_error (FileInfo.blocks fi) (length (FileInfo.blocks fi) - 1)
      = Some b /\
      BlockInfo.abs_end b = bytes.
Proof.
  intros Hb Hlt Hf Hpos Hmax. assert (Hfp : 0 < fsm) by lia.
  pose proof (plan_files_eq fsm bsm prefix dir Hb Hlt Hf bytes Hpos Hmax) as Hp.
  pose proof (part_count_pos bytes fsm Hfp Hpos) as Hc.
  set (n := Z.to_nat (part_count bytes fsm)) in *.
  eexists. split; [exact Hp|].
  split; [now rewrite length_map, zseq_length|]. split.
  - intros i fi Hi. apply nth_error_map_zseq in Hi as [Hi ->].
    cbn [the_file FileInfo.blocks FileInfo.size].
    split; [now rewrite length_map, zseq_length|].
    intros j b Hj. apply nth_error_map_zseq in Hj as [Hj ->].
    apply the_block_end; lia.
  - rewrite length_map, zseq_length.
    set (i := part_count bytes fsm - 1).
    pose proof (part_size_range bytes fsm Hfp Hpos i) as Hs.
    pose proof (part_count_pos (part_size bytes fsm i) bsm Hb (proj1 Hs)) as Hc'.
    pose proof (part_last bytes fsm Hfp Hpos) as Hl. fold i in Hl.
    pose proof (part_last (part_size bytes fsm i) bsm Hb (proj1 Hs)) as Hl'.
    exists (the_file fsm bsm prefix dir bytes i).
    exists (the_block bsm i (i * fsm) (part_size bytes fsm i)
              (part_count (part_size bytes fsm i) bsm - 1)).
    split; [|split; [|split]].
    + rewrite nth_error_map, zseq_nth_error by lia. cbn. do 2 f_equal.
      unfold i, n. lia.
    + cbn [the_file FileInfo.end_]. lia.
    + cbn [the_file FileInfo.blocks]. rewrite length_map, zseq_length.
      rewrite nth_error_map, zseq_nth_error by lia. cbn. do 2 f_equal. lia.
    + cbn [the_block BlockInfo.abs_end]. lia.
Qed.

Lemma plan_ends_at_total_witness :
  exists fs,
    plan_files (512 * MiB) (16 * MiB) "CAPACITYTESTER" "/mnt" (1000 * MiB + 5)
    = Some fs /\
    length fs = Z.to_nat (part_count (1000 * MiB + 5) (512 * MiB)) /\
    (forall i fi, nth_error fs i = Some fi ->
       length (FileInfo.blocks fi)
       = Z.to_nat (part_count (FileInfo.size fi) (16 * MiB)) /\
       forall j b, nth_error (FileInfo.blocks fi) j = Some b ->
         0 < BlockInfo.abs_end b <= 1000 * MiB + 5) /\
    exists fi b,
      nth_error fs (length fs - 1) = Some fi /\
      FileInfo.end_ fi = 1000 * MiB + 5 /\
      nth_error (FileInfo.blocks fi) (length (FileInfo.blocks fi) - 1)
      = Some b /\
      BlockInfo.abs_end b = 1000 * MiB + 5.
Proof.
  apply (plan_ends_at_total (512 * MiB) (16 * MiB) (1000 * MiB + 5));
    vm_compute; congruence.
Defined.

(** ** Conflict files, again *)

Lemma startsWith_longer (n p s : string) :
  startsWith n p = true -> startsWith (n ++ s) p = true.
Proof.
  unfold startsWith. revert n. induction p as [|c p IH]; intros n H.
  - now destruct (n ++ s)%string.
  - destruct n as [|c' n]; [discriminate|]. cbn in *.
    destruct (ascii_dec c c'); [auto | discriminate].
Qed.

(** X23: what counts as a conflict. With a prefix that is not empty,
    [conflictFiles] reports every file of the root whose name begins with
    the prefix, and every directory whose name does, the directory under
    its name with a slash; for a tester that is not valid it reports
    nothing. With an empty prefix it stops at its assertion. *)
Theorem conflictFiles_entries {D : Type} {E : Env D}
  (d : D) (t : VolumeTester) :
  (file_prefix t = ""%string -> conflictFiles d t = None) /\
  (file_prefix t <> ""%string ->
   exists l,
     conflictFiles d t = Some l /\
     (forall n, In (n, false) (entryInfoList d t) ->
        startsWith n (file_prefix t) = true -> In n l) /\
     (forall n, In (n, true) (entryInfoList d t) ->
        startsWith n (file_prefix t) = true -> In (n ++ "/")%string l) /\
     (isValid d t = false -> l = [])).
Proof.
  split.
  - intros H. unfold conflictFiles. now rewrite H.
  - intros Hp. destruct (conflictFiles_spec d t Hp) as (l & Hl & Hspec).
    exists l. split; [exact Hl|]. split; [|split].
    + intros n Hin Hs. apply Hspec. split; [|exact Hs].
      unfold rootFiles. apply in_map_iff. exists (n, false). auto.
    + intros n Hin Hs. apply Hspec. split; [|now apply startsWith_longer].
      unfold rootFiles. apply in_map_iff. exists (n, true). auto.
    + intros Hv. destruct l as [|x l]; [reflexivity|].
      assert (Hx : In x (rootFiles d t)) by (apply Hspec; now left).
      unfold rootFiles, entryInfoList in Hx. rewrite Hv in Hx. destruct Hx.
Qed.

(** ** Cancellation, again *)

(** X24: [cancel()] may be called again. It marks the tester canceled
    and sets [Aborted], so [abortRequested] answers [true]; it keeps every
    flag that was set and leaves the configuration, the pattern and the
    plan alone; and a second call changes nothing. *)
Theorem cancel_again (t : VolumeTester) :
  abortRequested (cancel t) = true /\
  has_flag (error_type (cancel t)) Error.Aborted = true /\
  (forall f, has_flag (error_type t) f = true ->
             has_flag (error_type (cancel t)) f = true) /\
  stable t (cancel t) /\
  cancel (cancel t) = cancel t.
Proof.
  split; [reflexivity|]. split; [apply (cinv_cancel t); reflexivity|].
  split; [apply raises_cancel|]. split; [apply stable_cancel|].
  unfold cancel, or_error, set_canceled, set_error_type. cbn.
  now rewrite <- Z.lor_assoc, Z.lor_diag.
Qed.

Section LastRound.

Context {D : Type} {E : Env D}.

Lemma verifyBlock_not_canceled i fi j (w w' : World D) :
  verifyBlock i fi j w = Some (true, w') -> _canceled (self w') = false.
Proof.
  unfold verifyBlock. intros H.
  apply bind_inv in H as (b & w1 & _ & H).
  apply bind_inv in H as (data & w2 & _ & H).
  apply guard_true in H as (w3 & _ & H).
  apply guard_true in H as (w4 & _ & H).
  apply bind_inv in H as (u & w5 & _ & H).
  rewrite gets_eq in H. apply ret_inv in H as [H ->].
  unfold abortRequested in H. now destruct (_canceled (self w5)).
Qed.

Lemma verifyFull_not_canceled (w w' : World D) :
  file_infos (self w) <> [] ->
  (forall fi, In fi (file_infos (self w)) -> FileInfo.blocks fi <> []) ->
  verifyFull w = Some (true, w') ->
  _canceled (self w') = false.
Proof.
  intros Hne Hbl H. unfold verifyFull in H.
  apply bind_inv in H as (u & wa & Ha & H). rewrite gets_eq in H.
  pose proof (quiet_file_infos _ _ (pc_emit _ _ _ _ Ha)) as La.
  rewrite La in H.
  destruct (length (file_infos (self w))) as [|n] eqn:Hn.
  { destruct (file_infos (self w)); [congruence | discriminate]. }
  apply for_loop_last in H as (w1 & Hl & H). cbn [Nat.add] in H.
  assert (L1 : file_infos (self w1) = file_infos (self w)).
  { rewrite <- La. apply quiet_file_infos.
    eapply (pc_for_loop verifyFile); eauto. intros. apply pc_verifyFile. }
  unfold verifyFile in H. apply bind_inv in H as (fi & w2 & H2 & H).
  apply file_at_inv in H2 as [-> Hfi]. rewrite L1 in Hfi.
  apply nth_error_In, Hbl in Hfi.
  apply bind_inv in H as (u' & w3 & _ & H).
  destruct (FileInfo.blocks fi) as [|b bs]; [congruence|].
  cbn [length] in H. apply for_loop_last in H as (w4 & _ & H).
  now apply verifyBlock_not_canceled in H.
Qed.

End LastRound.

(** X25: a cancellation is never passed over. When the three phases
    return [true] on a plan that has a file, each file with a block, the
    tester is not canceled at their end: a call of [cancel()] that has
    come in by the checkpoint of the last block always makes the test
    fail. *)
Theorem success_not_canceled {D : Type} {E : Env D} (w w' : World D) :
  file_infos (self w) <> [] ->
  (forall fi, In fi (file_infos (self w)) -> FileInfo.blocks fi <> []) ->
  run_tests w = Some (true, w') ->
  _canceled (self w') = false.
Proof.
  intros Hne Hbl H. unfold run_tests in H.
  apply bind_inv in H as ([|] & w1 & H1 & H).
  2:{ apply ret_inv in H as [? _]. discriminate. }
  apply bind_inv in H as ([|] & w2 & H2 & H).
  2:{ apply ret_inv in H as [? _]. discriminate. }
  assert (L : file_infos (self w2) = file_infos (self w)).
  { transitivity (file_infos (self w1)).
    - apply quiet_file_infos. eapply pc_writeFull; eauto.
    - apply (calm_initialize _ _ _ H1). }
  apply verifyFull_not_canceled in H; [exact H | |]; rewrite L; assumption.
Qed.

Lemma success_not_canceled_witness :
  run_tests sample_planned = Some (true, after run_tests sample_planned) /\
  _canceled (self (after run_tests sample_planned)) = false.
Proof.
  split; [vm_compute; reflexivity|].
  apply (success_not_canceled sample_planned (after run_tests sample_planned)).
  - vm_compute. discriminate.
  - intros fi Hin. vm_compute in Hin.
    destruct Hin as [<-|[<-|[<-|[]]]]; vm_compute; discriminate.
  - vm_compute. reflexivity.
Defined.

(** ** The counters of a tester *)

(** From [w] to [w'] the three counters of bytes stayed as they were. *)
Definition same_bytes {D : Type} (w w' : World D) : Prop :=
  bytes_total (self w') = bytes_total (self w) /\
  bytes_written (self w') = bytes_written (self w) /\
  bytes_remaining (self w') = bytes_remaining (self w).

#[export] Instance same_bytes_along {D : Type} {E : Env D} :
  Along (fun _ => True)
        (fun f => forall t, bytes_total (f t) = bytes_total t /\
                            bytes_written (f t) = bytes_written t /\
                            bytes_remaining (f t) = bytes_remaining t)
        (@same_bytes D).
Proof.
  split.
  - intros w. repeat split.
  - intros w1 w2 w3 (A1 & B1 & C1) (A2 & B2 & C2).
    repeat split; congruence.
  - intros w d e _. unfold absorb. cbn [dev].
    destruct (cancel_requested d); repeat split.
  - intros w d f Hf. apply Hf.
Qed.

Ltac bytes_side := first [ exact I | intros; repeat split ].

Lemma same_bytes_run_and_cleanup {D : Type} {E : Env D} :
  pc run_and_cleanup (@same_bytes D).
Proof. along_tac bytes_side. Qed.

(** X26: a test does not count what it writes. [start] sets
    [bytes_total] and [bytes_remaining] to the bytes available and
    [bytes_written] to 0 when it begins, and no phase touches the three
    again: when a test that came to its phases returns, [bytes_written] is
    still 0 and [bytes_remaining] still the whole volume, whatever was
    written. *)
Theorem start_counts_nothing {D : Type} {E : Env D} (w0 w1 w' : World D) :
  start_setup w0 = Some (true, w1) ->
  start w0 = Some (tt, w') ->
  bytes_total (self w') = bytesAvailable (dev w0) (self w0) /\
  bytes_written (self w') = 0 /\
  bytes_remaining (self w') = bytesAvailable (dev w0) (self w0).
Proof.
  intros Hs H. unfold start in H. rewrite (bind_eq _ _ _ _ _ Hs) in H.
  apply same_bytes_run_and_cleanup in H as (A & B & C).
  apply start_setup_inv in Hs
    as [(_ & ? & _)|(_ & _ & [(_ & ? & _)|(_ & Hb)])]; try discriminate.
  destruct Hb as (_ & _ & Ht & _ & _ & _ & _ & _ & _ & _ & _ & _ & Hw & Hr).
  rewrite A, B, C. auto.
Qed.

Lemma start_counts_nothing_witness :
  start_setup sample_start = Some (true, sample_planned) /\
  writes (trace (after start sample_start)) <> [] /\
  bytes_total (self (after start sample_start))
  = bytesAvailable (dev sample_start) (self sample_start) /\
  bytes_written (self (after start sample_start)) = 0 /\
  bytes_remaining (self (after start sample_start))
  = bytesAvailable (dev sample_start) (self sample_start).
Proof.
  split; [vm_compute; reflexivity|]. split; [vm_compute; discriminate|].
  apply (start_counts_nothing sample_start sample_planned
           (after start sample_start));
    vm_compute; reflexivity.
Defined.

(** ** What a test that succeeds has covered *)

(** The bytes that the writes of a stretch of events were answered with,
    and the bytes its reads asked for. *)
Definition written_bytes (l : list Event) : Z :=
  sum (map (fun e => match e with Write _ _ n => n | _ => 0 end) l).

Definition read_bytes (l : list Event) : Z :=
  sum (map (fun e => match e with Read _ n _ => n | _ => 0 end) l).

Lemma written_bytes_app l1 l2 :
  written_bytes (l1 ++ l2) = written_bytes l1 + written_bytes l2.
Proof. unfold written_bytes. now rewrite map_app, sum_app. Qed.

Lemma read_bytes_app l1 l2 :
  read_bytes (l1 ++ l2) = read_bytes l1 + read_bytes l2.
Proof. unfold read_bytes. now rewrite map_app, sum_app. Qed.

Lemma written_bytes_concat {X : Type} (f : X -> list Event) (g : X -> Z) l :
  (forall x, In x l -> written_bytes (f x) = g x) ->
  written_bytes (concat (map f l)) = sum (map g l).
Proof.
  induction l as [|x l IH]; intros H; [reflexivity|].
  cbn [map concat]. rewrite written_bytes_app, H by now left.
  rewrite IH by (intros; apply H; now right). reflexivity.
Qed.

Lemma read_bytes_concat {X : Type} (f : X -> list Event) (g : X -> Z) l :
  (forall x, In x l -> read_bytes (f x) = g x) ->
  read_bytes (concat (map f l)) = sum (map g l).
Proof.
  induction l as [|x l IH]; intros H; [reflexivity|].
  cbn [map concat]. rewrite read_bytes_app, H by now left.
  rewrite IH by (intros; apply H; now right). reflexivity.
Qed.

Lemma sum_ext {X : Type} (f g : X -> Z) l :
  (forall x, In x l -> f x = g x) -> sum (map f l) = sum (map g l).
Proof.
  induction l as [|x l IH]; intros H; [reflexivity|].
  cbn [map sum fold_right]. fold (sum (map f l)). fold (sum (map g l)).
  rewrite H by now left. rewrite IH by (intros; apply H; now right).
  reflexivity.
Qed.

(** The blocks of a plan that is as it should be hold the bytes of the
    volume between them. *)
Lemma plan_ok_blocks bytes fsm bsm fs :
  plan_ok bytes fsm bsm fs ->
  sum (map (fun fi => sum (map BlockInfo.size (FileInfo.blocks fi))) fs)
  = bytes.
Proof.
  intros (Hs & _ & Hf & _). rewrite <- Hs. apply sum_ext.
  intros fi Hin. apply In_nth_error in Hin as (i & Hi).
  destruct (Hf _ _ Hi) as (_ & _ & _ & Hb & _). exact Hb.
Qed.

Section Covered.

Context {D : Type} {E : Env D}.

Lemma written_bytes_sync p : written_bytes (sync_events p) = 0.
Proof. unfold sync_events. now destruct USE_FSYNC. Qed.

Lemma read_bytes_sync p : read_bytes (sync_events p) = 0.
Proof. unfold sync_events. now destruct USE_FSYNC. Qed.

Lemma written_bytes_file t fi :
  written_bytes (file_write_events t fi)
  = sum (map BlockInfo.size (FileInfo.blocks fi)).
Proof.
  unfold file_write_events.
  rewrite written_bytes_app, written_bytes_sync. cbn [Z.add].
  apply written_bytes_concat. intros b _. unfold block_write_events.
  rewrite !written_bytes_app, written_bytes_sync.
  unfold written_bytes. cbn. lia.
Qed.

Lemma read_bytes_file t fi :
  read_bytes (file_verify_events t fi)
  = sum (map BlockInfo.size (FileInfo.blocks fi)).
Proof.
  unfold file_verify_events.
  rewrite read_bytes_app, read_bytes_sync. cbn [Z.add].
  apply read_bytes_concat. intros b _.
  unfold block_verify_events, read_bytes. cbn. lia.
Qed.

Lemma written_bytes_plan t :
  written_bytes (write_events t)
  = sum (map (fun fi => sum (map BlockInfo.size (FileInfo.blocks fi)))
             (file_infos t)).
Proof.
  unfold write_events.
  change (Emit writeStarted :: ?l) with ([Emit writeStarted] ++ l).
  rewrite written_bytes_app. cbn [written_bytes map sum fold_right Z.add].
  apply written_bytes_concat. intros fi _. apply written_bytes_file.
Qed.

Lemma read_bytes_plan t :
  read_bytes (verify_events t)
  = sum (map (fun fi => sum (map BlockInfo.size (FileInfo.blocks fi)))
             (file_infos t)).
Proof.
  unfold verify_events.
  change (Emit verifyStarted :: ?l) with ([Emit verifyStarted] ++ l).
  rewrite read_bytes_app. cbn [read_bytes map sum fold_right Z.add].
  apply read_bytes_concat. intros fi _. apply read_bytes_file.
Qed.

(** The events of the three phases when they all go through. *)
Lemma run_tests_true_trace (w w' : World D) :
  run_tests w = Some (true, w') ->
  exists di,
    trace w' = trace w ++ di ++ write_events (self w) ++ verify_events (self w).
Proof.
  intros H. unfold run_tests in H.
  apply bind_inv in H as ([|] & w1 & H1 & H).
  2:{ apply ret_inv in H as [? _]. discriminate. }
  apply bind_inv in H as ([|] & w2 & H2 & H).
  2:{ apply ret_inv in H as [? _]. discriminate. }
  pose proof (calm_initialize _ _ _ H1) as (S1 & _ & di & Hdi & _).
  apply (writeFull_from (self w)) in H2 as (S2 & T2); [|exact S1].
  apply (verifyFull_from (self w)) in H as (S3 & T3); [|exact S2].
  exists di. rewrite T3, T2, Hdi, <- !app_assoc. reflexivity.
Qed.

End Covered.

Lemma forallb_not_In (ok : Event -> bool) (l : list Event) (e : Event) :
  forallb ok l = true -> ok e = false -> ~ In e l.
Proof.
  intros H He Hin. rewrite forallb_forall in H. apply H in Hin. congruence.
Qed.

(** X27: a test that reports success has written the whole volume and
    read it back. When [start] emits [succeeded] (file and byte counts
    within the range of its [int]s), its events are those of the
    initialization, then exactly the writes of the plan, then exactly its
    reads, then [succeeded], [finished] and the removals of the cleanup;
    the sizes the writes were answered with add up to the bytes that were
    available on the volume, and so do the sizes of the reads, each of
    which returned the data written. *)
Theorem success_covers_volume {D : Type} {E : Env D} (w w' : World D)
  (d : list Event) :
  start w = Some (tt, w') ->
  trace w' = trace w ++ d ->
  In (Emit succeeded) d ->
  file_size_max (self w) <= INT_MAX ->
  bytesAvailable (dev w) (self w) <= INT_MAX * file_size_max (self w) ->
  let t := self (after start_setup w) in
  exists di dr,
    d = di ++ write_events t ++ verify_events t
           ++ Emit succeeded :: Emit finished :: dr /\
    forallb is_remove dr = true /\
    bytes_total t = bytesAvailable (dev w) (self w) /\
    written_bytes (write_events t) = bytesAvailable (dev w) (self w) /\
    read_bytes (verify_events t) = bytesAvailable (dev w) (self w).
Proof.
  intros H Ht Hin Hf Ha t. unfold start in H.
  apply bind_inv in H as (go & w1 & Hs & H).
  assert (Hw1 : after start_setup w = w1) by (unfold after; now rewrite Hs).
  unfold t. rewrite Hw1. clear t Hw1.
  apply start_setup_inv in Hs
    as [(_ & -> & Ht1)|(_ & Hc & [(_ & -> & Ht1)|(-> & Hb)])].
  - apply ret_inv in H as [_ ->]. rewrite Ht1 in Ht.
    apply app_inv_head in Ht. subst d.
    destruct Hin as [?|[?|[]]]; discriminate.
  - apply ret_inv in H as [_ ->]. rewrite Ht1 in Ht.
    apply app_inv_head in Ht. subst d.
    destruct Hin as [?|[?|[]]]; discriminate.
  - destruct Hb as (Hpos & Ht1 & Hbt & _ & _ & Hplan & _).
    unfold run_and_cleanup in H. pose proof H as H'.
    apply bind_inv in H as (ok & w2 & Hr & _).
    destruct (run_and_cleanup_spec _ _ _ Hr) as (w3 & oks & Hrc & _ & Htr & _).
    unfold run_and_cleanup in Hrc. rewrite Hrc in H'. inversion H'; subst w3.
    destruct ok.
    + apply run_tests_true_trace in Hr as (di & Hdi).
      rewrite Htr, Hdi, Ht1, <- !app_assoc in Ht.
      apply app_inv_head in Ht. subst d.
      exists di. eexists. split; [reflexivity|].
      split; [apply removals_are_removes|]. split; [exact Hbt|].
      destruct Hc as (Hb0 & _ & _ & _ & Hlt).
      rewrite plan_files_eq in Hplan by (assumption || lia).
      injection Hplan as Hplan.
      rewrite written_bytes_plan, read_bytes_plan, <- Hplan.
      split; eapply plan_ok_blocks; apply the_files_plan_ok;
        (assumption || lia).
    + destruct (only_run_tests _ _ _ Hr) as (d1 & Hd1 & Ho).
      rewrite Htr, Hd1, Ht1, <- !app_assoc in Ht.
      apply app_inv_head in Ht. subst d. exfalso.
      apply in_app_or in Hin as [Hin|Hin].
      * revert Hin. now apply (forallb_not_In no_result).
      * cbn in Hin. destruct Hin as [?|[?|Hin]]; try discriminate.
        revert Hin. apply (forallb_not_In is_remove); [|reflexivity].
        apply removals_are_removes.
Qed.

Lemma success_covers_volume_witness :
  start sample_start = Some (tt, after start sample_start) /\
  In (Emit succeeded) (trace (after start sample_start)) /\
  bytesAvailable (dev sample_start) (self sample_start) = 21 /\
  exists di dr,
    trace (after start sample_start)
    = di ++ @write_events Mem.t MemEnv (self sample_planned)
         ++ @verify_events Mem.t MemEnv (self sample_planned)
         ++ Emit succeeded :: Emit finished :: dr /\
    forallb is_remove dr = true /\
    bytes_total (self sample_planned)
    = bytesAvailable (dev sample_start) (self sample_start) /\
    written_bytes (@write_events Mem.t MemEnv (self sample_planned))
    = bytesAvailable (dev sample_start) (self sample_start) /\
    read_bytes (@verify_events Mem.t MemEnv (self sample_planned))
    = bytesAvailable (dev sample_start) (self sample_start).
Proof.
  split; [vm_compute; reflexivity|].
  split; [vm_compute; tauto|].
  split; [reflexivity|].
  apply (success_covers_volume sample_start (after start sample_start)
           (trace (after start sample_start))).
  - vm_compute. reflexivity.
  - reflexivity.
  - vm_compute. tauto.
  - vm_compute. congruence.
  - vm_compute. congruence.
Defined.

(** ** The outcomes of the quick test *)

Section QuickTest.

Context {D : Type} {E : Env D}.

Lemma getChar_is_false p b (w w1 : World D) :
  getChar_is p b w = Some (false, w1) ->
  exists r, (forall c, r = Some c -> to_uchar c <> b) /\
            trace w1 = trace w ++ [GetChar p r].
Proof.
  unfold getChar_is. intros H. apply bind_inv in H as (r & w2 & Hw & Hr).
  apply ret_inv in Hr as [Hr ->]. apply io_inv in Hw as (_ & _ & Ht).
  exists r. split; [|exact Ht].
  intros c ->. now apply Z.eqb_neq.
Qed.

Lemma read_is_false p n data (w w1 : World D) :
  read_is p n data w = Some (false, w1) ->
  exists r, r <> data /\ trace w1 = trace w ++ [Read p n r].
Proof.
  unfold read_is. intros H. apply bind_inv in H as (r & w2 & Hw & Hr).
  apply ret_inv in Hr as [Hr ->]. apply io_inv in Hw as (_ & _ & Ht).
  exists r. split; [|exact Ht].
  intros ->. rewrite (proj2 (bytes_eqb_eq data data) eq_refl) in Hr.
  discriminate.
Qed.

Lemma verify_failed_inv o s (w w' : World D) u :
  verify_failed o s w = Some (u, w') ->
  trace w' = trace w ++ [Emit (verifyFailed o s)] /\
  has_flag (error_type (self w')) Error.Verify = true.
Proof.
  intros H. destruct (verify_failed_eq o s w) as (w1 & H1 & Ht & Hf).
  rewrite H1 in H. inversion H; subst. auto.
Qed.

End QuickTest.

(** The events of a quick test that fails at one of its four checks: the
    seek to the last byte, the byte that is read there, the seek to the
    start, the id that is read there. *)
Inductive quick_failure (fi : FileInfo.t) : list Event -> Prop :=
| quick_seek_end :
    quick_failure fi
      [Seek (FileInfo.path fi) (FileInfo.size fi - 1) false]
| quick_last_byte r :
    (forall c, r = Some c -> to_uchar c <> byte_fe) ->
    quick_failure fi
      [Seek (FileInfo.path fi) (FileInfo.size fi - 1) true;
       GetChar (FileInfo.path fi) r]
| quick_seek_start c :
    to_uchar c = byte_fe ->
    quick_failure fi
      [Seek (FileInfo.path fi) (FileInfo.size fi - 1) true;
       GetChar (FileInfo.path fi) (Some c);
       Seek (FileInfo.path fi) 0 false]
| quick_id c r :
    to_uchar c = byte_fe -> r <> FileInfo.id fi ->
    quick_failure fi
      [Seek (FileInfo.path fi) (FileInfo.size fi - 1) true;
       GetChar (FileInfo.path fi) (Some c);
       Seek (FileInfo.path fi) 0 true;
       Read (FileInfo.path fi) (bsize (FileInfo.id fi)) r].

(** X28: the quick test of a file fails at the first of its four checks
    that does not hold, and says so. A run of the quick test either
    passes all four checks (last byte 254, id as planned), and then
    returns whether the tester is not canceled and emits nothing; or it
    stops at the first check that fails, makes no further call on the
    file, raises [Verify], emits [verifyFailed] with the offset and the
    size of the file, and returns [false]. *)
Theorem quick_test_cases {D : Type} {E : Env D} (fi : FileInfo.t)
  (w w' : World D) (ok : bool) :
  quick_test fi w = Some (ok, w') ->
  (exists c, to_uchar c = byte_fe /\
     trace w' = trace w ++ quick_events fi c /\
     ok = negb (_canceled (self w'))) \/
  (exists d, quick_failure fi d /\
     trace w' = trace w ++ d
       ++ [Emit (verifyFailed (FileInfo.offset fi) (FileInfo.size fi))] /\
     ok = false /\
     has_flag (error_type (self w')) Error.Verify = true).
Proof.
  unfold quick_test. intros H.
  apply guard_inv in H as (b1 & w1 & H1 & [(-> & H)|(-> & -> & Hf)]).
  2:{ right. apply seek_inv in H1. apply verify_failed_inv in Hf as [Ht Hf].
      eexists. split; [apply quick_seek_end|].
      rewrite Ht, H1, <- app_assoc. auto. }
  apply seek_inv in H1.
  apply guard_inv in H as (b2 & w2 & H2 & [(-> & H)|(-> & -> & Hf)]).
  2:{ right. apply getChar_is_false in H2 as (r & Hr & H2).
      apply verify_failed_inv in Hf as [Ht Hf].
      eexists. split; [apply (quick_last_byte fi r Hr)|].
      rewrite Ht, H2, H1, <- !app_assoc. auto. }
  apply getChar_is_inv in H2 as (c & Hc & H2).
  apply guard_inv in H as (b3 & w3 & H3 & [(-> & H)|(-> & -> & Hf)]).
  2:{ right. apply seek_inv in H3. apply verify_failed_inv in Hf as [Ht Hf].
      eexists. split; [apply (quick_seek_start fi c Hc)|].
      rewrite Ht, H3, H2, H1, <- !app_assoc. auto. }
  apply seek_inv in H3.
  apply guard_inv in H as (b4 & w4 & H4 & [(-> & H)|(-> & -> & Hf)]).
  2:{ right. apply read_is_false in H4 as (r & Hr & H4).
      apply verify_failed_inv in Hf as [Ht Hf].
      eexists. split; [apply (quick_id fi c r Hc Hr)|].
      rewrite Ht, H4, H3, H2, H1, <- !app_assoc. auto. }
  apply read_is_inv in H4.
  rewrite gets_eq in H. apply ret_inv in H as [<- ->].
  left. exists c. split; [exact Hc|]. split; [|reflexivity].
  rewrite H4, H3, H2, H1, <- !app_assoc. reflexivity.
Qed.

(** A world in which the first file of the sample is open, ends in 254
    and begins with the id of another file. *)
Definition sample_wrong_id : World Mem.t :=
  mkWorld
    (Mem.mk "/mnt" true 21
       [("/mnt/CAPACITYTESTER0"%string, [50; 1; 0; 0; 0; 0; 0; 254])]
       [("/mnt/CAPACITYTESTER0"%string, 0)] 1000 true 42 0 None)
    [] (self sample_planned).

Lemma quick_test_cases_witness :
  quick_test sample_file0 sample_wrong_id
  = Some (false, after (quick_test sample_file0) sample_wrong_id) /\
  trace (after (quick_test sample_file0) sample_wrong_id)
  = [Seek "/mnt/CAPACITYTESTER0" 7 true;
     GetChar "/mnt/CAPACITYTESTER0" (Some 254);
     Seek "/mnt/CAPACITYTESTER0" 0 true;
     Read "/mnt/CAPACITYTESTER0" 2 [50; 1];
     Emit (verifyFailed 0 8)] /\
  ((exists c, to_uchar c = byte_fe /\
     trace (after (quick_test sample_file0) sample_wrong_id)
     = trace sample_wrong_id ++ quick_events sample_file0 c /\
     false = negb (_canceled
                     (self (after (quick_test sample_file0) sample_wrong_id))))
   \/
   (exists d, quick_failure sample_file0 d /\
     trace (after (quick_test sample_file0) sample_wrong_id)
     = trace sample_wrong_id ++ d
       ++ [Emit (verifyFailed (FileInfo.offset sample_file0)
                              (FileInfo.size sample_file0))] /\
     false = false /\
     has_flag (error_type
                 (self (after (quick_test sample_file0) sample_wrong_id)))
              Error.Verify = true)).
Proof.
  split; [vm_compute; reflexivity|].
  split; [vm_compute; reflexivity|].
  apply (quick_test_cases sample_file0 sample_wrong_id
           (after (quick_test sample_file0) sample_wrong_id) false).
  vm_compute. reflexivity.
Defined.

(** ** The progress that is reported *)

(** The positions that the [written] and [verified] signals of a stretch
    of events report, in order. *)
Definition progress (l : list Event) : list Z :=
  flat_map (fun e => match e with
                     | Emit (written n) | Emit (verified n) => [n]
                     | _ => []
                     end) l.

(** The ends of the blocks of a plan, file by file. *)
Definition block_ends (fs : list FileInfo.t) : list Z :=
  concat (map (fun fi => map BlockInfo.abs_end (FileInfo.blocks fi)) fs).

Lemma progress_app l1 l2 : progress (l1 ++ l2) = progress l1 ++ progress l2.
Proof. apply flat_map_app. Qed.

Lemma progress_concat {X : Type} (f : X -> list Event) (g : X -> list Z) l :
  (forall x, In x l -> progress (f x) = g x) ->
  progress (concat (map f l)) = concat (map g l).
Proof.
  induction l as [|x l IH]; intros H; [reflexivity|].
  cbn [map concat]. rewrite progress_app, H by now left.
  rewrite IH by (intros; apply H; now right). reflexivity.
Qed.

Lemma concat_singletons {X : Type} (g : X -> Z) l :
  concat (map (fun x => [g x]) l) = map g l.
Proof. induction l as [|x l IH]; cbn; [reflexivity | now rewrite IH]. Qed.

Section Progress.

Context {D : Type} {E : Env D}.

Lemma progress_sync p : progress (sync_events p) = [].
Proof. unfold sync_events. now destruct USE_FSYNC. Qed.

Lemma progress_write_events t :
  progress (write_events t) = block_ends (file_infos t).
Proof.
  unfold write_events, block_ends.
  change (Emit writeStarted :: ?l) with ([Emit writeStarted] ++ l).
  rewrite progress_app. cbn [progress flat_map app].
  apply progress_concat. intros fi _. unfold file_write_events.
  rewrite progress_app, progress_sync. cbn [app].
  rewrite <- concat_singletons. apply progress_concat.
  intros b _. unfold block_write_events.
  rewrite !progress_app, progress_sync. reflexivity.
Qed.

Lemma progress_verify_events t :
  progress (verify_events t) = block_ends (file_infos t).
Proof.
  unfold verify_events, block_ends.
  change (Emit verifyStarted :: ?l) with ([Emit verifyStarted] ++ l).
  rewrite progress_app. cbn [progress flat_map app].
  apply progress_concat. intros fi _. unfold file_verify_events.
  rewrite progress_app, progress_sync. cbn [app].
  rewrite <- concat_singletons. apply progress_concat.
  intros b _. reflexivity.
Qed.

End Progress.

Lemma in_zseq n : forall a k, In k (zseq a n) <-> a <= k < a + Z.of_nat n.
Proof.
  induction n as [|n IH]; intros a k; cbn [zseq In]; [lia|].
  rewrite IH. lia.
Qed.

Lemma sorted_map_zseq {X : Type} (R : X -> X -> Prop) (g : Z -> X) n :
  forall a,
    (forall j j', a <= j < j' -> j' < a + Z.of_nat n -> R (g j) (g j')) ->
    StronglySorted R (map g (zseq a n)).
Proof.
  induction n as [|n IH]; intros a H; cbn [zseq map]; constructor.
  - apply IH. intros j j' Hj Hj'. apply H; lia.
  - apply Forall_forall. intros y Hy. apply in_map_iff in Hy as (k & <- & Hk).
    apply in_zseq in Hk. apply H; lia.
Qed.

Lemma sorted_app (l1 l2 : list Z) :
  StronglySorted Z.lt l1 -> StronglySorted Z.lt l2 ->
  (forall x y, In x l1 -> In y l2 -> x < y) ->
  StronglySorted Z.lt (l1 ++ l2).
Proof.
  induction l1 as [|x l1 IH]; intros H1 H2 H; [exact H2|].
  inversion H1 as [|? ? Hs Hf]; subst. cbn [app]. constructor.
  - apply IH; auto. intros a b Ha Hb. apply H; [now right | exact Hb].
  - apply Forall_app. split; [exact Hf|].
    apply Forall_forall. intros y Hy. apply H; [now left | exact Hy].
Qed.

Lemma sorted_concat {X : Type} (f : X -> list Z) (lo hi : X -> Z) l :
  (forall x, In x l ->
     StronglySorted Z.lt (f x) /\ forall z, In z (f x) -> lo x < z <= hi x) ->
  StronglySorted (fun x y => hi x <= lo y) l ->
  StronglySorted Z.lt (concat (map f l)).
Proof.
  induction l as [|x l IH]; intros H Hs; cbn [map concat]; [constructor|].
  inversion Hs as [|? ? Hs' Hf]; subst. apply sorted_app.
  - apply H. now left.
  - apply IH; [|exact Hs']. intros y Hy. apply H. now right.
  - intros a b Ha Hb. apply in_concat in Hb as (lb & Hlb & Hb).
    apply in_map_iff in Hlb as (y & <- & Hy).
    rewrite Forall_forall in Hf. specialize (Hf _ Hy).
    destruct (H x (or_introl eq_refl)) as [_ Hx].
    destruct (H y (or_intror Hy)) as [_ Hy'].
    specialize (Hx _ Ha). specialize (Hy' _ Hb). lia.
Qed.

Lemma sorted_last (l : list Z) (b : Z) :
  StronglySorted Z.lt l -> In b l -> (forall z, In z l -> z <= b) ->
  last l 0 = b.
Proof.
  induction l as [|x l IH]; intros Hs Hin Hle; [destruct Hin|].
  inversion Hs as [|? ? Hs' Hf]; subst.
  destruct l as [|y l]; [destruct Hin as [->|[]]; reflexivity|].
  change (last (x :: y :: l) 0) with (last (y :: l) 0).
  apply IH; [exact Hs'| |intros z Hz; apply Hle; now right].
  destruct Hin as [->|Hin]; [|exact Hin].
  rewrite Forall_forall in Hf. specialize (Hf y (or_introl eq_refl)).
  specialize (Hle y (or_intror (or_introl eq_refl))). lia.
Qed.

Section PlanProgress.

Variables fsm bsm : Z.
Variables prefix dir : string.
Hypothesis bsm_pos : 0 < bsm.
Hypothesis bsm_lt : bsm < fsm.

Lemma the_files_progress bytes :
  0 < bytes ->
  let fs := map (the_file fsm bsm prefix dir bytes)
                (zseq 0 (Z.to_nat (part_count bytes fsm))) in
  StronglySorted Z.lt (block_ends fs) /\
  In bytes (block_ends fs) /\
  forall z, In z (block_ends fs) -> 0 < z <= bytes.
Proof.
  intros Hb fs. assert (Hf : 0 < fsm) by lia.
  pose proof (part_count_pos bytes fsm Hf Hb) as Hc.
  assert (Hfile : forall fi, In fi fs ->
            exists i, 0 <= i < part_count bytes fsm /\
                      fi = the_file fsm bsm prefix dir bytes i).
  { intros fi Hin. apply in_map_iff in Hin as (i & <- & Hi).
    apply in_zseq in Hi. exists i. split; [lia | reflexivity]. }
  assert (Hblock : forall i z, 0 <= i < part_count bytes fsm ->
            In z (map BlockInfo.abs_end
                    (FileInfo.blocks (the_file fsm bsm prefix dir bytes i))) ->
            i * fsm < z <= i * fsm + part_size bytes fsm i).
  { intros i z Hi Hz. cbn [the_file FileInfo.blocks] in Hz.
    rewrite map_map in Hz. apply in_map_iff in Hz as (j & <- & Hj).
    apply in_zseq in Hj.
    pose proof (part_size_range bytes fsm Hf Hb i) as Hp.
    pose proof (part_count_pos _ bsm bsm_pos (proj1 Hp)) as Hc'.
    pose proof (part_size_range (part_size bytes fsm i) bsm bsm_pos
                  (proj1 Hp) j) as Hq.
    assert (Hj' : 0 <= j < part_count (part_size bytes fsm i) bsm) by lia.
    pose proof (part_end (part_size bytes fsm i) bsm bsm_pos (proj1 Hp) j Hj').
    cbn [the_block BlockInfo.abs_end]. nia. }
  split; [|split].
  - unfold block_ends.
    apply (sorted_concat _ FileInfo.offset FileInfo.end_).
    + intros fi Hin. destruct (Hfile _ Hin) as (i & Hi & ->). split.
      * cbn [the_file FileInfo.blocks]. rewrite map_map.
        apply sorted_map_zseq. intros j j' Hj Hj'.
        pose proof (part_size_range bytes fsm Hf Hb i) as Hp.
        pose proof (part_size_range (part_size bytes fsm i) bsm bsm_pos
                      (proj1 Hp) j) as Hq.
        pose proof (part_size_range (part_size bytes fsm i) bsm bsm_pos
                      (proj1 Hp) j') as Hq'.
        cbn [the_block BlockInfo.abs_end]. nia.
      * intros z Hz. cbn [the_file FileInfo.offset FileInfo.end_].
        now apply Hblock.
    + apply sorted_map_zseq. intros i i' Hi Hi'.
      pose proof (part_size_range bytes fsm Hf Hb i) as Hp.
      cbn [the_file FileInfo.offset FileInfo.end_]. nia.
  - set (i := part_count bytes fsm - 1).
    pose proof (part_size_range bytes fsm Hf Hb i) as Hs.
    pose proof (part_count_pos (part_size bytes fsm i) bsm bsm_pos (proj1 Hs))
      as Hc'.
    pose proof (part_last bytes fsm Hf Hb) as Hl. fold i in Hl.
    pose proof (part_last (part_size bytes fsm i) bsm bsm_pos (proj1 Hs))
      as Hl'.
    unfold block_ends. apply in_concat. eexists. split.
    + apply in_map. apply (in_map (the_file fsm bsm prefix dir bytes)).
      apply (proj2 (in_zseq _ 0 i)). unfold i. lia.
    + cbn [the_file FileInfo.blocks]. rewrite map_map. apply in_map_iff.
      exists (part_count (part_size bytes fsm i) bsm - 1). split.
      * cbn [the_block BlockInfo.abs_end]. lia.
      * apply in_zseq. lia.
  - intros z Hz. unfold block_ends in Hz.
    apply in_concat in Hz as (l & Hl & Hz).
    apply in_map_iff in Hl as (fi & <- & Hin).
    destruct (Hfile _ Hin) as (i & Hi & ->).
    pose proof (Hblock _ _ Hi Hz).
    pose proof (part_end bytes fsm Hf Hb i Hi). nia.
Qed.

End PlanProgress.

(** X29: the progress that a test reports only goes forward, and ends at
    the whole. For a tester whose plan the planner has made (file and
    byte counts within the range of its [int]s), the positions that the
    [written] signals of a write phase that goes through report are
    strictly increasing, lie above 0 and end at the bytes of the volume;
    the [verified] signals of the verification report the same
    positions. *)
Theorem progress_increases {D : Type} {E : Env D} (t : VolumeTester)
  (fsm bsm bytes : Z) (prefix dir : string) :
  0 < bsm -> bsm < fsm -> fsm <= INT_MAX ->
  0 < bytes -> bytes <= INT_MAX * fsm ->
  plan_files fsm bsm prefix dir bytes = Some (file_infos t) ->
  StronglySorted Z.lt (progress (write_events t)) /\
  (forall z, In z (progress (write_events t)) -> 0 < z <= bytes) /\
  last (progress (write_events t)) 0 = bytes /\
  progress (verify_events t) = progress (write_events t).
Proof.
  intros Hb Hlt Hf Hpos Hmax Hp.
  rewrite plan_files_eq in Hp by assumption. injection Hp as Hp.
  rewrite progress_verify_events, progress_write_events, <- Hp.
  destruct (the_files_progress fsm bsm prefix dir Hb Hlt bytes Hpos)
    as (Hs & Hin & Hr).
  split; [exact Hs|]. split; [exact Hr|]. split; [|reflexivity].
  apply sorted_last; [exact Hs | exact Hin | intros z Hz; now apply Hr].
Qed.

Lemma progress_increases_witness :
  plan_files 8 4 "CAPACITYTESTER" "/mnt" 21
  = Some (file_infos (self sample_planned)) /\
  progress (@write_events Mem.t MemEnv (self sample_planned))
  = [4; 8; 12; 16; 20; 21] /\
  StronglySorted Z.lt
    (progress (@write_events Mem.t MemEnv (self sample_planned))) /\
  (forall z, In z (progress (@write_events Mem.t MemEnv (self sample_planned)))
             -> 0 < z <= 21) /\
  last (progress (@write_events Mem.t MemEnv (self sample_planned))) 0 = 21 /\
  progress (@verify_events Mem.t MemEnv (self sample_planned))
  = progress (@write_events Mem.t MemEnv (self sample_planned)).
Proof.
  split; [vm_compute; reflexivity|].
  split; [vm_compute; reflexivity|].
  apply (progress_increases (self sample_planned) 8 4 21 "CAPACITYTESTER"
           "/mnt"); vm_compute; congruence.
Defined.
